(* ===== verification/_CoqProject ===== *)
-Q . S2P
Prelude.v
JsString.v
Message.v
Transcript.v
Json.v
Runtime.v
Stubs.v
PromptSource.v
ChatSession.v
Main.v
Spec.v
Requests.v
Responses.v
Interaction.v
Endings.v
Always.v
Runs.v
Conformance.v
Progress.v
Adequacy.v
Heap.v
Scenarios.v
