(* ===== verification/Prelude.v ===== *)
(** * A verification development for the OpenAI chat command-line client

    The program under verification is [src/index.js], a Node.js script of
    148 lines.  It reads prompts, from standard input line by line or from
    the command line, keeps a conversation history, sends the history to a
    remote chat-completion service, prints the reply, and understands two
    in-band commands, [save to <file>] and [reset].

    ** The program and its model

    The script has four parts, and each one has its file.

    - The class [OpenAiChat] (lines 22-117) is modelled in [ChatSession].
      Its fields are the record [OpenAiChat]; a session in its process is a
      [Machine] (the object and the [World]).  Each method is one
      definition with the name it has in the source: [_initialize],
      [_transcript], [_resetChat], [_callOpenaiChatApi], [handlePrompt]
      (with its two branches [saveTo] and [send]), and [chat] with its loop
      [forAwait], the body of the loop [iteration] and the [catch] block
      [reportError].
    - The two generator functions and the choice between them (lines
      119-132) are modelled in [PromptSource]: a generator is a small
      object that [next] resumes; a resumption yields a value, returns,
      stays pending for ever (a question that is never answered) or throws
      (a question on an interface that is closed).
    - The top level (lines 11-16 and 134-148) is modelled in [Main]:
      [main] checks the credential, [boot] builds and initialises the
      session, [settle] is the pair of continuations of [chat()] that call
      [process.exit].
    - What the script calls of the platform is modelled in [JsString]
      (string and array built-ins, truthiness), [Message] (messages,
      [os.EOL], the text of a transcript), [Json] ([JSON.stringify] on
      strings and messages) and [Runtime] (errors, the console, the
      file system and the remote service as interfaces).

    Standard input is the list of the lines the user gives, one per
    question.  What a question gets once the lines are used up is a
    parameter of the world ([Runtime.closed]): nothing, and the promise
    stays pending, or the error [rl.question] throws when the interface has
    been closed in the meantime.  The error is thrown by the generator,
    escapes the loop, which has its [try] inside the body, and reaches the
    rejection handler of lines 145-148.

    Effects are explicit.  A computation is a function from a state to a
    completion and a state ([Runtime.M]); the completion is [Normal] or
    [Throw], as for a JavaScript statement, and the state is kept when an
    error is thrown, as mutations are in JavaScript.  [await] is sequencing:
    the script is sequential, and the order of its effects is the order of
    the events of [trace].  Everything the script does to the outside is an
    [Event] of that trace: lines on standard output and standard error,
    queries and lines read, writes of files, requests.

    The file system and the remote service are type classes
    ([Runtime.FileSystem], [Runtime.RemoteApi]): the theorems hold for every
    instance, that is for every behaviour of the two.  [Stubs] gives the
    instances used to run the model: a file system in memory, and remote
    services that follow a script, an oracle, or always answer.

    The script has a second model, in [Interaction]: the same methods as
    interaction trees, the program alone.  Each call that leaves the
    program is an event ([Interaction.chatE]) that the environment answers,
    the object [this] is passed from one method to the next, and the loop is
    [ITree.iter], without fuel: on an input that never ends the tree never
    ends.  The definitions carry the names of the first model with the
    suffix [T] ([handlePromptT], [chatT], [mainT], ...).  A [World] answers
    the events through [Interaction.handleWorld], and [Adequacy] proves
    that the two models then agree.

    In both models the field [_messages] holds a list.  In the source it
    holds a reference to one array, which [push] and [splice] change in
    place and which every request holds (lines 49, 56, 84, 91).  [Heap]
    reads the methods a third time, with the arrays in a heap
    ([Heap.Heap], a finite map from references), the field and the
    requests holding a reference, and the request objects handed to the
    client kept in the state ([Heap.handed]).  The definitions carry the
    names of the first model with the suffix [H].

    ** Files

    - [Prelude] (this file): the hint databases [chat] and [jsstr], two
      tactics, and the lemmas on strings that every file shares.
    - [JsString], [Message], [Json], [Runtime]: the platform, as above.
    - [Transcript]: a reader of transcripts, as a reference for the writer.
    - [Stubs]: instances of the two interfaces, and worlds to run.
    - [PromptSource], [ChatSession], [Main]: the script, as above.
    - [Spec]: the contract of the session as a labelled transition relation
      on histories, and the proof that the program refines it.
    - [Requests]: what a run sends to the remote service.
    - [Responses]: the shape of the trace of an interactive run.
    - [Interaction]: the script as an interaction tree.
    - [Endings]: how the loop of the tree can end, in every environment.
    - [Always]: monitors of the events of a tree, for runs of any length,
      and what the script asks of its environment.
    - [Runs]: the finite runs of a tree, the reference reading of [Always],
      and a function that runs a tree.
    - [Conformance]: the contract of [Spec] as a monitor of the events of
      the tree, and the script under it.
    - [Progress]: the tree never takes infinitely many silent steps.
    - [Adequacy]: the tree, run in a world, gives the result of the model
      with fuel.
    - [Heap]: the session with its history as a shared array of a heap.
    - [Scenarios]: runs of the whole script, evaluated.

    ** What is proved

    - [JsString], [Message], [Json], [Transcript]: the algebra of the
      built-ins ([trim s] is the one string without white space at its ends
      that [s] holds between two runs of white space, [trim_unique];
      [startsWith] and [substring] agree; [splice] partitions the array);
      how the transcript grows with the history; that a transcript reads
      back when no content holds a line separator, for both values of
      [os.EOL]; that it does not in general, for every history and every
      platform: the text of a message read as a further line of the content
      before it gives the same transcript exactly when that content has
      several lines ([transcript_not_injective]); that the JSON text of a
      string and of a message reads back.
    - [PromptSource]: a source as the sequence it produces and the way it
      stops ([drain]).  The interactive one yields the lines of standard
      input and stops on a question that is never answered, or that throws,
      and never signals completion ([drain_FromReadline]); the one of the
      command line yields one prompt and completes.  That prompt is
      characterised without reference to the model of [trim], with the
      white space given by code unit ([argPrompt_spec]).
    - [ChatSession]: for [handlePrompt], one theorem per branch (invalid
      prompt, [save to], [reset], exchange, failed exchange) giving the
      completion, the history, the files and the trace; that it sends at
      most one request and keeps the configuration.  For the loop: no
      error of a prompt escapes [chat], which throws only the error of the
      prompt source ([chat_never_throws]); it keeps the configuration; in
      interactive mode it is the left fold of one [turn] over the lines of
      standard input, followed by the end of the input ([inputEnd]), in
      argument mode exactly one [iteration].  The proofs of the branches read
      the result off one equation per branch ([run_invalid], [run_save],
      [run_reset], [run_send], [run_uninitialized]); the proofs on the loop
      are compositional, by the rules for [preserves] and [total] of
      [Runtime] and the tactics [solve_preserves] and [solve_total].
    - [Spec]: [handlePrompt] performs one [step] of the abstract machine
      for its prompt and completes as the action prescribes; a run of
      [chat] is a run [steps] on its prompts.  On the abstract machine,
      by induction on runs: regular actions keep the history well formed
      (user and assistant alternate).  The invariant is transferred to
      [chat] for a service that always answers in the role of the assistant
      ([chat_wellFormed]).  Of the program, when a call fails: the next
      request carries two user messages in a row, and no run of [chat]
      without a [reset] leaves a history that alternates again
      ([unanswered_breaks_alternation]).  A run adds at most
      two messages per prompt, and the history only grows as long as no
      prompt starts with [reset] ([chat_history_bounds]).
    - [Requests]: every request of a run carries the model of the session
      and a history that ends with the prompt, which is neither empty nor
      a command.
    - [Responses]: in an interactive run every line read is answered
      before the next query: the trace is the greeting, then for each line
      the query, the line and at least one line of output, then the query
      that stays open ([chat_responsive]).
    - [Main]: without credential the script exits with code 1 before
      anything else; with one it ends with code 0 in argument mode whatever
      happens, and in interactive mode with nothing left to do, or with
      code 1 and the error written when the question throws
      ([main_exit_code]); arguments of white space only give the empty
      prompt, which is rejected, and the script exits with code 0 having
      sent nothing ([main_blank_arguments]).  The
      set-up of the session ([Main.configured]: a model that is not empty,
      the credential of the environment, a client that holds it, the prompt
      source the arguments select) holds after [boot] and is kept by every
      call of [handlePrompt] and every run of [chat], so the client exists
      whenever it is called ([configured_invariant]).
    - [Adequacy]: a tree finishes in a world ([finishes]) when it has a
      finite run that returns and whose answers are those of the world; one
      lemma of agreement per method, composed by the rules for [finishes]
      (sequence, loop): the tree of [chat], and the tree of the whole
      script, run in a world, converge to the result of the model with fuel
      ([chatT_adequate], [mainT_adequate]), and the run of the model is a
      run of the tree that the monitor of [Always] accepts; hence the
      result of the model does not depend on the fuel, once there is enough
      ([chat_fuel_irrelevant]).  [mainT_exec] runs the tree itself.
    - [Endings], in the program logic of the interaction trees library
      ([has_post], with the rule for [ITree.iter] and an invariant): in
      every environment [chat] ends in argument mode by the return of the
      generator and in interactive mode never by itself, and it keeps the
      configuration ([chatT_ends]).
    - [Always]: a safety property of a tree is given by a monitor (a
      state, the events allowed in each state, the state after an event and
      its answer); [always mon s t Q], the greatest fixed point (by Paco)
      of one step of observation, says that the monitor allows every event
      of every run of [t], of any length, and that [Q] holds when [t]
      returns.  Its rules for [ret], events, sequences and [ITree.iter]
      are proved once, by coinduction; the rule for sequences is an
      equivalence.  The monitor [watch] records the credential and the
      model the environment gave and whether a line read is still owed an
      answer, and whether a question was refused.  The whole script, in
      every environment ([mainT_always]): every request carries that
      credential, which is not empty, that model (or the default) and a
      history that ends with a prompt which is neither empty nor a command;
      a line is asked for with the prompt string and only when the last one
      has been answered by a line of output; the exit code is 1 exactly
      when the credential is missing or a question was refused.
      [sendT_empty] shows that the guard of [handlePrompt] is what the
      requests rest on.
    - [Runs]: a run of a tree is a finite list of events with their
      answers, ended by a return or by an event that waits for its answer
      ([run], inductive).  [always] holds of a tree exactly when the
      monitor accepts each of its runs and the postcondition holds where a
      run returns ([always_iff_runs]): the coinductive predicate is a
      statement on finite observations.  Hence the property of the script
      on each of its runs ([script_runs]).  Weakly bisimilar trees have
      the same runs ([run_eutt]), which makes [run] and [always] morphisms
      for [≈].  [exec] runs a tree against a function that answers its
      events: what it computes is a run ([exec_run]), every run that
      returns with these answers is computed ([exec_complete]), and there
      is one such run only ([run_functional]): the script is deterministic,
      what it does is a function of what its environment answers.  A
      monitor whose conditions are decidable ([Checkable]) is run on a run
      by computation, which is how the examples of rejected runs are
      proved; two monitors are checked at once by their product
      ([always_both]).
    - [Conformance]: the refinement of [Spec], for the tree and without a
      bound on the run.  The monitor [contract] keeps a ledger (the
      conversation as the contract has it, the prompt at hand, the prompts
      served and the actions on them) and allows a request only for the
      prompt at hand with the conversation of the ledger and this prompt as
      its messages, a write only for a [save to] prompt, to the file it
      names and with the transcript of the conversation of the ledger, and
      the next question only when the prompt at hand has been acted on and
      what the action owes the user has been printed (the answer, the
      confirmation of the write, the report of the failure in the form the
      error calls for).  Of
      the monitor alone: an event it allows is a [step] of the abstract
      machine, so the ledger of an accepted run is a run [steps]
      ([contract_sound]), and its prompts are those the run has read, in
      order ([contract_reads]).  Of the script: every run is accepted, and
      when it ends every prompt has been acted on and nothing is due
      ([script_conforms]).  The conditions of the contract are decidable:
      the examples at the end of the file are runs it rejects (a request
      with the conversation from before a reset, an answer that is not
      printed, a structured failure reported as an object).
    - [Progress]: [progress b t Q], inductive in the silent steps and
      coinductive in the events, says that [t] returns or asks after
      finitely many steps, again and again; its rule for [ITree.iter] asks
      that a pass goes on to the next only after an event.  Every pass of
      the loop of [chat] asks for a line or for the arguments, or ends the
      loop, so the script progresses, and in every environment its run has
      as many events as one asks for, or ends ([script_progress]); a loop
      whose passes do nothing does not ([idleLoop_hangs]).
    - [Heap]: a computation on the heap [implements] one on values when,
      from a machine and from what it stands for ([absM]: the history is
      what the array of the session holds), both complete alike and leave
      machines that stand for each other; this is proved of every method
      by the rules for sequence, [try] and the two accesses to the array,
      and of the whole script, which ends in the same world with the same
      exit status in both readings ([mainH_agrees]).  What only the heap
      can say is proved as a preorder on machines that every method
      preserves ([shares]): the session keeps the array it was constructed
      with, changes no other, and each request handed to the client holds
      that array, so a request that is read after the run shows what the
      array holds then ([chatH_shares_array], and [handed_show_history]
      for the history of the value model).  Two runs are evaluated: a
      request sent with one message holds two after the answer, and none
      after a [reset].
    - [Scenarios]: the scenarios the specification lists, and the runs that
      show where program and specification part (commands are recognised by
      prefix alone; the exit code does not tell whether the prompt was
      answered), evaluated on the stubs.  They are tests of the model, each
      an instance of a theorem above.

    ** Axioms

    The development declares no axiom.  [Endings] uses the program logic
    of the interaction trees library, whose rules rest on the axiom
    [Eqdep.Eq_rect_eq.eq_rect_eq] of the Standard Library, and
    [chatT_ends] inherits it; the other theorems the development is made
    for are closed under the global context.

    ** Fuel

    The loop [for await] is the one place where the model needs fuel
    ([ChatSession.forAwait], and [PromptSource.drain] for the generators
    alone): one unit per resumption of the generator.  A run in interactive
    mode resumes the generator once per line of standard input and once
    more for the question that ends the input, so [length stdin < fuel] is
    enough; a run in argument mode resumes it twice.  The theorems on the
    result of a run state this bound as a hypothesis and conclude that the
    loop ends [Suspended] or [Finished] or throws, never [OutOfFuel]; the
    safety
    theorems ([chat_never_throws], [chat_steady], [chat_sendsValid]) hold
    for every fuel.  Fuel bounds the model, not the program: the trees of
    [Interaction] have none, and by [Adequacy.chatT_adequate] every run of
    the model that does not run out of fuel is the run of the tree in the
    same world.  [Heap.forAwaitH] has the fuel of [forAwait], and
    [mainH_agrees] holds for every fuel.  What must hold of runs that
    never end is stated on the tree ([Endings], [Always], [Runs], [Conformance], [Progress]).
    [Runs.exec] has fuel too, one unit per step of the tree: it is total in
    the fuel it needs ([exec_complete]), more fuel does not change a run
    that has returned ([exec_mono]), and [Progress.script_progress] says
    that fuel is all a run of the script needs to reach its next event.

    ** What is not modelled

    - Code units above 255: a string is a Rocq [string], one [ascii] per
      code unit.  No operation of the script looks inside a code unit.
    - The text that [console.error] prints for an error object: the event
      [ConsoleErrorObject] carries the error itself.
    - The HTTP client behind [createChatCompletion], its headers and the
      fields of a response other than [choices[i].message]; a request is
      answered by the instance of [RemoteApi], in one step.
    - Answers of the service that are not of the documented shape.  A
      response has a list of choices, empty or not, and a choice has a
      message with a role and a content: [data] or [data.choices] missing,
      and a choice without message (which line 91 would push as [undefined]
      before line 92 throws), are not represented.  Fields of a message
      other than role and content are dropped, also in the debug line.
    - Values thrown that are no error objects, and responses of an error
      without status or status text: what the loop catches is a [JsError],
      the status of its response is a natural number, and the line of
      [reportError] never holds the text [undefined].
    - A failed write may leave any file system (the instance decides), and
      the event [WriteFile] is recorded whether the write succeeds or not.
    - Partial writes, terminal echo and line editing, signals; lines that
      arrive while no question is open, which readline drops: the lines of
      [stdin] are those that answer a question.
    - What a client does with the request it is given.  [Heap] models
      that the request holds the array of the session and records the
      requests handed over; the service is asked with what the request
      holds at the call, and nothing but the session changes the array.  A
      client library that changed the array, or sent it after the call had
      returned, is outside the model.
    - The event loop: a promise that never settles is the outcome
      [Pending] of [next]; the process then ends with nothing left to do
      ([Main.Idle]), with the exit code the specification gives for the end
      of input. *)

From Stdlib Require Import Ascii.
From Stdlib Require String.
From stdpp Require Export base tactics option list strings.

(** ** Hint databases *)

(** [chat] holds the resolution hints of the development; [jsstr] the
    rewriting rules that normalise string expressions. *)
Create HintDb chat discriminated.
Create Rewrite HintDb jsstr.

(** ** Tactics *)

(** Case analysis on the scrutinee of the first [if] of the goal. *)
Ltac case_if :=
  match goal with
  | |- context [if ?b then _ else _] => destruct b eqn:?
  end.

(** Normalise string concatenations. *)
Ltac str_norm := autorewrite with jsstr.

(** ** Strings *)

(** stdpp keeps [String.append] from unfolding under [simpl]; these two
    equations replace the unfolding. *)
Lemma str_app_cons (c : ascii) (s t : string) :
  String c s +:+ t = String c (s +:+ t).
Proof. reflexivity. Qed.

Lemma str_app_nil_l (s : string) : "" +:+ s = s.
Proof. reflexivity. Qed.

Lemma str_app_nil_r (s : string) : s +:+ "" = s.
Proof. induction s as [|c s IH]; [done|]. by rewrite str_app_cons, IH. Qed.

Lemma str_app_assoc (s t u : string) : (s +:+ t) +:+ u = s +:+ (t +:+ u).
Proof. induction s as [|c s IH]; [done|]. by rewrite !str_app_cons, IH. Qed.

Lemma str_length_app (s t : string) :
  String.length (s +:+ t) = String.length s + String.length t.
Proof. induction s as [|c s IH]; [done|]. rewrite str_app_cons. simpl. by rewrite IH. Qed.

Lemma str_app_eq_nil (s t : string) : s +:+ t = "" → s = "" ∧ t = "".
Proof. by destruct s. Qed.

Lemma str_length_zero_iff (s : string) : String.length s = 0 ↔ s = "".
Proof. by destruct s. Qed.

#[export] Hint Rewrite str_app_cons str_app_nil_l str_app_nil_r str_app_assoc : jsstr.
#[export] Hint Rewrite str_length_app : jsstr.
