(* ===== verification/JsString.v ===== *)
(** * JavaScript built-ins used by the script

    The string and array methods [src/index.js] calls, as executable
    functions on [string] and [list]: [String.prototype.startsWith],
    [substring], [includes], [trim], [Array.prototype.join], [slice],
    [splice], [push], the truthiness test behind [!x] and [x || y], and the
    conversions a template literal applies to the values it interpolates.
    Each function is followed by the algebra the components rely on. *)

From Stdlib Require Import Ascii DecimalString.
From S2P Require Import Prelude.

(** ** Values *)

(** The values a prompt parameter is modelled to take: a string, or one of
    the two empty values. *)
Inductive JsVal :=
| JsUndefined
| JsNull
| JsStr (s : string).

(** [ToBoolean] on a string: only the empty string is falsy. *)
Definition truthy (s : string) : bool :=
  match s with
  | "" => false
  | String _ _ => true
  end.

(** [ToBoolean] on a value. *)
Definition toBoolean (v : JsVal) : bool :=
  match v with
  | JsUndefined | JsNull => false
  | JsStr s => truthy s
  end.

(** [ToString], as a template literal applies it to an interpolated value. *)
Definition toString (v : JsVal) : string :=
  match v with
  | JsUndefined => "undefined"
  | JsNull => "null"
  | JsStr s => s
  end.

(** A property that may be absent ([undefined]) is an [option]; its
    truthiness is that of its value. *)
Definition truthyOpt (o : option string) : bool :=
  match o with
  | None => false
  | Some s => truthy s
  end.

(** [x || d] on an optional string. *)
Definition orElse (o : option string) (d : string) : string :=
  match o with
  | Some s => if truthy s then s else d
  | None => d
  end.

(** [Number.prototype.toString] on a natural number, in base ten. *)
Definition numberToString (n : nat) : string :=
  NilEmpty.string_of_uint (Nat.to_uint n).

(** ** Strings *)

(** [s.startsWith(p)]. *)
Definition startsWith (s p : string) : bool := String.prefix p s.

(** [s.substring(start)]: the code units from [start] on; a [start] past the
    end gives the empty string. *)
Fixpoint substring (start : nat) (s : string) : string :=
  match start, s with
  | 0, _ => s
  | S _, "" => ""
  | S n, String _ s' => substring n s'
  end.

(** [s.includes(t)]. *)
Fixpoint includes (s t : string) : bool :=
  String.prefix t s ||
  match s with
  | "" => false
  | String _ s' => includes s' t
  end.

(** White space and line terminators, as [trim] sees them, among the code
    units below 256: TAB, LF, VT, FF, CR, SP and NBSP. *)
Definition isWhiteSpace (c : ascii) : bool :=
  match c with
  | "009" | "010" | "011" | "012" | "013" | " " | "160" => true
  | _ => false
  end%char.

(** [s.trimStart()]. *)
Fixpoint trimStart (s : string) : string :=
  match s with
  | "" => ""
  | String c s' => if isWhiteSpace c then trimStart s' else s
  end.

(** [s.trimEnd()]. *)
Fixpoint trimEnd (s : string) : string :=
  match s with
  | "" => ""
  | String c s' =>
      match trimEnd s' with
      | "" => if isWhiteSpace c then "" else String c ""
      | t => String c t
      end
  end.

(** [s.trim()]. *)
Definition trim (s : string) : string := trimEnd (trimStart s).

(** Every code unit of [s] is white space. *)
Fixpoint allWhiteSpace (s : string) : bool :=
  match s with
  | "" => true
  | String c s' => isWhiteSpace c && allWhiteSpace s'
  end.

(** ** Arrays *)

(** [a.join(sep)] on an array of strings. *)
Definition join (sep : string) (a : list string) : string := String.concat sep a.

(** [a.slice(start)]. *)
Definition slice {A} (start : nat) (a : list A) : list A := drop start a.

(** [a.splice(start, deleteCount)]: the removed elements and the array as
    it is left. *)
Definition splice {A} (start deleteCount : nat) (a : list A) : list A * list A :=
  (take deleteCount (drop start a), take start a ++ drop (start + deleteCount) a).

(** [a.push(x)]. *)
Definition push {A} (a : list A) (x : A) : list A := a ++ [x].

(** ** Truthiness *)

Lemma truthy_false_iff (s : string) : truthy s = false ↔ s = "".
Proof. by destruct s. Qed.

Lemma truthy_true_iff (s : string) : truthy s = true ↔ s ≠ "".
Proof. by destruct s. Qed.

Lemma toBoolean_true_iff (v : JsVal) :
  toBoolean v = true ↔ ∃ s, v = JsStr s ∧ s ≠ "".
Proof.
  destruct v as [| |s]; simpl; rewrite ?truthy_true_iff;
    (split; [intros H|intros (t & [=] & Ht)]); subst; eauto; done.
Qed.

Lemma orElse_truthy (o : option string) (d : string) :
  truthy d = true → truthy (orElse o d) = true.
Proof. destruct o as [s|]; simpl; [|done]. by destruct (truthy s) eqn:?. Qed.

(** ** [startsWith] *)

Lemma startsWith_nil (s : string) : startsWith s "" = true.
Proof. by destruct s. Qed.

Lemma startsWith_cons (c d : ascii) (s p : string) :
  startsWith (String c s) (String d p) = bool_decide (c = d) && startsWith s p.
Proof.
  unfold startsWith. simpl. destruct (ascii_dec d c) as [->|Hne].
  - by rewrite bool_decide_eq_true_2.
  - by rewrite bool_decide_eq_false_2 by congruence.
Qed.

Lemma startsWith_app (p t : string) : startsWith (p +:+ t) p = true.
Proof.
  induction p as [|c p IH]; [apply startsWith_nil|].
  by rewrite str_app_cons, startsWith_cons, bool_decide_eq_true_2, IH.
Qed.

Lemma startsWith_spec (s p : string) :
  startsWith s p = true ↔ ∃ t, s = p +:+ t.
Proof.
  split; [|intros [t ->]; apply startsWith_app].
  revert s. induction p as [|d p IH]; intros s H; [by exists s|].
  destruct s as [|c s]; [done|].
  rewrite startsWith_cons in H. apply andb_prop in H as [Hc Hp].
  apply bool_decide_eq_true_1 in Hc as ->.
  destruct (IH _ Hp) as [t ->]. by exists t.
Qed.

Lemma startsWith_length (s p : string) :
  startsWith s p = true → String.length p ≤ String.length s.
Proof. intros [t ->]%startsWith_spec. rewrite str_length_app. lia. Qed.

Lemma startsWith_trans (s p q : string) :
  startsWith s p = true → startsWith p q = true → startsWith s q = true.
Proof.
  intros [t ->]%startsWith_spec [u ->]%startsWith_spec.
  rewrite str_app_assoc. apply startsWith_app.
Qed.

(** ** [substring] *)

Lemma substring_0 (s : string) : substring 0 s = s.
Proof. by destruct s. Qed.

Lemma substring_nil (n : nat) : substring n "" = "".
Proof. by destruct n. Qed.

Lemma substring_app_length (p t : string) :
  substring (String.length p) (p +:+ t) = t.
Proof. induction p as [|c p IH]; [apply substring_0|]. by rewrite str_app_cons. Qed.

Lemma substring_past_end (n : nat) (s : string) :
  String.length s ≤ n → substring n s = "".
Proof.
  revert n. induction s as [|c s IH]; intros n H; [apply substring_nil|].
  destruct n as [|n]; simpl in *; [lia|]. apply IH. lia.
Qed.

Lemma substring_length (n : nat) (s : string) :
  String.length (substring n s) = String.length s - n.
Proof.
  revert n. induction s as [|c s IH]; intros [|n]; simpl; auto.
Qed.

Lemma substring_add (n m : nat) (s : string) :
  substring n (substring m s) = substring (m + n) s.
Proof.
  revert m. induction s as [|c s IH]; intros [|m]; simpl;
    rewrite ?substring_nil, ?substring_0; auto.
Qed.

#[export] Hint Rewrite substring_0 substring_nil substring_app_length : jsstr.
#[export] Hint Rewrite startsWith_nil startsWith_app : jsstr.

(** ** [includes] *)

Lemma includes_unfold (s t : string) :
  includes s t =
  startsWith s t || match s with "" => false | String _ s' => includes s' t end.
Proof. by destruct s. Qed.

Lemma includes_nil (s : string) : includes s "" = true.
Proof. by rewrite includes_unfold, startsWith_nil. Qed.

Lemma includes_spec (s t : string) :
  includes s t = true ↔ ∃ a b, s = a +:+ t +:+ b.
Proof.
  split.
  - induction s as [|c s IH]; rewrite includes_unfold; intros H;
      apply orb_prop in H as [[b ->]%startsWith_spec|H]; try done.
    + by exists "", b.
    + by exists "", b.
    + destruct (IH H) as (a & b & ->). by exists (String c a), b.
  - intros (a & b & ->). induction a as [|c a IH]; rewrite includes_unfold.
    + by rewrite str_app_nil_l, startsWith_app.
    + rewrite str_app_cons, IH. apply orb_true_r.
Qed.

Lemma includes_app_l (s t u : string) :
  includes s t = true → includes (s +:+ u) t = true.
Proof.
  rewrite !includes_spec. intros (a & b & ->). exists a, (b +:+ u).
  by rewrite !str_app_assoc.
Qed.

Lemma includes_app_r (s t u : string) :
  includes s t = true → includes (u +:+ s) t = true.
Proof.
  rewrite !includes_spec. intros (a & b & ->). exists (u +:+ a), b.
  by rewrite !str_app_assoc.
Qed.

Lemma includes_self (s : string) : includes s s = true.
Proof. apply includes_spec. exists "", "". by rewrite str_app_nil_r. Qed.

Lemma includes_length (s t : string) :
  includes s t = true → String.length t ≤ String.length s.
Proof. intros (a & b & ->)%includes_spec. rewrite !str_length_app. lia. Qed.

(** ** [trim] *)

Lemma trimStart_allWhiteSpace (s : string) :
  allWhiteSpace s = true → trimStart s = "".
Proof.
  induction s as [|c s IH]; simpl; [done|].
  intros [-> ?]%andb_prop. auto.
Qed.

Lemma trimEnd_allWhiteSpace (s : string) :
  allWhiteSpace s = true → trimEnd s = "".
Proof.
  induction s as [|c s IH]; simpl; [done|].
  intros [-> ?]%andb_prop. by rewrite IH.
Qed.

Lemma trimEnd_nil_inv (s : string) : trimEnd s = "" → allWhiteSpace s = true.
Proof.
  induction s as [|c s IH]; simpl; [done|].
  destruct (trimEnd s); [|done].
  destruct (isWhiteSpace c); [auto|done].
Qed.

Lemma trimStart_head (s : string) (c : ascii) (t : string) :
  trimStart s = String c t → isWhiteSpace c = false.
Proof.
  induction s as [|d s IH]; simpl; [done|].
  destruct (isWhiteSpace d) eqn:Hd; [done|]. by intros [= <- _].
Qed.

Lemma trimEnd_head (s : string) (c : ascii) :
  isWhiteSpace c = false → trimEnd (String c s) = String c (trimEnd s).
Proof. intros Hc. simpl. rewrite Hc. by destruct (trimEnd s). Qed.

Lemma trimStart_decompose (s : string) :
  ∃ a, s = a +:+ trimStart s ∧ allWhiteSpace a = true.
Proof.
  induction s as [|c s (a & Ha & Hw)]; [by exists ""|]. simpl.
  destruct (isWhiteSpace c) eqn:Hc; [|by exists ""].
  exists (String c a). rewrite str_app_cons, <- Ha. simpl. by rewrite Hc, Hw.
Qed.

Lemma trimEnd_decompose (s : string) :
  ∃ b, s = trimEnd s +:+ b ∧ allWhiteSpace b = true.
Proof.
  induction s as [|c s (b & Hb & Hw)]; [by exists ""|]. simpl.
  destruct (trimEnd s) as [|d t] eqn:Ht.
  - destruct (isWhiteSpace c) eqn:Hc.
    + exists (String c s). split; [done|]. simpl.
      by rewrite Hc, (trimEnd_nil_inv s Ht).
    + exists b. rewrite Hb at 1. by rewrite !str_app_cons.
  - exists b. by rewrite Hb at 1.
Qed.

Lemma trimStart_idempotent (s : string) : trimStart (trimStart s) = trimStart s.
Proof.
  destruct (trimStart s) as [|c t] eqn:Hs; [done|].
  simpl. by rewrite (trimStart_head _ _ _ Hs).
Qed.

Lemma trimEnd_idempotent (s : string) : trimEnd (trimEnd s) = trimEnd s.
Proof.
  induction s as [|c s IH]; simpl; [done|].
  destruct (trimEnd s) as [|d t] eqn:Ht.
  - destruct (isWhiteSpace c) eqn:Hc; simpl; [done|]. by rewrite Hc.
  - change (trimEnd (String c (String d t))) with
      (match trimEnd (String d t) with
       | "" => if isWhiteSpace c then "" else String c ""
       | u => String c u end).
    by rewrite IH.
Qed.

Lemma trimStart_trimEnd (s : string) :
  trimStart (trimEnd s) = trimEnd (trimStart s).
Proof.
  induction s as [|c s IH]; simpl; [done|].
  destruct (isWhiteSpace c) eqn:Hc.
  - destruct (trimEnd s) as [|d t] eqn:Ht.
    + by rewrite <- IH.
    + simpl. by rewrite Hc.
  - rewrite trimEnd_head by done.
    destruct (trimEnd s); simpl; by rewrite Hc.
Qed.

Lemma trim_allWhiteSpace (s : string) :
  trim s = "" ↔ allWhiteSpace s = true.
Proof.
  unfold trim. split.
  - intros H. rewrite <- trimStart_trimEnd in H.
    destruct (trimEnd_decompose s) as (b & Hb & Hw).
    destruct (trimStart_decompose (trimEnd s)) as (a & Ha & Hw').
    rewrite H, str_app_nil_r in Ha. rewrite Hb, Ha. clear -Hw Hw'.
    induction a as [|c a IH]; simpl in *; [done|].
    apply andb_prop in Hw' as [-> ?]. auto.
  - intros H. by rewrite (trimStart_allWhiteSpace s H).
Qed.

Lemma trim_idempotent (s : string) : trim (trim s) = trim s.
Proof.
  unfold trim.
  by rewrite (trimStart_trimEnd (trimStart s)), trimStart_idempotent, trimEnd_idempotent.
Qed.

Lemma trim_decompose (s : string) :
  ∃ a b, s = a +:+ trim s +:+ b ∧ allWhiteSpace a = true ∧ allWhiteSpace b = true.
Proof.
  destruct (trimStart_decompose s) as (a & Ha & Hwa).
  destruct (trimEnd_decompose (trimStart s)) as (b & Hb & Hwb).
  exists a, b. unfold trim. by rewrite <- Hb, <- Ha.
Qed.

Lemma trim_head (s : string) (c : ascii) (t : string) :
  trim s = String c t → isWhiteSpace c = false.
Proof.
  unfold trim. rewrite <- trimStart_trimEnd. apply trimStart_head.
Qed.

Lemma trim_length (s : string) : String.length (trim s) ≤ String.length s.
Proof.
  destruct (trim_decompose s) as (a & b & Hs & _).
  rewrite Hs at 2. rewrite !str_length_app. lia.
Qed.

(** ** [join] *)

Lemma join_nil (sep : string) : join sep [] = "".
Proof. done. Qed.

Lemma join_singleton (sep x : string) : join sep [x] = x.
Proof. done. Qed.

Lemma join_cons (sep x y : string) (a : list string) :
  join sep (x :: y :: a) = x +:+ sep +:+ join sep (y :: a).
Proof. done. Qed.

Lemma join_app (sep : string) (a b : list string) :
  a ≠ [] → b ≠ [] →
  join sep (a ++ b) = join sep a +:+ sep +:+ join sep b.
Proof.
  intros Ha Hb. induction a as [|x [|y a] IH]; [done| |].
  - destruct b; [done|]. by rewrite join_singleton.
  - rewrite <- !app_comm_cons, !join_cons, app_comm_cons, IH by done.
    by rewrite !str_app_assoc.
Qed.

Lemma join_push (sep x : string) (a : list string) :
  a ≠ [] → join sep (push a x) = join sep a +:+ sep +:+ x.
Proof. intros Ha. unfold push. by rewrite join_app. Qed.

#[export] Hint Rewrite join_nil join_singleton join_cons : jsstr.

(** ** [slice], [splice], [push] *)

Lemma slice_length {A} (n : nat) (a : list A) :
  length (slice n a) = length a - n.
Proof. apply length_drop. Qed.

Lemma splice_all {A} (a : list A) : splice 0 (length a) a = (a, []).
Proof. unfold splice. simpl. by rewrite drop_0, firstn_all, drop_all. Qed.

Lemma splice_none {A} (start : nat) (a : list A) :
  splice start 0 a = ([], a).
Proof. unfold splice. by rewrite Nat.add_0_r, take_0, take_drop. Qed.

Lemma splice_length {A} (start n : nat) (a : list A) :
  length (splice start n a).1 + length (splice start n a).2 = length a.
Proof.
  unfold splice. simpl.
  rewrite length_app, !length_take, !length_drop. lia.
Qed.

Lemma push_length {A} (a : list A) (x : A) : length (push a x) = S (length a).
Proof. unfold push. rewrite length_app. simpl. lia. Qed.

Lemma push_last {A} (a : list A) (x : A) : last (push a x) = Some x.
Proof. apply last_snoc. Qed.

Lemma push_prefix {A} (a : list A) (x : A) : a `prefix_of` push a x.
Proof. by apply prefix_app_r. Qed.

(** ** Characterisations *)

(** The white space of [trim] by code unit: TAB, LF, VT, FF, CR, SP and
    NBSP, and no other code unit below 256. *)
Lemma isWhiteSpace_codes (c : ascii) :
  isWhiteSpace c = bool_decide (nat_of_ascii c ∈ [9; 10; 11; 12; 13; 32; 160]).
Proof. by destruct c as [[] [] [] [] [] [] [] []]; vm_compute. Qed.

Lemma allWhiteSpace_codes (s : string) (c : ascii) :
  allWhiteSpace s = true → In c (String.list_ascii_of_string s) →
  nat_of_ascii c ∈ [9; 10; 11; 12; 13; 32; 160].
Proof.
  induction s as [|d s IH]; simpl; [done|].
  intros [Hd Hs]%andb_prop [->|Hc]; [|by apply IH].
  rewrite isWhiteSpace_codes in Hd. by apply bool_decide_eq_true in Hd.
Qed.

(** What [trimEnd] leaves does not end with white space. *)
Lemma trimEnd_last (s t : string) (c : ascii) :
  trimEnd s = t +:+ String c "" → isWhiteSpace c = false.
Proof.
  revert t. induction s as [|d s IH]; intros t; simpl; [by destruct t|].
  destruct (trimEnd s) as [|e u] eqn:Hs.
  - destruct (isWhiteSpace d) eqn:Hd; [by destruct t|].
    destruct t as [|x [|y t]]; simpl; intros [= ]; by subst.
  - destruct t as [|x t]; simpl; intros [= ]; subst. by apply (IH t).
Qed.

Lemma trim_last (s t : string) (c : ascii) :
  trim s = t +:+ String c "" → isWhiteSpace c = false.
Proof. apply trimEnd_last. Qed.

Lemma allWhiteSpace_of_codes (s : string) :
  (∀ c, In c (String.list_ascii_of_string s) →
        nat_of_ascii c ∈ [9; 10; 11; 12; 13; 32; 160]) →
  allWhiteSpace s = true.
Proof.
  induction s as [|d s IH]; simpl; [done|]. intros H.
  rewrite isWhiteSpace_codes, bool_decide_eq_true_2 by auto. auto.
Qed.

(** White space before and after is all that [trim] removes. *)
Lemma trimStart_app_white (l s : string) :
  allWhiteSpace l = true → trimStart (l +:+ s) = trimStart s.
Proof. induction l as [|c l IH]; simpl; [done|]. by intros [-> ?]%andb_prop; auto. Qed.

Lemma trimEnd_app_white (s r : string) :
  allWhiteSpace r = true → trimEnd (s +:+ r) = trimEnd s.
Proof.
  intros Hr. induction s as [|c s IH]; simpl; [by apply trimEnd_allWhiteSpace|].
  by rewrite IH.
Qed.

Lemma trimStart_fixed (s : string) :
  (∀ c t, s = String c t → isWhiteSpace c = false) → trimStart s = s.
Proof. destruct s as [|c s]; simpl; [done|]. intros H. by rewrite (H c s). Qed.

Lemma trimEnd_fixed (s : string) :
  (∀ t c, s = t +:+ String c "" → isWhiteSpace c = false) → trimEnd s = s.
Proof.
  induction s as [|d s IH]; simpl; [done|]. intros H.
  destruct s as [|e s]; [by rewrite (H "" d)|].
  rewrite IH; [done|]. intros t c Ht. apply (H (String d t)). simpl. by rewrite Ht.
Qed.

(** [trim s] is the only string without white space at its ends that [s]
    holds between two runs of white space. *)
Lemma trim_unique (s l t r : string) :
  s = l +:+ t +:+ r → allWhiteSpace l = true → allWhiteSpace r = true →
  (∀ c u, t = String c u → isWhiteSpace c = false) →
  (∀ u c, t = u +:+ String c "" → isWhiteSpace c = false) →
  trim s = t.
Proof.
  intros -> Hl Hr Hhead Hlast. unfold trim. rewrite trimStart_app_white by done.
  destruct t as [|c u].
  - simpl. by rewrite trimStart_allWhiteSpace.
  - rewrite trimStart_fixed.
    + rewrite trimEnd_app_white by done. by apply trimEnd_fixed.
    + simpl. intros ? ? [= <- _]. by apply (Hhead c u).
Qed.

(** A string that starts with a prefix is that prefix followed by its
    [substring] from the length of the prefix on: the test of a command and
    the extraction of its argument agree. *)
Lemma startsWith_substring (s p : string) :
  startsWith s p = true → s = p +:+ substring (String.length p) s.
Proof. intros [t ->]%startsWith_spec. by rewrite substring_app_length. Qed.

(** [splice] cuts the array in three: what is before [start], the
    removed elements, and what is after them; the array is left as the first
    and the last part, and a splice from 0 over the whole length removes
    everything. *)
Theorem splice_partition {A} (start n : nat) (a : list A) :
  take start a ++ (splice start n a).1 ++ drop (start + n) a = a ∧
  (splice start n a).2 = take start a ++ drop (start + n) a ∧
  (splice 0 (length a) a).2 = [].
Proof.
  unfold splice. simpl. repeat split.
  - rewrite <- drop_drop, take_drop. apply take_drop.
  - by rewrite drop_all.
Qed.

(** The built-ins are used through their lemmas: [simpl] leaves them folded. *)
#[global] Arguments startsWith : simpl never.
#[global] Arguments substring : simpl never.
#[global] Arguments includes : simpl never.
#[global] Arguments trim : simpl never.
#[global] Arguments join : simpl never.
#[global] Arguments slice : simpl never.
#[global] Arguments splice : simpl never.
#[global] Arguments push : simpl never.
#[global] Arguments numberToString : simpl never.
