(* ===== verification/Message.v ===== *)
(** * Messages and the transcript

    The conversation history of [src/index.js] is an array of objects
    [{ role, content }].  This file holds the message type, the line
    separator [os.EOL] of the two platform families, and the rendering of a
    history as text that [OpenAiChat._transcript] computes (lines 39-46),
    with the algebra of that rendering. *)

From Stdlib Require Import Ascii.
From S2P Require Import Prelude JsString.

(** ** Data *)

(** The platform family: it fixes [os.EOL]. *)
Inductive Platform := POSIX | Windows.

#[export] Instance Platform_eq_dec : EqDecision Platform.
Proof. solve_decision. Defined.

Definition LF : string := String "010" "".
Definition CRLF : string := String "013" (String "010" "").

(** [os.EOL]. *)
Definition EOL (os : Platform) : string :=
  match os with
  | POSIX => LF
  | Windows => CRLF
  end.

(** One entry of the history.  The role is kept as the string it is in the
    program: the script writes ["user"], the remote service chooses the role
    of the replies. *)
Record Message := mkMessage { role : string; content : string }.

#[export] Instance Message_eq_dec : EqDecision Message.
Proof. solve_decision. Defined.

Definition userMessage (prompt : string) : Message :=
  {| role := "user"; content := prompt |}.

(** [msg.role === "user" ? '>> ' : '<< '] (line 42). *)
Definition msgSourceIndicator (msg : Message) : string :=
  if decide (role msg = "user") then ">> " else "<< ".

(** The text of one message (line 43): the indicator, a line separator when
    the content spans several lines, the content. *)
Definition renderMessage (os : Platform) (msg : Message) : string :=
  msgSourceIndicator msg +:+
  (if includes (content msg) (EOL os) then EOL os else "") +:+
  content msg.

(** The transcript of a history (lines 40-45). *)
Definition transcript (os : Platform) (messages : list Message) : string :=
  join (EOL os) (map (renderMessage os) messages).

(** A history in which user and assistant alternate, the user first. *)
Fixpoint alternates (expectUser : bool) (messages : list Message) : bool :=
  match messages with
  | [] => true
  | m :: rest =>
      bool_decide (role m = if expectUser then "user" else "assistant")
      && alternates (negb expectUser) rest
  end.

(** ** The line separator *)

Lemma EOL_nonempty (os : Platform) : EOL os ≠ "".
Proof. by destruct os. Qed.

Lemma EOL_length (os : Platform) : 1 ≤ String.length (EOL os) ≤ 2.
Proof. destruct os; simpl; lia. Qed.

(** ** Rendering one message *)

Lemma msgSourceIndicator_cases (msg : Message) :
  (role msg = "user" ∧ msgSourceIndicator msg = ">> ") ∨
  (role msg ≠ "user" ∧ msgSourceIndicator msg = "<< ").
Proof. unfold msgSourceIndicator. case_decide; auto. Qed.

Lemma msgSourceIndicator_length (msg : Message) :
  String.length (msgSourceIndicator msg) = 3.
Proof. unfold msgSourceIndicator. by case_decide. Qed.

Lemma renderMessage_startsWith (os : Platform) (msg : Message) :
  startsWith (renderMessage os msg) (msgSourceIndicator msg) = true.
Proof. apply startsWith_app. Qed.

Lemma renderMessage_single_line (os : Platform) (msg : Message) :
  includes (content msg) (EOL os) = false →
  renderMessage os msg = msgSourceIndicator msg +:+ content msg.
Proof. unfold renderMessage. by intros ->. Qed.

Lemma renderMessage_multi_line (os : Platform) (msg : Message) :
  includes (content msg) (EOL os) = true →
  renderMessage os msg = msgSourceIndicator msg +:+ EOL os +:+ content msg.
Proof. unfold renderMessage. by intros ->. Qed.

Lemma renderMessage_includes_content (os : Platform) (msg : Message) :
  includes (renderMessage os msg) (content msg) = true.
Proof.
  unfold renderMessage. do 2 apply includes_app_r. apply includes_self.
Qed.

Lemma renderMessage_length (os : Platform) (msg : Message) :
  3 + String.length (content msg) ≤ String.length (renderMessage os msg).
Proof.
  unfold renderMessage. rewrite !str_length_app, msgSourceIndicator_length. lia.
Qed.

Lemma renderMessage_nonempty (os : Platform) (msg : Message) :
  renderMessage os msg ≠ "".
Proof.
  intros H. pose proof (renderMessage_length os msg) as Hl.
  rewrite H in Hl. simpl in Hl. lia.
Qed.

(** ** The transcript *)

Lemma transcript_nil (os : Platform) : transcript os [] = "".
Proof. done. Qed.

Lemma transcript_singleton (os : Platform) (msg : Message) :
  transcript os [msg] = renderMessage os msg.
Proof. done. Qed.

Lemma transcript_app (os : Platform) (a b : list Message) :
  a ≠ [] → b ≠ [] →
  transcript os (a ++ b) = transcript os a +:+ EOL os +:+ transcript os b.
Proof.
  intros Ha Hb. unfold transcript. rewrite map_app.
  apply join_app; by destruct a, b.
Qed.

(** Pushing a message onto a history that is not empty extends the
    transcript by a line separator and the text of that message: saving after
    a further exchange rewrites the file with the former content as a
    prefix. *)
Lemma transcript_push (os : Platform) (a : list Message) (msg : Message) :
  a ≠ [] →
  transcript os (push a msg) = transcript os a +:+ EOL os +:+ renderMessage os msg.
Proof. intros Ha. unfold push. by rewrite transcript_app. Qed.

Lemma transcript_nil_iff (os : Platform) (a : list Message) :
  transcript os a = "" ↔ a = [].
Proof.
  split; [|by intros ->].
  destruct a as [|m [|m' a]]; [done| |].
  - rewrite transcript_singleton. by intros ?%renderMessage_nonempty.
  - unfold transcript. simpl map. rewrite join_cons.
    by intros [?%renderMessage_nonempty _]%str_app_eq_nil.
Qed.

#[export] Hint Rewrite transcript_nil transcript_singleton : jsstr.

(** ** Two histories, one transcript *)

(** The message [m] with the text of [next] as a further line of its
    content. *)
Definition absorb (os : Platform) (m next : Message) : Message :=
  {| role := role m; content := content m +:+ EOL os +:+ renderMessage os next |}.

Lemma renderMessage_absorb (os : Platform) (m next : Message) :
  renderMessage os (absorb os m next) =
  msgSourceIndicator m +:+ EOL os +:+ content m +:+ EOL os +:+ renderMessage os next.
Proof.
  rewrite renderMessage_multi_line; [done|]. simpl.
  apply includes_app_r, includes_app_l, includes_self.
Qed.

Lemma transcript_snoc2 (os : Platform) (h : list Message) (m next : Message) :
  transcript os (h ++ [m; next]) =
  transcript os (h ++ [m]) +:+ EOL os +:+ renderMessage os next.
Proof.
  change [m; next] with ([m] ++ [next]).
  rewrite (assoc_L (++)), transcript_app by (done || by destruct h). done.
Qed.

(** The transcript of a history with one more message: what comes before the
    text of that message does not depend on it. *)
Lemma transcript_snoc (os : Platform) (h : list Message) :
  ∃ before, ∀ m, transcript os (h ++ [m]) = before +:+ renderMessage os m.
Proof.
  destruct h as [|m0 h]; [by exists ""|].
  exists (transcript os (m0 :: h) +:+ EOL os). intros m.
  by rewrite transcript_app, transcript_singleton, str_app_assoc.
Qed.

(** C33: The transcript does not determine the history, and line 43 is
    why it does so only for contents of several lines.  Take any history
    that ends with a message [m], whatever the platform, and any message
    [next]: the history in which [next] is a message of its own and the
    history in which its text is a further line of the content of [m]
    differ, and they have the same transcript exactly when the content of
    [m] holds a line separator.  A content of one line is kept apart by the
    separator that is written after the indicator of a content of several
    lines; a content of several lines is not. *)
Theorem transcript_not_injective (os : Platform) (h : list Message) (m next : Message) :
  (transcript os (h ++ [absorb os m next]) = transcript os (h ++ [m; next]) ↔
   includes (content m) (EOL os) = true) ∧
  h ++ [absorb os m next] ≠ h ++ [m; next].
Proof.
  destruct (transcript_snoc os h) as [before Hb]. split; [|intros Heq].
  - rewrite transcript_snoc2, !Hb, renderMessage_absorb. split.
    + destruct (includes (content m) (EOL os)) eqn:Hm; [done|].
      rewrite (renderMessage_single_line os m) by done.
      intros Heq%(f_equal String.length). rewrite !str_length_app in Heq.
      pose proof (EOL_length os). lia.
    + intros Hm. rewrite (renderMessage_multi_line os m) by done.
      by rewrite !str_app_assoc.
  - apply (f_equal length) in Heq. rewrite !length_app in Heq. simpl in Heq. lia.
Qed.

(** An instance: a prompt of three lines whose last line looks like an
    answer is saved as the text of a prompt of two lines and its answer. *)
Example transcript_same_text :
  transcript POSIX [userMessage ("a" +:+ LF +:+ "q" +:+ LF +:+ "<< z")] =
  transcript POSIX [userMessage ("a" +:+ LF +:+ "q"); mkMessage "assistant" "z"].
Proof. by vm_compute. Qed.

(** ** Alternation *)

Lemma alternates_app (b : bool) (l1 l2 : list Message) :
  alternates b (l1 ++ l2) =
  alternates b l1 && alternates (if Nat.even (length l1) then b else negb b) l2.
Proof.
  revert b. induction l1 as [|m l1 IH]; intros b; simpl; [done|].
  rewrite IH, <- andb_assoc. f_equal. f_equal.
  destruct (length l1) as [|n]; [by destruct b|].
  destruct (Nat.even n) eqn:Hn, (Nat.even (S n)) eqn:Hn', b; try done;
    rewrite Nat.even_succ, <- Nat.negb_even, Hn in Hn'; done.
Qed.

(** A history in which the roles do not alternate is not repaired by
    further messages. *)
Lemma alternates_prefix (b : bool) (h h' : list Message) :
  alternates b h = false → h `prefix_of` h' → alternates b h' = false.
Proof. intros Ha [k ->]. by rewrite alternates_app, Ha. Qed.

#[global] Arguments renderMessage : simpl never.
#[global] Arguments transcript : simpl never.
#[global] Arguments EOL : simpl never.
