(* ===== verification/Transcript.v ===== *)
(** * Reading a transcript back

    The program only writes transcripts ([_transcript], lines 39-46 of
    [src/index.js]); nothing reads them.  This file gives a reader as a
    reference: it cuts the text at the line separators and reads the
    indicator of each line.  The round trip holds for the histories in which
    no content holds a line separator; [Message.transcript_not_injective]
    shows that it cannot hold for all. *)

From Stdlib Require Import Ascii.
From S2P Require Import Prelude JsString Message.

(** ** Cutting a text at a separator *)

(** The pieces of [s] between the occurrences of [sep], read from the left;
    [cur] is the piece being read and [skip] the number of code units of a
    separator still to pass. *)
Fixpoint splitOn (sep : string) (skip : nat) (cur s : string) : list string :=
  match s with
  | EmptyString => [cur]
  | String c r =>
      match skip with
      | S k => splitOn sep k cur r
      | 0 =>
          if startsWith s sep
          then cur :: splitOn sep (String.length sep - 1) EmptyString r
          else splitOn sep 0 (cur +:+ String c EmptyString) r
      end
  end.

(** [String.prototype.split] with a separator that is not empty. *)
Definition split (sep s : string) : list string := splitOn sep 0 EmptyString s.

(** No occurrence of [sep] in [x +:+ tail] starts inside [x]. *)
Fixpoint clear (sep x tail : string) : bool :=
  match x with
  | EmptyString => true
  | String _ x' => negb (startsWith (x +:+ tail) sep) && clear sep x' tail
  end.

(** ** Reading *)

(** One line of a transcript: its indicator gives the role, the rest is the
    content. *)
Definition readBlock (line : string) : option Message :=
  if startsWith line ">> " then Some (mkMessage "user" (substring 3 line))
  else if startsWith line "<< " then Some (mkMessage "assistant" (substring 3 line))
  else None.

(** A transcript, read back. *)
Definition parseTranscript (os : Platform) (text : string) : option (list Message) :=
  if decide (text = EmptyString) then Some []
  else mapM readBlock (split (EOL os) text).

(** A message that one line of a transcript holds: a role the reader knows,
    and a content without line separator. *)
Definition singleLine (os : Platform) (msg : Message) : Prop :=
  (role msg = "user" ∨ role msg = "assistant") ∧
  includes (content msg) (EOL os) = false.

(** ** Cutting *)

Lemma splitOn_skip (sep a cur rest : string) :
  splitOn sep (String.length a) cur (a +:+ rest) = splitOn sep 0 cur rest.
Proof. induction a as [|c a IH]; [by destruct rest|]. by rewrite str_app_cons. Qed.

Lemma splitOn_sep (sep cur rest : string) :
  sep ≠ EmptyString →
  splitOn sep 0 cur (sep +:+ rest) = cur :: splitOn sep 0 EmptyString rest.
Proof.
  destruct sep as [|c sep]; [done|]. intros _.
  rewrite str_app_cons. cbn [splitOn]. rewrite <- str_app_cons, startsWith_app.
  cbn [String.length]. by rewrite Nat.sub_succ, Nat.sub_0_r, splitOn_skip.
Qed.

Lemma splitOn_clear (sep x tail cur : string) :
  clear sep x tail = true →
  splitOn sep 0 cur (x +:+ tail) = splitOn sep 0 (cur +:+ x) tail.
Proof.
  revert cur. induction x as [|c x IH]; intros cur; simpl.
  - by rewrite str_app_nil_r.
  - intros [Hc Hx]%andb_prop. apply negb_true_iff in Hc.
    rewrite str_app_cons in *. cbn [splitOn]. rewrite Hc, IH by done.
    by rewrite str_app_assoc.
Qed.

(** The text of several pieces, cut at the separator, gives the pieces,
    when no other occurrence of the separator starts inside a piece. *)
Lemma split_join (sep : string) (pieces : list string) :
  sep ≠ EmptyString → pieces ≠ [] →
  (∀ x tail, x ∈ pieces → tail = EmptyString ∨ startsWith tail sep = true →
             clear sep x tail = true) →
  split sep (join sep pieces) = pieces.
Proof.
  intros Hsep Hne Hclear. unfold split.
  induction pieces as [|x [|y rest] IH]; [done| |].
  - rewrite join_singleton, <- (str_app_nil_r x) at 1.
    rewrite splitOn_clear by (apply Hclear; [constructor|by left]). by destruct x.
  - rewrite join_cons, splitOn_clear
      by (apply Hclear; [constructor|right; apply startsWith_app]).
    rewrite splitOn_sep by done. simpl. f_equal.
    apply IH; [done|]. intros ????. apply Hclear; [by constructor|done].
Qed.

(** ** Lines of a transcript *)

(** A content without line separator stays clear of it when a line
    separator, or nothing, follows. *)
Lemma clear_EOL (os : Platform) (x tail : string) :
  includes x (EOL os) = false →
  tail = EmptyString ∨ startsWith tail (EOL os) = true →
  clear (EOL os) x tail = true.
Proof.
  intros Hx Htail. induction x as [|c x IH]; [done|].
  rewrite includes_unfold in Hx. apply orb_false_elim in Hx as [Hc Hx].
  simpl. rewrite (IH Hx), andb_true_r. apply negb_true_iff.
  rewrite str_app_cons. destruct os; unfold EOL, LF, CRLF in *.
  - by rewrite startsWith_cons, startsWith_nil in *.
  - rewrite startsWith_cons in *. destruct (bool_decide (c = _)); [simpl in *|done].
    destruct x as [|d x]; [|by rewrite str_app_cons, startsWith_cons, startsWith_nil in *].
    destruct Htail as [->|Ht]; [done|].
    destruct tail as [|e tail]; [done|]. rewrite str_app_nil_l.
    rewrite !startsWith_cons in *. by repeat case_bool_decide; simplify_eq.
Qed.

Lemma clear_renderMessage (os : Platform) (msg : Message) (tail : string) :
  includes (content msg) (EOL os) = false →
  tail = EmptyString ∨ startsWith tail (EOL os) = true →
  clear (EOL os) (renderMessage os msg) tail = true.
Proof.
  intros Hc Htail. rewrite renderMessage_single_line by done.
  pose proof (clear_EOL os (content msg) tail Hc Htail) as Hclear.
  unfold msgSourceIndicator.
  by case_decide; destruct os; simpl; rewrite str_app_nil_l.
Qed.

Lemma readBlock_renderMessage (os : Platform) (msg : Message) :
  singleLine os msg → readBlock (renderMessage os msg) = Some msg.
Proof.
  intros [Hrole Hc]. rewrite renderMessage_single_line by done.
  destruct msg as [r c]. unfold msgSourceIndicator, readBlock. simpl in *.
  destruct Hrole as [-> | ->]; simpl.
  - by rewrite startsWith_app.
  - by rewrite (startsWith_app "<< " c).
Qed.

(** C32: A transcript reads back as the history it was written from, when
    every message has the role [user] or [assistant] and a content without
    line separator: the text has then one line per message, each with the
    indicator of its role, in the order of the history. *)
Theorem transcript_roundtrip (os : Platform) (messages : list Message) :
  Forall (singleLine os) messages →
  parseTranscript os (transcript os messages) = Some messages ∧
  length (split (EOL os) (transcript os messages)) = length messages `max` 1.
Proof.
  intros Hall. unfold parseTranscript. case_decide as Hnil.
  { apply transcript_nil_iff in Hnil as ->. done. }
  assert (messages ≠ []) as Hne by (by intros ->).
  unfold transcript. rewrite split_join.
  - split; [by apply mapM_fmap_Forall_Some, (Forall_impl _ _ _ Hall),
              readBlock_renderMessage|].
    rewrite length_map. destruct messages; [done|simpl; lia].
  - apply EOL_nonempty.
  - by destruct messages.
  - intros x tail (msg & -> & Hin)%list_elem_of_fmap Htail.
    apply clear_renderMessage; [|done].
    by apply (proj1 (Forall_forall _ _) Hall msg Hin).
Qed.

Lemma transcript_roundtrip_witness :
  parseTranscript Windows
    (transcript Windows [userMessage "hi"; mkMessage "assistant" "hello"]) =
  Some [userMessage "hi"; mkMessage "assistant" "hello"] ∧
  length (split (EOL Windows)
            (transcript Windows [userMessage "hi"; mkMessage "assistant" "hello"])) =
  2 `max` 1.
Proof.
  apply (transcript_roundtrip Windows [userMessage "hi"; mkMessage "assistant" "hello"]).
  repeat constructor; by vm_compute.
Defined.

#[global] Arguments split : simpl never.
#[global] Arguments parseTranscript : simpl never.
