(* ===== verification/Json.v ===== *)
(** * [JSON.stringify] on messages

    With [DEBUG] set, [handlePrompt] prints [JSON.stringify(userMessage)] and
    [JSON.stringify(answer)] (lines 85-87 and 94-96 of [src/index.js]).  This
    file models the serialisation of a string (ECMAScript's QuoteJSONString
    on code units below 256) and of a message object, gives a decoder as a
    reference, and proves that decoding inverts encoding, so that the debug
    line determines the message. *)

From Stdlib Require Import Ascii.
From S2P Require Import Prelude JsString Message.

(** ** Encoding *)

Definition DQUOTE : string := String "034" "".

(** A hexadecimal digit, lower case. *)
Definition hexDigit (n : nat) : ascii :=
  match n with
  | 0 => "0" | 1 => "1" | 2 => "2" | 3 => "3" | 4 => "4" | 5 => "5" | 6 => "6"
  | 7 => "7" | 8 => "8" | 9 => "9" | 10 => "a" | 11 => "b" | 12 => "c"
  | 13 => "d" | 14 => "e" | _ => "f"
  end%char.

(** The control characters: the code units below 0x20. *)
Definition isControl (c : ascii) : bool := nat_of_ascii c <? 32.

(** The escape of one code unit: the two-character escapes, [\u00XX] for the
    other control characters, the code unit itself otherwise. *)
Definition escapeChar (c : ascii) : string :=
  match c with
  | "008"%char => "\b"
  | "009"%char => "\t"
  | "010"%char => "\n"
  | "012"%char => "\f"
  | "013"%char => "\r"
  | "034"%char => String "\" DQUOTE
  | "\"%char => "\\"
  | _ =>
      let n := nat_of_ascii c in
      if isControl c
      then "\u00" +:+ String (hexDigit (n / 16)) (String (hexDigit (n mod 16)) "")
      else String c ""
  end.

Fixpoint escape (s : string) : string :=
  match s with
  | "" => ""
  | String c s' => escapeChar c +:+ escape s'
  end.

(** [JSON.stringify(s)] for a string [s]. *)
Definition stringifyString (s : string) : string :=
  DQUOTE +:+ escape s +:+ DQUOTE.

(** [JSON.stringify(msg)] for a message object with the properties [role]
    and [content], in that order. *)
Definition stringifyMessage (msg : Message) : string :=
  "{" +:+ stringifyString "role" +:+ ":" +:+ stringifyString (role msg) +:+
  "," +:+ stringifyString "content" +:+ ":" +:+ stringifyString (content msg) +:+
  "}".

(** ** Decoding (reference) *)

(** The value of a hexadecimal digit: the inverse of [hexDigit]. *)
Definition hexValue (c : ascii) : option nat :=
  fst <$> list_find (λ n, hexDigit n = c) (seq 0 16).

(** The body of a JSON string literal, read back: [None] on a raw control
    character, a raw quote or a malformed escape. *)
Fixpoint unescape (s : string) : option string :=
  match s with
  | EmptyString => Some EmptyString
  | String "\" (String "b" r) => String "008" <$> unescape r
  | String "\" (String "t" r) => String "009" <$> unescape r
  | String "\" (String "n" r) => String "010" <$> unescape r
  | String "\" (String "f" r) => String "012" <$> unescape r
  | String "\" (String "r" r) => String "013" <$> unescape r
  | String "\" (String "034" r) => String "034" <$> unescape r
  | String "\" (String "\" r) => String "\" <$> unescape r
  | String "\" (String "u" (String "0" (String "0" (String h (String l r))))) =>
      match hexValue h, hexValue l with
      | Some a, Some b => String (ascii_of_nat (16 * a + b)) <$> unescape r
      | _, _ => None
      end
  | String "\" _ => None
  | String c r =>
      if isControl c || bool_decide (c = "034") then None
      else String c <$> unescape r
  end%char.

(** The body of a string literal at the head of a text, up to its closing
    quote, and the text after that quote. *)
Fixpoint readBody (s : string) : option (string * string) :=
  match s with
  | EmptyString => None
  | String "034" r => Some (EmptyString, r)
  | String "\" (String c r) =>
      prod_map (λ b, String "\" (String c b)) id <$> readBody r
  | String c r => prod_map (String c) id <$> readBody r
  end%char.

(** A string literal at the head of a text, read back, and the text after
    it. *)
Definition readString (s : string) : option (string * string) :=
  match s with
  | String "034"%char r =>
      '(body, rest) ← readBody r; v ← unescape body; Some (v, rest)
  | _ => None
  end.

(** A JSON string literal, read back. *)
Definition parseString (s : string) : option string :=
  '(v, rest) ← readString s;
  if decide (rest = EmptyString) then Some v else None.

(** The text after a given prefix. *)
Definition expect (p s : string) : option string :=
  if startsWith s p then Some (substring (String.length p) s) else None.

(** The serialisation of a message, read back. *)
Definition parseMessage (s : string) : option Message :=
  s ← expect "{" s; '(k1, s) ← readString s; s ← expect ":" s;
  '(r, s) ← readString s; s ← expect "," s;
  '(k2, s) ← readString s; s ← expect ":" s;
  '(c, s) ← readString s; s ← expect "}" s;
  if decide (k1 = "role" ∧ k2 = "content" ∧ s = EmptyString)
  then Some (mkMessage r c) else None.

#[global] Arguments stringifyString : simpl never.
#[global] Arguments stringifyMessage : simpl never.

(** ** Round trip *)

Lemma unescape_escapeChar (c : ascii) (t : string) :
  unescape (escapeChar c +:+ t) = String c <$> unescape t.
Proof. by destruct c as [[] [] [] [] [] [] [] []]. Qed.

Lemma unescape_escape (s : string) : unescape (escape s) = Some s.
Proof.
  induction s as [|c s IH]; [done|]. simpl.
  by rewrite unescape_escapeChar, IH.
Qed.

Lemma escape_inj (s t : string) : escape s = escape t → s = t.
Proof.
  intros H. apply (f_equal unescape) in H.
  rewrite !unescape_escape in H. by injection H.
Qed.

Lemma escape_app (s t : string) : escape (s +:+ t) = escape s +:+ escape t.
Proof.
  induction s as [|c s IH]; [done|].
  rewrite str_app_cons. simpl. by rewrite IH, str_app_assoc.
Qed.

Lemma escapeChar_nonempty (c : ascii) : escapeChar c ≠ "".
Proof. by destruct c as [[] [] [] [] [] [] [] []]. Qed.

Lemma readBody_escapeChar (c : ascii) (t : string) :
  readBody (escapeChar c +:+ t) = prod_map (String.app (escapeChar c)) id <$> readBody t.
Proof.
  destruct c as [[] [] [] [] [] [] [] []];
    lazymatch goal with
    | |- context [escapeChar ?c] =>
        let e := eval vm_compute in (escapeChar c) in change (escapeChar c) with e
    end;
    rewrite ?str_app_cons, ?str_app_nil_l; simpl;
    by destruct (readBody t) as [[]|].
Qed.

Lemma readBody_escape (s rest : string) :
  readBody (escape s +:+ DQUOTE +:+ rest) = Some (escape s, rest).
Proof.
  induction s as [|c s IH]; [done|]. simpl.
  by rewrite str_app_assoc, readBody_escapeChar, IH.
Qed.

Lemma readString_stringifyString (s rest : string) :
  readString (stringifyString s +:+ rest) = Some (s, rest).
Proof.
  unfold stringifyString, readString, DQUOTE.
  rewrite !str_app_assoc, str_app_cons, str_app_nil_l. fold DQUOTE.
  rewrite readBody_escape. simpl. by rewrite unescape_escape.
Qed.

Lemma expect_app (p s : string) : expect p (p +:+ s) = Some s.
Proof. unfold expect. by rewrite startsWith_app, substring_app_length. Qed.

(** A string literal written by [JSON.stringify] reads back as the
    string: the debug line of a message loses nothing of its text, whatever
    quotes, backslashes or control characters it holds. *)
Lemma stringifyString_roundtrip (s : string) :
  parseString (stringifyString s) = Some s.
Proof.
  unfold parseString.
  by rewrite <- (str_app_nil_r (stringifyString s)), readString_stringifyString.
Qed.

(** C36: The serialisation of a message reads back as the message, so two
    messages with the same debug line are the same message. *)
Theorem stringifyMessage_roundtrip (msg : Message) :
  parseMessage (stringifyMessage msg) = Some msg ∧
  ∀ msg', stringifyMessage msg' = stringifyMessage msg → msg' = msg.
Proof.
  assert (∀ m, parseMessage (stringifyMessage m) = Some m) as Hparse.
  { intros [r c]. unfold parseMessage, stringifyMessage. cbn [role content].
    repeat (rewrite ?expect_app, ?readString_stringifyString; cbn -[readString expect]).
    rewrite <- (str_app_nil_r "}"), expect_app. cbn. by rewrite decide_True. }
  split; [done|]. intros msg' Heq.
  apply (f_equal parseMessage) in Heq. rewrite !Hparse in Heq. by injection Heq.
Qed.

(** No raw quote and no raw control character survives in an escape. *)
Definition plainChar (c : ascii) : bool :=
  negb (isControl c) && negb (bool_decide (c = "034"%char)).

Fixpoint wellEscaped (s : string) : bool :=
  match s with
  | EmptyString => true
  | String "\" (String _ r) => wellEscaped r
  | String c r => plainChar c && wellEscaped r
  end%char.

Lemma wellEscaped_escapeChar (c : ascii) (t : string) :
  wellEscaped (escapeChar c +:+ t) = wellEscaped t.
Proof. by destruct c as [[] [] [] [] [] [] [] []]. Qed.

Lemma wellEscaped_escape (s : string) : wellEscaped (escape s) = true.
Proof.
  induction s as [|c s IH]; [done|]. simpl. by rewrite wellEscaped_escapeChar.
Qed.
