(* ===== verification/Runtime.v ===== *)
(** * The runtime the script runs in

    What [src/index.js] takes from Node.js and from the [openai] package,
    as far as the script can observe it:
    - the values it can catch ([JsError]), with the shape an HTTP failure of
      the remote service has ([err.response], lines 106-109);
    - the request and the response of [createChatCompletion] (lines 54-62);
    - two interfaces, as type classes: [FileSystem] (what [fs.writeFile]
      promises) and [RemoteApi] (the remote service, which promises nothing
      beyond the shape of its answers);
    - the state of the process ([World]): platform, environment, arguments,
      the lines still to come on standard input and what a question gets
      after the last of them ([closed]), the file system, the state
      of the remote service, and the [trace] of everything the process has
      done that is visible from outside, in order;
    - a state-and-exception monad [M] for JavaScript's sequencing, [throw]
      and [try]/[catch], with the operations of [console], [fs] and
      [readline] in it. *)

From S2P Require Import Prelude JsString Message.

(** ** Errors *)

(** [err.response.data.error], [err.response.data] and [err.response]:
    every level may be absent. *)
Record ErrorBody := { error_message : option string }.
Record ResponseData := { data_error : option ErrorBody }.
Record HttpResponse :=
  { status : nat; statusText : string; data : option ResponseData }.

(** The values the script can catch. *)
Inductive JsError :=
| Error (message : string)
| TypeError (message : string)
| SystemError (code path : string)
| RequestError (message : string) (response : option HttpResponse).

#[export] Instance ErrorBody_eq_dec : EqDecision ErrorBody.
Proof. solve_decision. Defined.
#[export] Instance ResponseData_eq_dec : EqDecision ResponseData.
Proof. solve_decision. Defined.
#[export] Instance HttpResponse_eq_dec : EqDecision HttpResponse.
Proof. solve_decision. Defined.
#[export] Instance JsError_eq_dec : EqDecision JsError.
Proof. solve_decision. Defined.

(** [err.response]. *)
Definition response (err : JsError) : option HttpResponse :=
  match err with
  | RequestError _ r => r
  | _ => None
  end.

(** ** The remote service *)

Record CreateChatCompletionRequest :=
  { req_model : string; req_messages : list Message }.
Record Choice := { choice_message : Message }.
Record CreateChatCompletionResponse := { choices : list Choice }.

#[export] Instance CreateChatCompletionRequest_eq_dec : EqDecision CreateChatCompletionRequest.
Proof. solve_decision. Defined.
#[export] Instance Choice_eq_dec : EqDecision Choice.
Proof. solve_decision. Defined.
#[export] Instance CreateChatCompletionResponse_eq_dec : EqDecision CreateChatCompletionResponse.
Proof. solve_decision. Defined.

(** The result of a call: the [data] of the response, or the error thrown. *)
Definition ApiResult : Type := JsError + CreateChatCompletionResponse.

(** The remote service as the client sees it: a state of its own, and an
    answer to every request.  Nothing is assumed of the answers. *)
Class RemoteApi (R : Type) := {
  createChatCompletion :
    string → CreateChatCompletionRequest → R → ApiResult * R
}.

(** ** The file system *)

(** [fs.writeFile(file, data)] either fails with an error or succeeds; after
    a success the file holds exactly [data]; other files are never touched. *)
Class FileSystem (F : Type) := {
  writeFile : string → string → F → option JsError * F;
  readFile : string → F → option string;
  writeFile_read file data fs fs' :
    writeFile file data fs = (None, fs') → readFile file fs' = Some data;
  writeFile_other file data fs file' :
    file' ≠ file → readFile file' (writeFile file data fs).2 = readFile file' fs
}.

(** ** The process *)

(** [process.env], as far as the script reads it. *)
Record Env := {
  OPENAI_API_KEY : option string;
  CHAT_OPENAI_MODEL : option string;
  DEBUG : option string
}.

(** What the process does that is visible from outside. *)
Inductive Event :=
| ConsoleLog (line : string)
| ConsoleError (line : string)
| ConsoleErrorObject (err : JsError)
| Question (query : string)
| Input (line : string)
| WriteFile (file data : string)
| Request (apiKey : string) (req : CreateChatCompletionRequest).

#[local] Set Primitive Projections.
Record World {F R : Type} := mkWorld {
  os : Platform;
  env : Env;
  argv : list string;
  stdin : list string;
  closed : option JsError;
  fs : F;
  remote : R;
  trace : list Event
}.
#[local] Unset Primitive Projections.
Arguments World : clear implicits.
Arguments mkWorld {F R}.

(** ** Completions and the monad *)

(** How a computation ends: normally with a value, or by throwing. *)
Inductive Completion (A : Type) :=
| Normal (a : A)
| Throw (err : JsError).
Arguments Normal {A}.
Arguments Throw {A}.

(** A computation over a state [S]: the state it leaves is kept on both
    kinds of completion, as a mutation made before a [throw] is. *)
Definition M (S A : Type) : Type := S → Completion A * S.

#[export] Instance M_ret {S} : MRet (M S) := λ A a s, (Normal a, s).

#[export] Instance M_bind {S} : MBind (M S) := λ A B f c s,
  match c s with
  | (Normal a, s') => f a s'
  | (Throw e, s') => (Throw e, s')
  end.

Definition throw {S A} (err : JsError) : M S A := λ s, (Throw err, s).

(** [try { c } catch (err) { h err }]. *)
Definition tryCatch {S A} (c : M S A) (h : JsError → M S A) : M S A := λ s,
  match c s with
  | (Normal a, s') => (Normal a, s')
  | (Throw e, s') => h e s'
  end.

Definition gets {S A} (f : S → A) : M S A := λ s, (Normal (f s), s).

Definition modify {S} (f : S → S) : M S unit := λ s, (Normal tt, f s).

Definition isNormal {A} (c : Completion A) : bool :=
  match c with
  | Normal _ => true
  | Throw _ => false
  end.

(** ** Operations on the world *)

Section world.
Context {F R : Type} `{!FileSystem F, !RemoteApi R}.

Local Abbreviation W := (World F R).

Definition set_trace (t : list Event) (w : W) : W :=
  mkWorld (os w) (env w) (argv w) (stdin w) (closed w) (fs w) (remote w) t.
Definition set_stdin (i : list string) (w : W) : W :=
  mkWorld (os w) (env w) (argv w) i (closed w) (fs w) (remote w) (trace w).
Definition set_fs (f : F) (w : W) : W :=
  mkWorld (os w) (env w) (argv w) (stdin w) (closed w) f (remote w) (trace w).
Definition set_remote (r : R) (w : W) : W :=
  mkWorld (os w) (env w) (argv w) (stdin w) (closed w) (fs w) r (trace w).

(** Append an event to the trace. *)
Definition emit (e : Event) : M W unit :=
  modify (λ w, set_trace (trace w ++ [e]) w).

(** [console.log(line)]. *)
Definition console_log (line : string) : M W unit := emit (ConsoleLog line).

(** [console.error(line)] on a string, and on an error object. *)
Definition console_error (line : string) : M W unit := emit (ConsoleError line).
Definition console_error_object (err : JsError) : M W unit :=
  emit (ConsoleErrorObject err).

(** [await fs.writeFile(file, data)]. *)
Definition fs_writeFile (file data : string) : M W unit := λ w,
  let '(r, f) := writeFile file data (fs w) in
  let w' := set_trace (trace w ++ [WriteFile file data]) (set_fs f w) in
  match r with
  | None => (Normal tt, w')
  | Some err => (Throw err, w')
  end.

(** [await openai.createChatCompletion(req)], giving [data]. *)
Definition openai_createChatCompletion (apiKey : string)
    (req : CreateChatCompletionRequest) : M W CreateChatCompletionResponse :=
  λ w,
  let '(r, s) := createChatCompletion apiKey req (remote w) in
  let w' := set_trace (trace w ++ [Request apiKey req]) (set_remote s w) in
  match r with
  | inr d => (Normal d, w')
  | inl err => (Throw err, w')
  end.

(** [await new Promise((resolve) => rl.question(query, resolve))]: the query
    is written and the promise resolves with the next line of standard
    input.  When there is none, the promise stays pending ([None]) as long
    as the interface is open; on an interface that is closed [rl.question]
    throws inside the executor, and the promise is rejected. *)
Definition rl_question (query : string) : M W (option string) := λ w,
  let w' := set_trace (trace w ++ [Question query]) w in
  match stdin w with
  | [] =>
      match closed w with
      | None => (Normal None, w')
      | Some err => (Throw err, w)
      end
  | line :: rest =>
      (Normal (Some line), set_trace (trace w' ++ [Input line]) (set_stdin rest w'))
  end.

End world.

(** ** Reading a trace *)

(** The lines written to standard output, in order. *)
Definition stdoutLines (t : list Event) : list string :=
  omap (λ e, match e with ConsoleLog l => Some l | _ => None end) t.

(** The requests sent to the remote service, in order. *)
Definition requests (t : list Event) : list CreateChatCompletionRequest :=
  omap (λ e, match e with Request _ r => Some r | _ => None end) t.

(** ** Laws of the monad *)

Section laws.
Context {S : Type}.

Lemma bind_ret_l {A B} (a : A) (f : A → M S B) (s : S) :
  (mret a ≫= f) s = f a s.
Proof. done. Qed.

Lemma bind_ret_r {A} (c : M S A) (s : S) : (c ≫= mret) s = c s.
Proof. unfold mbind, M_bind. by destruct (c s) as [[a|e] s']. Qed.

Lemma bind_assoc {A B C} (c : M S A) (f : A → M S B) (g : B → M S C) (s : S) :
  ((c ≫= f) ≫= g) s = (c ≫= (λ a, f a ≫= g)) s.
Proof. unfold mbind, M_bind. by destruct (c s) as [[a|e] s']. Qed.

Lemma bind_throw {A B} (e : JsError) (f : A → M S B) (s : S) :
  (throw e ≫= f) s = (Throw e, s).
Proof. done. Qed.

Lemma bind_normal {A B} (c : M S A) (f : A → M S B) (s s' : S) (a : A) :
  c s = (Normal a, s') → (c ≫= f) s = f a s'.
Proof. unfold mbind, M_bind. by intros ->. Qed.

Lemma bind_thrown {A B} (c : M S A) (f : A → M S B) (s s' : S) (e : JsError) :
  c s = (Throw e, s') → (c ≫= f) s = (Throw e, s').
Proof. unfold mbind, M_bind. by intros ->. Qed.

Lemma tryCatch_normal {A} (c : M S A) (h : JsError → M S A) (s s' : S) (a : A) :
  c s = (Normal a, s') → tryCatch c h s = (Normal a, s').
Proof. unfold tryCatch. by intros ->. Qed.

Lemma tryCatch_thrown {A} (c : M S A) (h : JsError → M S A) (s s' : S) (e : JsError) :
  c s = (Throw e, s') → tryCatch c h s = h e s'.
Proof. unfold tryCatch. by intros ->. Qed.

(** A [try] whose handler never throws never throws. *)
Lemma tryCatch_total {A} (c : M S A) (h : JsError → M S A) (s : S) :
  (∀ e s', isNormal (h e s').1 = true) → isNormal (tryCatch c h s).1 = true.
Proof. intros Hh. unfold tryCatch. destruct (c s) as [[a|e] s']; [done|apply Hh]. Qed.

End laws.

(** ** Relations between the state before and the state after

    [preserves P c]: whatever the state [s] it starts from and however it
    completes, [c] leaves a state related to [s] by [P].  For a preorder [P]
    the property is compositional: it is proved once for each primitive and
    then follows the structure of the program. *)

Definition preserves {S A} (P : relation S) (c : M S A) : Prop :=
  ∀ s, P s (c s).2.

Section preserves.
Context {S : Type} (P : relation S) `{!PreOrder P}.

Lemma preserves_ret {A} (a : A) : preserves P (mret a).
Proof. intros s. simpl. reflexivity. Qed.

Lemma preserves_throw {A} (e : JsError) : preserves P (throw (A:=A) e).
Proof. intros s. simpl. reflexivity. Qed.

Lemma preserves_gets {A} (f : S → A) : preserves P (gets f).
Proof. intros s. simpl. reflexivity. Qed.

Lemma preserves_modify (f : S → S) : (∀ s, P s (f s)) → preserves P (modify f).
Proof. intros Hf s. apply Hf. Qed.

Lemma preserves_bind {A B} (c : M S A) (f : A → M S B) :
  preserves P c → (∀ a, preserves P (f a)) → preserves P (c ≫= f).
Proof.
  intros Hc Hf s. specialize (Hc s). unfold mbind, M_bind.
  destruct (c s) as [[a|e] s']; simpl in *; [|done].
  etrans; [exact Hc|apply Hf].
Qed.

Lemma preserves_tryCatch {A} (c : M S A) (h : JsError → M S A) :
  preserves P c → (∀ e, preserves P (h e)) → preserves P (tryCatch c h).
Proof.
  intros Hc Hh s. specialize (Hc s). unfold tryCatch.
  destruct (c s) as [[a|e] s']; simpl in *; [done|].
  etrans; [exact Hc|apply Hh].
Qed.

Lemma preserves_if {A} (b : bool) (c d : M S A) :
  preserves P c → preserves P d → preserves P (if b then c else d).
Proof. by destruct b. Qed.

End preserves.

Lemma preserves_and {S A} (P Q : relation S) (c : M S A) :
  preserves P c → preserves Q c → preserves (λ s s', P s s' ∧ Q s s') c.
Proof. intros HP HQ s. split; [apply HP|apply HQ]. Qed.

Lemma preserves_weaken {S A} (P Q : relation S) (c : M S A) :
  (∀ s s', P s s' → Q s s') → preserves P c → preserves Q c.
Proof. intros HPQ HP s. apply HPQ, HP. Qed.

#[export] Hint Resolve preserves_ret preserves_throw preserves_gets
  preserves_bind preserves_tryCatch preserves_if : chat.

(** ** Computations that never throw *)

Definition total {S A} (c : M S A) : Prop := ∀ s, isNormal (c s).1 = true.

Lemma total_ret {S A} (a : A) : total (S:=S) (mret a).
Proof. done. Qed.

Lemma total_gets {S A} (f : S → A) : total (gets f).
Proof. done. Qed.

Lemma total_modify {S} (f : S → S) : total (modify f).
Proof. done. Qed.

Lemma total_bind {S A B} (c : M S A) (f : A → M S B) :
  total c → (∀ a, total (f a)) → total (c ≫= f).
Proof.
  intros Hc Hf s. specialize (Hc s). unfold mbind, M_bind.
  destruct (c s) as [[a|e] s']; [apply Hf|done].
Qed.

Lemma total_tryCatch {S A} (c : M S A) (h : JsError → M S A) :
  (∀ e, total (h e)) → total (tryCatch c h).
Proof. intros Hh s. apply tryCatch_total. intros e s'. apply Hh. Qed.

#[export] Hint Resolve total_ret total_gets total_modify total_bind
  total_tryCatch : chat.

(** ** The primitives on the world *)

(** The world evolves: platform, environment and arguments stay, and so
    does what the end of standard input is; the trace grows at its end;
    standard input is consumed from its front. *)
Record evolves {F R} (w w' : World F R) : Prop := {
  evolves_os : os w' = os w;
  evolves_env : env w' = env w;
  evolves_argv : argv w' = argv w;
  evolves_closed : closed w' = closed w;
  evolves_trace : trace w `prefix_of` trace w';
  evolves_stdin : stdin w' `suffix_of` stdin w
}.

#[export] Instance evolves_preorder {F R} : PreOrder (@evolves F R).
Proof.
  split.
  - by intros w.
  - intros w1 w2 w3 [] []. split; try congruence; by etrans.
Qed.

Section primitives.
Context {F R : Type} `{!FileSystem F, !RemoteApi R}.

Lemma emit_evolves (e : Event) : preserves (@evolves F R) (emit e).
Proof. intros w. split; simpl; try done. by apply prefix_app_r. Qed.

Lemma fs_writeFile_evolves (file data : string) :
  preserves (@evolves F R) (fs_writeFile file data).
Proof.
  intros w. unfold fs_writeFile. destruct (writeFile _ _ _) as [[e|] f];
    (split; simpl; try done; by apply prefix_app_r).
Qed.

Lemma openai_createChatCompletion_evolves key req :
  preserves (@evolves F R) (openai_createChatCompletion key req).
Proof.
  intros w. unfold openai_createChatCompletion.
  destruct (createChatCompletion _ _ _) as [[e|d] r];
    (split; simpl; try done; by apply prefix_app_r).
Qed.

Lemma rl_question_evolves query : preserves (@evolves F R) (rl_question query).
Proof.
  intros w. unfold rl_question.
  destruct (stdin w) as [|l rest] eqn:Hin; [destruct (closed w)|];
    split; simpl; try done; rewrite ?Hin; try done.
  - by apply prefix_app_r.
  - rewrite <- (assoc_L (++)). by apply prefix_app_r.
  - by apply suffix_cons_r.
Qed.

Lemma emit_total (e : Event) : total (emit (F:=F) (R:=R) e).
Proof. done. Qed.

(** A question throws only when the lines are used up and the interface
    is closed, and then leaves the world as it is. *)
Lemma rl_question_throws query (w : World F R) err :
  (rl_question query w).1 = Throw err →
  stdin w = [] ∧ closed w = Some err ∧ (rl_question query w).2 = w.
Proof.
  unfold rl_question. destruct (stdin w); [|done].
  destruct (closed w); [|done]. by intros [= ->].
Qed.

(** Only [rl_question] reads standard input. *)
Lemma emit_stdin (e : Event) (w : World F R) : stdin (emit e w).2 = stdin w.
Proof. done. Qed.

End primitives.

#[export] Hint Resolve emit_evolves fs_writeFile_evolves
  openai_createChatCompletion_evolves rl_question_evolves : chat.
#[export] Hint Resolve emit_total : chat.

(** ** Tactics *)

(** Decompose a goal [preserves P c] along the structure of [c]. *)
Ltac preserves_step :=
  lazymatch goal with
  | |- PreOrder _ => apply _
  | |- ∀ _, _ => intros ?
  | |- preserves _ (match ?x with _ => _ end) => destruct x
  | |- preserves _ _ =>
      first [ apply preserves_ret | apply preserves_throw | apply preserves_gets
            | apply preserves_bind | apply preserves_tryCatch
            | solve [eauto with chat] ]
  end.
Ltac solve_preserves := repeat preserves_step.

(** Decompose a goal [total c] along the structure of [c]. *)
Ltac total_step :=
  lazymatch goal with
  | |- ∀ _, _ => intros ?
  | |- total (match ?x with _ => _ end) => destruct x
  | |- total _ =>
      first [ apply total_ret | apply total_gets | apply total_modify
            | apply total_bind | apply total_tryCatch
            | solve [eauto with chat] ]
  end.
Ltac solve_total := repeat total_step.
