(* ===== verification/Stubs.v ===== *)
(** * Implementations of the two interfaces

    An in-memory file system and three remote services (one that follows a
    script, one that is an arbitrary function of the request, one that
    always answers in the role of the assistant), each an instance of
    the interface the chat session is verified against.  They discharge the
    laws of [FileSystem], and they are the environments in which the
    theorems of the development are applied to concrete runs. *)

From stdpp Require Import gmap.
From S2P Require Import Prelude JsString Message Runtime.

(** ** A file system in memory *)

(** The files by path, and the paths that refuse a write. *)
Record MemFs := mkMemFs { files : gmap string string; readOnly : list string }.

(** A write fails on the empty path and on a read-only path, and leaves the
    files as they are; any other write replaces the content of the file. *)
Definition memWriteFile (file data : string) (m : MemFs) : option JsError * MemFs :=
  if decide (file = "") then (Some (SystemError "ENOENT" file), m)
  else if decide (file ∈ readOnly m) then (Some (SystemError "EACCES" file), m)
  else (None, mkMemFs (<[file := data]> (files m)) (readOnly m)).

Definition memReadFile (file : string) (m : MemFs) : option string :=
  files m !! file.

Lemma memWriteFile_read file data m m' :
  memWriteFile file data m = (None, m') → memReadFile file m' = Some data.
Proof.
  unfold memWriteFile, memReadFile. repeat case_decide; intros [= <-]; simpl.
  apply lookup_insert_eq.
Qed.

Lemma memWriteFile_other file data m file' :
  file' ≠ file →
  memReadFile file' (memWriteFile file data m).2 = memReadFile file' m.
Proof.
  intros Hne. unfold memWriteFile, memReadFile. repeat case_decide; simpl; try done.
  by apply lookup_insert_ne.
Qed.

#[export] Instance MemFs_FileSystem : FileSystem MemFs := {|
  writeFile := memWriteFile;
  readFile := memReadFile;
  writeFile_read := memWriteFile_read;
  writeFile_other := memWriteFile_other
|}.

(** The empty file system. *)
Definition emptyFs : MemFs := mkMemFs ∅ [].

(** ** Remote services *)

(** A scripted service: it gives the results of its script in order, and
    refuses the connection once the script is used up. *)
Definition Script : Type := list ApiResult.

Definition scriptedCall (apiKey : string) (req : CreateChatCompletionRequest)
    (s : Script) : ApiResult * Script :=
  match s with
  | [] => (inl (RequestError "connect ECONNREFUSED" None), [])
  | r :: rest => (r, rest)
  end.

#[export] Instance Script_RemoteApi : RemoteApi Script := {|
  createChatCompletion := scriptedCall
|}.

(** A service that answers every request by a function of it. *)
Record Oracle := mkOracle { answerTo : CreateChatCompletionRequest → ApiResult }.

#[export] Instance Oracle_RemoteApi : RemoteApi Oracle := {|
  createChatCompletion := λ _ req o, (answerTo o req, o)
|}.

(** A successful answer with one choice. *)
Definition reply (msg : Message) : ApiResult :=
  inr {| choices := [{| choice_message := msg |}] |}.

Definition assistant (text : string) : Message :=
  {| role := "assistant"; content := text |}.

(** A service that always answers, in the role of the assistant, with a
    text that is a function of the request. *)
Record Helpful := mkHelpful { textFor : CreateChatCompletionRequest → string }.

#[export] Instance Helpful_RemoteApi : RemoteApi Helpful := {|
  createChatCompletion := λ _ req h, (reply (assistant (textFor h req)), h)
|}.

(** ** Results *)

(** The error of an HTTP response that carries a message. *)
Definition httpError (code : nat) (text msg : string) : JsError :=
  RequestError ("Request failed with status code " +:+ numberToString code)
    (Some {| status := code; statusText := text;
             data := Some {| data_error := Some {| error_message := Some msg |} |} |}).

Definition httpFailure (code : nat) (text msg : string) : ApiResult :=
  inl (httpError code text msg).

(** A failure without a response. *)
Definition networkError : JsError := RequestError "connect ECONNREFUSED" None.

Definition networkFailure : ApiResult := inl networkError.

(** ** Worlds *)

Definition noEnv : Env :=
  {| OPENAI_API_KEY := None; CHAT_OPENAI_MODEL := None; DEBUG := None |}.

Definition keyEnv (key : string) : Env :=
  {| OPENAI_API_KEY := Some key; CHAT_OPENAI_MODEL := None; DEBUG := None |}.

(** A POSIX process started as [node index.js] with the given arguments,
    lines of input and script of the remote service, on an empty file
    system. *)
Definition posixWorld (e : Env) (args input : list string) (script : Script)
    : World MemFs Script :=
  mkWorld POSIX e ("node" :: "index.js" :: args) input None emptyFs script [].

(** The error of a question on an interface that is closed. *)
Definition useAfterClose : JsError := Error "readline was closed".

(** The same process without arguments, with standard input that ends
    after the given lines: the interface is closed by the time the script
    asks again. *)
Definition pipedWorld (e : Env) (input : list string) (script : Script)
    : World MemFs Script :=
  mkWorld POSIX e ["node"; "index.js"] input (Some useAfterClose) emptyFs script [].
