(* ===== verification/PromptSource.v ===== *)
(** * Prompt sources

    The two asynchronous generator functions of [src/index.js] (lines
    119-127) and the choice between them (lines 130-132).  A generator
    object is its function and whether its body has been entered; [next]
    resumes it.  A resumption ends in one of four ways: a value is yielded,
    the body returns, the awaited promise never settles, or the question
    throws, on an interface that is closed. *)

From Stdlib Require Import Ascii.
From S2P Require Import Prelude JsString Message Runtime Stubs.

(** ** Data *)

(** The two generator functions. *)
Inductive PromptSource := FromArg | FromReadline.

#[export] Instance PromptSource_eq_dec : EqDecision PromptSource.
Proof. solve_decision. Defined.

(** What [await gen.next()] gives: a value, completion, or nothing ever. *)
Inductive IteratorResult :=
| Yielded (value : string)
| Done
| Pending.

(** A generator object. *)
Record Generator := mkGenerator { source : PromptSource; started : bool }.

(** Calling a generator function creates a generator that has not run. *)
Definition newGenerator (f : PromptSource) : Generator :=
  {| source := f; started := false |}.

(** ** The generator functions *)

Section sources.
Context {F R : Type} `{!FileSystem F, !RemoteApi R}.

Local Abbreviation W := (World F R).

(** The prompt of the command line (line 126). *)
Definition argPrompt (argv : list string) : string :=
  trim (join " " (slice 2 argv)).

(** [promptFromArg] (lines 125-127), resumed: the first resumption yields
    the prompt of the command line, the second returns. *)
Definition promptFromArg (g : Generator) : M W IteratorResult :=
  if started g then mret Done
  else a ← gets argv; mret (Yielded (argPrompt a)).

(** [promptFromReadline] (lines 119-123), resumed: every resumption asks for
    a line and yields it. *)
Definition promptFromReadline (g : Generator) : M W IteratorResult :=
  r ← rl_question "> ";
  mret (match r with
        | Some line => Yielded line
        | None => Pending
        end).

(** [await gen.next()]: the result, and the generator as it is left. *)
Definition next (g : Generator) : M W (IteratorResult * Generator) :=
  r ← match source g with
      | FromArg => promptFromArg g
      | FromReadline => promptFromReadline g
      end;
  mret (r, {| source := source g; started := true |}).

End sources.

(** The choice of lines 130-132: [process.argv.length > 2]. *)
Definition promptSource (argv : list string) : PromptSource :=
  if 2 <? length argv then FromArg else FromReadline.

(** How a source stops producing: its body returns, the resumption never
    settles, it throws, or the consumer has stopped asking. *)
Inductive SourceEnd :=
| Completes
| NeverSettles
| Fails (err : JsError)
| MoreToCome.

(** A source as the sequence it produces: the prompts a generator yields,
    how it stops, and the world as it is left; one unit of fuel per
    resumption. *)
Fixpoint drain {F R} `{!FileSystem F, !RemoteApi R}
    (fuel : nat) (g : Generator) (w : World F R) : list string * SourceEnd * World F R :=
  match fuel with
  | 0 => ([], MoreToCome, w)
  | S fuel' =>
      match next g w with
      | (Normal (Yielded v, g'), w') =>
          let '(vs, e, w'') := drain fuel' g' w' in (v :: vs, e, w'')
      | (Normal (Done, _), w') => ([], Completes, w')
      | (Normal (Pending, _), w') => ([], NeverSettles, w')
      | (Throw err, w') => ([], Fails err, w')
      end
  end.

(** The code units that [trim] removes, among those below 256, by their
    numbers: TAB, LF, VT, FF, CR, SP and NBSP. *)
Definition blankCode (c : ascii) : Prop :=
  nat_of_ascii c ∈ [9; 10; 11; 12; 13; 32; 160].

(** A string of such code units only. *)
Definition blank (s : string) : Prop :=
  ∀ c, In c (String.list_ascii_of_string s) → blankCode c.

(** The events of reading the given lines, each after its query. *)
Definition readEvents (lines : list string) : list Event :=
  lines ≫= λ line, [Question "> "; Input line].

(** The events of the question asked when the lines are used up: the query
    that stays open, and nothing on an interface that is closed. *)
Definition openQuery {F R} (w : World F R) : list Event :=
  match closed w with
  | None => [Question "> "]
  | Some _ => []
  end.

(** ** The choice of the source *)

Lemma promptSource_FromArg (a : list string) :
  promptSource a = FromArg ↔ 2 < length a.
Proof.
  unfold promptSource. destruct (Nat.ltb_spec 2 (length a)); split; (done || lia).
Qed.

Lemma promptSource_FromReadline (a : list string) :
  promptSource a = FromReadline ↔ length a ≤ 2.
Proof.
  unfold promptSource. destruct (Nat.ltb_spec 2 (length a)); split; (done || lia).
Qed.

(** ** The prompt of the command line *)

Lemma argPrompt_trimmed (a : list string) : trim (argPrompt a) = argPrompt a.
Proof. apply trim_idempotent. Qed.

Lemma argPrompt_no_leading_space (a : list string) (c : ascii) (t : string) :
  argPrompt a = String c t → isWhiteSpace c = false.
Proof. apply trim_head. Qed.

Lemma argPrompt_single (node script arg : string) :
  argPrompt [node; script; arg] = trim arg.
Proof. done. Qed.

(** ** The generators *)

Section facts.
Context {F R : Type} `{!FileSystem F, !RemoteApi R}.
Implicit Types (w : World F R) (g : Generator).

Lemma next_FromArg_first w :
  next (newGenerator FromArg) w =
  (Normal (Yielded (argPrompt (argv w)), mkGenerator FromArg true), w).
Proof. done. Qed.

Lemma next_FromArg_then w :
  next (mkGenerator FromArg true) w = (Normal (Done, mkGenerator FromArg true), w).
Proof. done. Qed.

Lemma next_FromReadline_line g w line rest :
  source g = FromReadline → stdin w = line :: rest →
  next g w =
  (Normal (Yielded line, mkGenerator FromReadline true),
   set_trace (trace w ++ [Question "> "; Input line]) (set_stdin rest w)).
Proof.
  intros Hg Hin. unfold next, promptFromReadline, rl_question, mbind, M_bind.
  rewrite Hg. simpl. rewrite Hin. simpl. by rewrite <- (assoc_L (++)).
Qed.

Lemma next_FromReadline_eof g w :
  source g = FromReadline → stdin w = [] → closed w = None →
  next g w =
  (Normal (Pending, mkGenerator FromReadline true),
   set_trace (trace w ++ [Question "> "]) w).
Proof.
  intros Hg Hin Hc. unfold next, promptFromReadline, rl_question, mbind, M_bind.
  rewrite Hg. simpl. by rewrite Hin, Hc.
Qed.

Lemma next_FromReadline_closed g w err :
  source g = FromReadline → stdin w = [] → closed w = Some err →
  next g w = (Throw err, w).
Proof.
  intros Hg Hin Hc. unfold next, promptFromReadline, rl_question, mbind, M_bind.
  rewrite Hg. simpl. by rewrite Hin, Hc.
Qed.

(** A resumption throws only in the interactive generator, when the lines
    are used up and the interface is closed; the error is the one of the
    question. *)
Lemma next_throws g w err :
  (next g w).1 = Throw err →
  source g = FromReadline ∧ stdin w = [] ∧ closed w = Some err ∧ (next g w).2 = w.
Proof.
  unfold next, promptFromArg, promptFromReadline, rl_question, mbind, M_bind.
  destruct (source g), (started g), (stdin w), (closed w); try done; by intros [= ->].
Qed.

(** A generator keeps its function. *)
Lemma next_source g w r g' w' : next g w = (Normal (r, g'), w') → source g' = source g.
Proof.
  unfold next, mbind, M_bind. repeat case_match; try done; by intros [= _ <- _].
Qed.

Lemma next_evolves g : preserves (@evolves F R) (next g).
Proof. unfold next, promptFromArg, promptFromReadline. solve_preserves. Qed.

(** ** What a source yields *)

(** The argument source yields one prompt, the command-line arguments
    after the script name joined by spaces and trimmed, then returns; it
    reads and prints nothing. *)
Lemma drain_FromArg (fuel : nat) w :
  drain (S (S fuel)) (newGenerator FromArg) w = ([argPrompt (argv w)], Completes, w).
Proof. done. Qed.

Lemma drain_FromReadline_lines (fuel : nat) g w :
  source g = FromReadline → length (stdin w) < fuel →
  drain fuel g w =
  (stdin w,
   match closed w with None => NeverSettles | Some err => Fails err end,
   set_trace (trace w ++ readEvents (stdin w) ++ openQuery w) (set_stdin [] w)).
Proof.
  revert g w. induction fuel as [|fuel IH]; intros g w Hg Hlen; [lia|].
  destruct (stdin w) as [|line rest] eqn:Hin; simpl.
  - unfold openQuery. destruct (closed w) as [err|] eqn:Hc.
    + rewrite (next_FromReadline_closed g w err Hg Hin Hc).
      rewrite (right_id_L [] (++)). by destruct w; simplify_eq/=.
    + rewrite (next_FromReadline_eof g w Hg Hin Hc). by destruct w; simplify_eq/=.
  - rewrite (next_FromReadline_line g w line rest Hg Hin).
    rewrite IH by (simpl in *; done || lia). simpl.
    by rewrite <- !(assoc_L (++)).
Qed.

(** The body of the interactive generator never returns. *)
Lemma next_FromReadline_not_Done g w g' w' :
  source g = FromReadline → next g w ≠ (Normal (Done, g'), w').
Proof.
  intros Hg. unfold next, promptFromReadline, rl_question, mbind, M_bind.
  rewrite Hg. simpl. by destruct (stdin w), (closed w).
Qed.

Lemma drain_FromReadline_goes_on (fuel : nat) g w :
  source g = FromReadline → (drain fuel g w).1.2 ≠ Completes.
Proof.
  revert g w. induction fuel as [|fuel IH]; intros g w Hg; simpl; [done|].
  destruct (next g w) as [[[[v| |] g']|err] w'] eqn:Hn; simpl; [|by destruct
    (next_FromReadline_not_Done g w g' w' Hg)|done..].
  specialize (IH g' w' (eq_trans (next_source _ _ _ _ _ Hn) Hg)).
  by destruct (drain fuel g' w') as [[vs e] w''].
Qed.

(** C34: The interactive source yields the lines of standard input, in
    order, each after a query, and then asks once more.  With more fuel
    than lines the source is drained exactly, and it stops because that
    last question is never answered, or because it throws, on an interface
    that is closed.  It never signals completion, however long one asks. *)
Theorem drain_FromReadline (fuel : nat) g w :
  source g = FromReadline → length (stdin w) < fuel →
  drain fuel g w =
  (stdin w,
   match closed w with None => NeverSettles | Some err => Fails err end,
   set_trace (trace w ++ readEvents (stdin w) ++ openQuery w) (set_stdin [] w)) ∧
  ∀ n, (drain n g w).1.2 ≠ Completes.
Proof.
  intros Hg Hlen. split; [by apply drain_FromReadline_lines|].
  intros n. by apply drain_FromReadline_goes_on.
Qed.

End facts.

Lemma drain_FromReadline_witness :
  drain 3 (newGenerator FromReadline) (posixWorld noEnv [] ["hi"; "reset"] []) =
  (["hi"; "reset"], NeverSettles,
   set_trace [Question "> "; Input "hi"; Question "> "; Input "reset";
              Question "> "] (posixWorld noEnv [] [] [])) ∧
  ∀ n, (drain n (newGenerator FromReadline)
          (posixWorld noEnv [] ["hi"; "reset"] [])).1.2 ≠ Completes.
Proof.
  exact (drain_FromReadline 3 (newGenerator FromReadline)
           (posixWorld noEnv [] ["hi"; "reset"] []) eq_refl ltac:(simpl; lia)).
Defined.

(** ** The prompt of the command line, characterised *)

Lemma blankCode_isWhiteSpace (c : ascii) : isWhiteSpace c = false → ¬ blankCode c.
Proof. rewrite isWhiteSpace_codes. by intros ?%bool_decide_eq_false. Qed.

Lemma blankCode_not_isWhiteSpace (c : ascii) : ¬ blankCode c → isWhiteSpace c = false.
Proof. rewrite isWhiteSpace_codes. intros H. by apply bool_decide_eq_false. Qed.

(** C35: The prompt of argument mode is the text of the arguments after
    the script name, joined by single spaces, without the white space at its
    two ends and with everything between: a string is that prompt exactly
    when the joined text is this string between two runs of white space
    (TAB, LF, VT, FF, CR, SP, NBSP) and the string neither starts nor ends
    with such a code unit. *)
Theorem argPrompt_spec (node script : string) (args : list string) (t : string) :
  argPrompt (node :: script :: args) = t ↔
  ∃ l r,
    String.concat " " args = l +:+ t +:+ r ∧ blank l ∧ blank r ∧
    (∀ c u, t = String c u → ¬ blankCode c) ∧
    (∀ u c, t = u +:+ String c "" → ¬ blankCode c).
Proof.
  unfold argPrompt, slice, join. simpl drop. split.
  - intros <-.
    destruct (trim_decompose (String.concat " " args)) as (l & r & Heq & Hl & Hr).
    exists l, r. split_and!; [done| | | |].
    + intros c. by apply allWhiteSpace_codes.
    + intros c. by apply allWhiteSpace_codes.
    + intros c u Hu. eapply blankCode_isWhiteSpace, trim_head, Hu.
    + intros u c Hu. eapply blankCode_isWhiteSpace, trim_last, Hu.
  - intros (l & r & Heq & Hl & Hr & Hhead & Hlast).
    apply (trim_unique _ l t r Heq); auto using allWhiteSpace_of_codes.
    + intros c u Hu. eapply blankCode_not_isWhiteSpace, Hhead, Hu.
    + intros u c Hu. eapply blankCode_not_isWhiteSpace, Hlast, Hu.
Qed.

(** The white space between the arguments, and inside them, stays. *)
Example argPrompt_inner_space :
  argPrompt ["node"; "index.js"; " what"; "is "; " 2+2 "] = "what is   2+2".
Proof. by vm_compute. Qed.

#[export] Hint Resolve next_evolves : chat.
