(* ===== verification/ChatSession.v ===== *)
(** * The chat session

    The class [OpenAiChat] of [src/index.js] (lines 18-117): its fields as a
    record, each method as a computation in the monad [M] over a [Machine]
    (the object together with the world it runs in), the command dispatch of
    [handlePrompt], and the loop of [chat] with its [try]/[catch].

    The loop takes fuel: one unit per resumption of the prompt source.  With
    more fuel than standard input has lines (two units in argument mode) the
    loop is never cut short ([chat_interactive], [chat_single_shot]). *)

From S2P Require Import Prelude JsString Message Json Runtime Stubs PromptSource.

(** ** Constants (lines 18-20) *)

Definition CHAT_COMMAND_SAVE_TO : string := "save to".
Definition CHAT_COMMAND_RESET_CHAT : string := "reset".
Definition CHAT_DEFAULT_MODEL : string := "gpt-3.5-turbo".

(** The greeting of [chat] (line 100). *)
Definition WELCOME : string := "Welcome! Let's chat.".

(** ** The object *)

(** The client object of the [openai] package: it holds its configuration. *)
Record Configuration := { apiKey : string }.
Record OpenAIApi := { configuration : Configuration }.

(** The fields of an [OpenAiChat] (lines 25-29). *)
Record OpenAiChat := mkOpenAiChat {
  _messages : list Message;
  _model : string;
  _promptSource : PromptSource;
  _openaiApiKey : string;
  _openai : option OpenAIApi
}.

(** The argument of the constructor. *)
Record Options := {
  opt_model : option string;
  opt_promptSource : PromptSource;
  opt_openaiApiKey : string
}.

(** [new OpenAiChat({ model, promptSource, openaiApiKey })] (lines 24-30). *)
Definition newOpenAiChat (o : Options) : OpenAiChat :=
  {| _messages := [];
     _model := orElse (opt_model o) CHAT_DEFAULT_MODEL;
     _promptSource := opt_promptSource o;
     _openaiApiKey := opt_openaiApiKey o;
     _openai := None |}.

Definition set_messages (ms : list Message) (c : OpenAiChat) : OpenAiChat :=
  mkOpenAiChat ms (_model c) (_promptSource c) (_openaiApiKey c) (_openai c).

Definition set_openai (a : option OpenAIApi) (c : OpenAiChat) : OpenAiChat :=
  mkOpenAiChat (_messages c) (_model c) (_promptSource c) (_openaiApiKey c) a.

(** The two errors the engine raises in [_callOpenaiChatApi]: the client is
    still [null] (line 59), or [data.choices] is empty (line 61). *)
Definition notInitialized : JsError :=
  TypeError "Cannot read properties of null (reading 'createChatCompletion')".
Definition noChoice : JsError :=
  TypeError "Cannot destructure property 'message' of 'data.choices[0]' as it is undefined.".

(** How the loop of [chat] ends: the source is exhausted, the awaited line
    never comes, or the fuel of the model ran out. *)
Inductive LoopEnd := Finished | Suspended | OutOfFuel.

#[export] Instance LoopEnd_eq_dec : EqDecision LoopEnd.
Proof. solve_decision. Defined.

Section session.
Context {F R : Type} `{!FileSystem F, !RemoteApi R}.

(** The object and the world it runs in. *)
#[local] Set Primitive Projections.
Record Machine := mkMachine { self : OpenAiChat; world : World F R }.
#[local] Unset Primitive Projections.

(** A computation on the world, run on the machine. *)
Definition liftW {A} (c : M (World F R) A) : M Machine A := λ m,
  let '(r, w) := c (world m) in (r, mkMachine (self m) w).

(** An update of the object. *)
Definition updateSelf (f : OpenAiChat → OpenAiChat) : M Machine unit :=
  modify (λ m, mkMachine (f (self m)) (world m)).

(** [process.env.DEBUG] guards the two debug lines (lines 85-87, 94-96). *)
Definition debugLog (line : string) : M Machine unit :=
  e ← gets (λ m, env (world m));
  if truthyOpt (DEBUG e) then liftW (console_log line) else mret tt.

(** ** Methods *)

(** [_initialize()] (lines 32-37). *)
Definition _initialize : M Machine unit :=
  updateSelf (λ c,
    set_openai (Some {| configuration := {| apiKey := _openaiApiKey c |} |}) c).

(** [_transcript()] (lines 39-46). *)
Definition _transcript : M Machine string :=
  gets (λ m, transcript (os (world m)) (_messages (self m))).

(** [_resetChat()] (lines 48-51). *)
Definition _resetChat : M Machine unit :=
  updateSelf (λ c, set_messages (splice 0 (length (_messages c)) (_messages c)).2 c);;
  liftW (console_log "Chat history has been reset.").

(** [_callOpenaiChatApi()] (lines 53-63). *)
Definition _callOpenaiChatApi : M Machine Message :=
  this ← gets self;
  let req := {| req_model := _model this; req_messages := _messages this |} in
  match _openai this with
  | None => throw notInitialized
  | Some api =>
      data ← liftW (openai_createChatCompletion (apiKey (configuration api)) req);
      match choices data with
      | [] => throw noChoice
      | c :: _ => mret (choice_message c)
      end
  end.

(** The [save to] branch of [handlePrompt] (lines 72-75). *)
Definition saveTo (prompt : string) : M Machine unit :=
  let filename := substring (String.length CHAT_COMMAND_SAVE_TO + 1) prompt in
  t ← _transcript;
  liftW (fs_writeFile filename t);;
  liftW (console_log ("Chat saved to " +:+ filename)).

(** The last branch of [handlePrompt] (lines 83-96): the prompt is sent. *)
Definition send (prompt : string) : M Machine unit :=
  let userMessage := userMessage prompt in
  updateSelf (λ c, set_messages (push (_messages c) userMessage) c);;
  debugLog (stringifyMessage userMessage);;
  answer ← _callOpenaiChatApi;
  updateSelf (λ c, set_messages (push (_messages c) answer) c);;
  liftW (console_log (content answer));;
  debugLog (stringifyMessage answer).

(** [handlePrompt(prompt)] (lines 65-97). *)
Definition handlePrompt (prompt : JsVal) : M Machine unit :=
  if negb (toBoolean prompt)
  then throw (Error ("Invalid prompt " +:+ toString prompt +:+ "."))
  else
    match prompt with
    | JsStr p =>
        if startsWith p CHAT_COMMAND_SAVE_TO then saveTo p
        else if startsWith p CHAT_COMMAND_RESET_CHAT then _resetChat
        else send p
    | _ => throw (TypeError "prompt.startsWith is not a function")
    end.

(** The condition of line 107 and the message it guards: the response and
    [res.data.error.message] when every level is present and truthy. *)
Definition structuredError (err : JsError) : option (HttpResponse * string) :=
  res ← response err;
  d ← data res;
  e ← data_error d;
  msg ← error_message e;
  if truthy msg then Some (res, msg) else None.

(** The [catch] block of [chat] (lines 105-114). *)
Definition reportError (err : JsError) : M Machine unit :=
  match structuredError err with
  | Some (res, errMessage) =>
      liftW (console_error
        ("Error " +:+ numberToString (status res) +:+ " " +:+ statusText res +:+
         ": " +:+ errMessage))
  | None => liftW (console_error_object err)
  end.

(** The body of the loop (lines 103-114). *)
Definition iteration (prompt : string) : M Machine unit :=
  tryCatch (handlePrompt (JsStr prompt)) reportError.

(** [for await (const prompt of gen) { body }] (lines 102-115). *)
Fixpoint forAwait (fuel : nat) (g : Generator) (body : string → M Machine unit)
    : M Machine LoopEnd :=
  match fuel with
  | 0 => mret OutOfFuel
  | S fuel' =>
      '(r, g') ← liftW (next g);
      match r with
      | Yielded prompt => body prompt;; forAwait fuel' g' body
      | Done => mret Finished
      | Pending => mret Suspended
      end
  end.

(** [chat()] (lines 99-116). *)
Definition chat (fuel : nat) : M Machine LoopEnd :=
  liftW (console_log WELCOME);;
  this ← gets self;
  forAwait fuel (newGenerator (_promptSource this)) iteration.

End session.

Arguments Machine : clear implicits.

(** ** Unfolding *)

Ltac munfold :=
  unfold handlePrompt, send, saveTo, _callOpenaiChatApi, _resetChat, _transcript,
    _initialize, debugLog, reportError, iteration, updateSelf, liftW, fs_writeFile,
    openai_createChatCompletion, rl_question, console_log, console_error,
    console_error_object, emit, modify, gets, throw, tryCatch,
    mbind, M_bind, mret, M_ret in *.

(** ** Reading a machine *)

Section theory.
Context {F R : Type} `{!FileSystem F, !RemoteApi R}.
Implicit Types (m : Machine F R) (p : string) (v : JsVal) (c : OpenAiChat).

(** The history of the session. *)
Definition history (m : Machine F R) : list Message := _messages (self m).

(** What the session is configured with. *)
Definition config (c : OpenAiChat)
    : string * PromptSource * string * option OpenAIApi :=
  (_model c, _promptSource c, _openaiApiKey c, _openai c).

(** A prompt that is one of the two commands. *)
Definition isCommand (p : string) : bool :=
  startsWith p CHAT_COMMAND_SAVE_TO || startsWith p CHAT_COMMAND_RESET_CHAT.

(** The request [handlePrompt] sends for the prompt [p]. *)
Definition requestFor (m : Machine F R) (p : string) : CreateChatCompletionRequest :=
  {| req_model := _model (self m);
     req_messages := push (history m) (userMessage p) |}.

(** The debug line, when [DEBUG] is set. *)
Definition debugEvents (m : Machine F R) (line : string) : list Event :=
  if truthyOpt (DEBUG (env (world m))) then [ConsoleLog line] else [].

(** The machine with another history, and with events added to its trace. *)
Definition withHistory (ms : list Message) (m : Machine F R) : Machine F R :=
  mkMachine (set_messages ms (self m)) (world m).
Definition withEvents (es : list Event) (m : Machine F R) : Machine F R :=
  mkMachine (self m) (set_trace (trace (world m) ++ es) (world m)).

Definition withFs (f : F) (m : Machine F R) : Machine F R :=
  mkMachine (self m) (set_fs f (world m)).
Definition withRemote (r : R) (m : Machine F R) : Machine F R :=
  mkMachine (self m) (set_remote r (world m)).
Definition withInput (i : list string) (m : Machine F R) : Machine F R :=
  mkMachine (self m) (set_stdin i (world m)).

(** The branch [handlePrompt] takes. *)
Inductive Branch := BInvalid | BSave | BReset | BSend | BUninitialized.

Definition branch (v : JsVal) (m : Machine F R) : Branch :=
  match v with
  | JsStr p =>
      if negb (truthy p) then BInvalid
      else if startsWith p CHAT_COMMAND_SAVE_TO then BSave
      else if startsWith p CHAT_COMMAND_RESET_CHAT then BReset
      else if _openai (self m) is Some _ then BSend else BUninitialized
  | _ => BInvalid
  end.

(** One turn of the interactive loop: the query, the line, its handling. *)
Definition turn (m : Machine F R) (line : string) : Machine F R :=
  (iteration line
     (withEvents [Question "> "; Input line]
        (withInput (tail (stdin (world m))) m))).2.

(** The session keeps its configuration, and its world evolves. *)
Record steady (m m' : Machine F R) : Prop := {
  steady_config : config (self m') = config (self m);
  steady_world : evolves (world m) (world m')
}.

#[export] Instance steady_preorder : PreOrder steady.
Proof.
  split.
  - by intros m.
  - intros m1 m2 m3 [] []. split; [congruence|by etrans].
Qed.

(** Standard input is left as it is. *)
Definition sameInput (m m' : Machine F R) : Prop :=
  stdin (world m') = stdin (world m).

#[export] Instance sameInput_preorder : PreOrder sameInput.
Proof. split; [by intros m|]. intros m1 m2 m3. unfold sameInput. congruence. Qed.

(** ** The primitives on the machine *)

Lemma liftW_steady {A} (c : M (World F R) A) :
  preserves evolves c → preserves steady (liftW c).
Proof.
  intros Hc m. specialize (Hc (world m)). unfold liftW.
  by destruct (c (world m)) as [r w].
Qed.

Lemma updateSelf_steady (f : OpenAiChat → OpenAiChat) :
  (∀ c, config (f c) = config c) → preserves steady (updateSelf f).
Proof. intros Hf m. by split; [apply Hf|]. Qed.

Lemma set_messages_config ms c : config (set_messages ms c) = config c.
Proof. done. Qed.

Lemma liftW_total {A} (c : M (World F R) A) : total c → total (liftW c).
Proof.
  intros Hc m. specialize (Hc (world m)). unfold liftW.
  by destruct (c (world m)) as [r w].
Qed.

Lemma updateSelf_total (f : OpenAiChat → OpenAiChat) :
  total (updateSelf (F:=F) (R:=R) f).
Proof. done. Qed.

Lemma liftW_sameInput {A} (c : M (World F R) A) :
  (∀ w, stdin (c w).2 = stdin w) → preserves sameInput (liftW c).
Proof.
  intros Hc m. specialize (Hc (world m)). unfold liftW, sameInput.
  by destruct (c (world m)) as [r w].
Qed.

Lemma updateSelf_sameInput (f : OpenAiChat → OpenAiChat) :
  preserves sameInput (updateSelf (F:=F) (R:=R) f).
Proof. done. Qed.

Lemma fs_writeFile_stdin file data (w : World F R) :
  stdin (fs_writeFile file data w).2 = stdin w.
Proof. unfold fs_writeFile. by destruct (writeFile _ _ _) as [[e|] f]. Qed.

Lemma openai_createChatCompletion_stdin key req (w : World F R) :
  stdin (openai_createChatCompletion key req w).2 = stdin w.
Proof.
  unfold openai_createChatCompletion.
  by destruct (createChatCompletion _ _ _) as [[e|d] r].
Qed.

Lemma requests_app t1 t2 : requests (t1 ++ t2) = requests t1 ++ requests t2.
Proof. apply omap_app. Qed.

Lemma requests_debugEvents m line : requests (debugEvents m line) = [].
Proof. unfold debugEvents. by case_match. Qed.

Lemma startsWith_truthy p q :
  q ≠ "" → startsWith p q = true → truthy p = true.
Proof. intros Hq [t ->]%startsWith_spec. by destruct q. Qed.

End theory.

#[export] Hint Resolve liftW_steady updateSelf_steady set_messages_config
  liftW_total updateSelf_total : chat.
#[export] Hint Resolve liftW_sameInput updateSelf_sameInput fs_writeFile_stdin
  openai_createChatCompletion_stdin emit_stdin : chat.

(** Unfold the methods down to the primitives of the monad. *)
Ltac unfold_methods :=
  unfold chat, iteration, reportError, handlePrompt, send, saveTo,
    _callOpenaiChatApi, _resetChat, _transcript, _initialize, debugLog,
    console_log, console_error, console_error_object.

(** ** [handlePrompt], branch by branch

    One equation per branch: the completion and the machine that the branch
    leaves.  The properties below are read off these equations. *)

Section branches.
Context {F R : Type} `{!FileSystem F, !RemoteApi R}.
Implicit Types (m : Machine F R) (p : string) (v : JsVal).

Lemma run_invalid v m :
  toBoolean v = false →
  handlePrompt v m = (Throw (Error ("Invalid prompt " +:+ toString v +:+ ".")), m).
Proof. intros Hv. unfold handlePrompt. by rewrite Hv. Qed.

Lemma run_reset p m :
  startsWith p CHAT_COMMAND_SAVE_TO = false →
  startsWith p CHAT_COMMAND_RESET_CHAT = true →
  handlePrompt (JsStr p) m =
  (Normal tt, withEvents [ConsoleLog "Chat history has been reset."] (withHistory [] m)).
Proof.
  intros Hs Hr. pose proof (startsWith_truthy p CHAT_COMMAND_RESET_CHAT ltac:(done) Hr) as Ht.
  munfold. simpl. rewrite Ht, Hs, Hr. simpl. by rewrite drop_all.
Qed.

Lemma run_save p m :
  startsWith p CHAT_COMMAND_SAVE_TO = true →
  let file := substring 8 p in
  let text := transcript (os (world m)) (history m) in
  let r := writeFile file text (fs (world m)) in
  handlePrompt (JsStr p) m =
  match r.1 with
  | None =>
      (Normal tt,
       withEvents [WriteFile file text; ConsoleLog ("Chat saved to " +:+ file)]
         (withFs r.2 m))
  | Some err => (Throw err, withEvents [WriteFile file text] (withFs r.2 m))
  end.
Proof.
  intros Hs. pose proof (startsWith_truthy p CHAT_COMMAND_SAVE_TO ltac:(done) Hs) as Ht.
  munfold. simpl. rewrite Ht, Hs. simpl.
  destruct (writeFile _ _ _) as [[err|] f]; simpl; [done|].
  unfold withEvents, withFs. simpl. by rewrite <- (assoc_L (++)).
Qed.

Lemma run_send p m api :
  truthy p = true → isCommand p = false → _openai (self m) = Some api →
  let key := apiKey (configuration api) in
  let req := requestFor m p in
  let r := createChatCompletion key req (remote (world m)) in
  let sent :=
    withEvents (debugEvents m (stringifyMessage (userMessage p)) ++ [Request key req])
      (withRemote r.2 (withHistory (push (history m) (userMessage p)) m)) in
  handlePrompt (JsStr p) m =
  match r.1 with
  | inl err => (Throw err, sent)
  | inr d =>
      match choices d with
      | [] => (Throw noChoice, sent)
      | c :: _ =>
          let answer := choice_message c in
          (Normal tt,
           withEvents (ConsoleLog (content answer)
                       :: debugEvents m (stringifyMessage answer))
             (withHistory (push (push (history m) (userMessage p)) answer) sent))
      end
  end.
Proof.
  intros Ht [Hs Hr]%orb_false_elim Hapi.
  munfold. simpl. rewrite Ht, Hs, Hr. simpl.
  unfold debugEvents, requestFor, history, withEvents, withRemote, withHistory.
  destruct (truthyOpt (DEBUG (env (world m)))) eqn:Hd; simpl; rewrite Hapi; simpl;
    (destruct (createChatCompletion _ _ _) as [[err|[[|c cs]]] r]; simpl; try done);
    rewrite ?Hd; simpl; by rewrite <- ?(assoc_L (++)).
Qed.

Lemma run_uninitialized p m :
  truthy p = true → isCommand p = false → _openai (self m) = None →
  handlePrompt (JsStr p) m =
  (Throw notInitialized,
   withEvents (debugEvents m (stringifyMessage (userMessage p)))
     (withHistory (push (history m) (userMessage p)) m)).
Proof.
  intros Ht [Hs Hr]%orb_false_elim Hapi.
  munfold. simpl. rewrite Ht, Hs, Hr. simpl.
  unfold debugEvents, history, withEvents, withHistory.
  destruct (truthyOpt (DEBUG (env (world m)))) eqn:Hd; simpl; rewrite Hapi; simpl; [done|].
  by rewrite (right_id_L [] (++)).
Qed.

End branches.

(** ** Properties of [handlePrompt] *)

Section properties.
Context {F R : Type} `{!FileSystem F, !RemoteApi R}.
Implicit Types (m : Machine F R) (p : string) (v : JsVal).

(** C5: A falsy prompt (the empty string, [null] or [undefined]) makes
    [handlePrompt] throw [Error("Invalid prompt <prompt>.")] and leaves the
    session, the file system, the remote service and the trace exactly as
    they were; in particular no request is sent. *)
Theorem handlePrompt_invalid_prompt v m :
  toBoolean v = false →
  (handlePrompt v m).1 = Throw (Error ("Invalid prompt " +:+ toString v +:+ ".")) ∧
  (handlePrompt v m).2 = m.
Proof. intros Hv. by rewrite run_invalid. Qed.

(** C1: A non-empty prompt that is no command, on an initialised session
    whose request the service answers: [handlePrompt] completes normally,
    the history grows by exactly two messages (the user message, then the
    message of the first choice), the configuration is unchanged, and the
    trace grows by the request (which carries the configured model and the
    history with the user message already in it) followed by the printed
    content of the answer, with the two debug lines around them when [DEBUG]
    is set. *)
Theorem handlePrompt_exchange p m api d r answer rest :
  truthy p = true → isCommand p = false → _openai (self m) = Some api →
  createChatCompletion (apiKey (configuration api)) (requestFor m p)
    (remote (world m)) = (inr d, r) →
  choices d = {| choice_message := answer |} :: rest →
  let m' := (handlePrompt (JsStr p) m).2 in
  (handlePrompt (JsStr p) m).1 = Normal tt ∧
  history m' = history m ++ [userMessage p; answer] ∧
  config (self m') = config (self m) ∧
  remote (world m') = r ∧
  trace (world m') =
    trace (world m) ++ debugEvents m (stringifyMessage (userMessage p)) ++
    [Request (apiKey (configuration api)) (requestFor m p);
     ConsoleLog (content answer)] ++
    debugEvents m (stringifyMessage answer).
Proof.
  intros Ht Hc Hapi Hcall Hd. rewrite (run_send p m api Ht Hc Hapi).
  rewrite Hcall. simpl. rewrite Hd. simpl. unfold history, push. simpl.
  by rewrite <- ?(assoc_L (++)).
Qed.

(** C2: When the remote call fails, [handlePrompt] throws the error of the
    call, and the user message it appended before the call stays in the
    history: the history has grown by exactly that one message, and the
    trace ends with the request. *)
Theorem handlePrompt_failure p m api err r :
  truthy p = true → isCommand p = false → _openai (self m) = Some api →
  createChatCompletion (apiKey (configuration api)) (requestFor m p)
    (remote (world m)) = (inl err, r) →
  let m' := (handlePrompt (JsStr p) m).2 in
  (handlePrompt (JsStr p) m).1 = Throw err ∧
  history m' = history m ++ [userMessage p] ∧
  trace (world m') =
    trace (world m) ++ debugEvents m (stringifyMessage (userMessage p)) ++
    [Request (apiKey (configuration api)) (requestFor m p)].
Proof.
  intros Ht Hc Hapi Hcall. rewrite (run_send p m api Ht Hc Hapi).
  rewrite Hcall. simpl. by rewrite <- ?(assoc_L (++)).
Qed.

(** C3: A prompt that starts with [reset] (and not with [save to])
    completes normally and leaves an empty history, whatever its size was;
    the configuration, the file system and the remote service are untouched,
    and the only thing written is the confirmation line, so no request is
    sent. *)
Theorem handlePrompt_reset p m :
  startsWith p CHAT_COMMAND_SAVE_TO = false →
  startsWith p CHAT_COMMAND_RESET_CHAT = true →
  let m' := (handlePrompt (JsStr p) m).2 in
  (handlePrompt (JsStr p) m).1 = Normal tt ∧
  history m' = [] ∧
  config (self m') = config (self m) ∧
  fs (world m') = fs (world m) ∧
  remote (world m') = remote (world m) ∧
  trace (world m') = trace (world m) ++ [ConsoleLog "Chat history has been reset."].
Proof. intros Hs Hr. rewrite (run_reset p m Hs Hr). repeat split; reflexivity. Qed.

(** C4: A prompt that starts with [save to] never changes the session
    object.  It writes the transcript of the history to the file named by the
    prompt from its ninth code unit on: when [handlePrompt] completes
    normally that file holds exactly the transcript and the confirmation was
    printed after the write; when it throws, the error is the one of the
    write and nothing was printed. *)
Theorem handlePrompt_save p m :
  startsWith p CHAT_COMMAND_SAVE_TO = true →
  let file := substring 8 p in
  let text := transcript (os (world m)) (history m) in
  let m' := (handlePrompt (JsStr p) m).2 in
  self m' = self m ∧
  match (handlePrompt (JsStr p) m).1 with
  | Normal _ =>
      readFile file (fs (world m')) = Some text ∧
      trace (world m') =
        trace (world m) ++ [WriteFile file text; ConsoleLog ("Chat saved to " +:+ file)]
  | Throw err =>
      (writeFile file text (fs (world m))).1 = Some err ∧
      trace (world m') = trace (world m) ++ [WriteFile file text]
  end.
Proof.
  intros Hs. rewrite (run_save p m Hs).
  destruct (writeFile _ _ _) as [[err|] f] eqn:Hw; simpl; rewrite ?Hw;
    repeat split; try done.
  by eapply writeFile_read.
Qed.

End properties.

(** Case analysis on the branch [handlePrompt v m] takes, each case rewritten
    with the equation of its branch. *)
Ltac handle_cases v m :=
  let p := fresh "p" in
  destruct v as [| |p];
  [rewrite (run_invalid JsUndefined m eq_refl)
  |rewrite (run_invalid JsNull m eq_refl)
  |destruct (truthy p) eqn:?;
   [destruct (startsWith p CHAT_COMMAND_SAVE_TO) eqn:?;
    [rewrite (run_save p m) by done
    |destruct (startsWith p CHAT_COMMAND_RESET_CHAT) eqn:?;
     [rewrite (run_reset p m) by done
     |destruct (_openai (self m)) eqn:?;
      [erewrite (run_send p m)
         by (unfold isCommand; eauto using orb_false_intro)
      |rewrite (run_uninitialized p m)
         by (unfold isCommand; eauto using orb_false_intro)]]]
   |rewrite (run_invalid (JsStr p) m) by done]].

Section dispatch.
Context {F R : Type} `{!FileSystem F, !RemoteApi R}.
Implicit Types (m : Machine F R) (p : string) (v : JsVal).

(** C23: Whatever the prompt and the state, [handlePrompt] sends at most one
    request: exactly one, for the history with the user message appended,
    when the prompt is non-empty, is no command and the client exists; none
    in every other case (invalid prompt, [save to], [reset]). *)
Theorem handlePrompt_requests v m :
  requests (trace (world (handlePrompt v m).2)) =
  requests (trace (world m)) ++
  match branch v m with
  | BSend => match v with JsStr p => [requestFor m p] | _ => [] end
  | _ => []
  end.
Proof.
  unfold branch. handle_cases v m; simpl; repeat case_match; simplify_eq/=;
    rewrite ?requests_app; simpl;
    by rewrite ?requests_debugEvents, ?(right_id_L [] (++)).
Qed.

(** C25: Whatever the prompt and the state, [handlePrompt] leaves the model,
    the prompt source, the credential and the client of the session as they
    were, leaves platform, environment and arguments as they were, only adds
    to the end of the trace, and reads nothing from standard input. *)
Theorem handlePrompt_steady v m :
  steady m (handlePrompt v m).2 ∧ sameInput m (handlePrompt v m).2.
Proof.
  split; revert m; [change (preserves steady (handlePrompt (F:=F) (R:=R) v))
                   |change (preserves sameInput (handlePrompt (F:=F) (R:=R) v))];
    unfold_methods; solve_preserves.
Qed.

End dispatch.

(** ** The loop of [chat] *)

Section loop.
Context {F R : Type} `{!FileSystem F, !RemoteApi R}.
Implicit Types (m : Machine F R) (p : string) (g : Generator) (err : JsError).

Lemma reportError_generic err m :
  structuredError err = None →
  reportError err m = (Normal tt, withEvents [ConsoleErrorObject err] m).
Proof. intros He. unfold reportError. by rewrite He. Qed.

Lemma reportError_total err : total (reportError (F:=F) (R:=R) err).
Proof. unfold_methods. solve_total. Qed.

Lemma iteration_total p : total (iteration (F:=F) (R:=R) p).
Proof. unfold iteration. solve_total. apply reportError_total. Qed.

Lemma iteration_steady p : preserves steady (iteration (F:=F) (R:=R) p).
Proof. unfold_methods. solve_preserves. Qed.

Lemma iteration_sameInput p : preserves sameInput (iteration (F:=F) (R:=R) p).
Proof. unfold_methods. solve_preserves. Qed.

(** An iteration always completes normally: it is its final machine. *)
Lemma iteration_run p m : iteration p m = (Normal tt, (iteration p m).2).
Proof.
  pose proof (iteration_total p m) as Ht.
  by destruct (iteration p m) as [[[]|e] m'].
Qed.

Lemma iteration_closed p m : closed (world (iteration p m).2) = closed (world m).
Proof. apply (evolves_closed _ _ (steady_world _ _ (iteration_steady p m))). Qed.

(** One pass of the loop: the generator is resumed; a prompt is handled
    and the loop goes on; the end of the generator, a resumption that stays
    pending and one that throws end the loop. *)
Lemma forAwait_pass fuel g m :
  forAwait (S fuel) g iteration m =
  match liftW (next g) m with
  | (Normal (Yielded p, g'), m1) => forAwait fuel g' iteration (iteration p m1).2
  | (Normal (Done, _), m1) => (Normal Finished, m1)
  | (Normal (Pending, _), m1) => (Normal Suspended, m1)
  | (Throw err, m1) => (Throw err, m1)
  end.
Proof.
  cbn [forAwait]. unfold mbind at 1, M_bind at 1.
  destruct (liftW (next g) m) as [[[[p| |] g']|err] m1]; try done.
  unfold mbind, M_bind. by rewrite iteration_run.
Qed.

Lemma liftW_next_closed g m :
  closed (world (liftW (next g) m).2) = closed (world m).
Proof.
  unfold liftW. pose proof (next_evolves g (world m)) as [].
  by destruct (next g (world m)).
Qed.

(** The loop throws only what the generator throws, the error of a
    question on an interface that is closed, when its body never throws. *)
Lemma forAwait_throws fuel g (body : string → M (Machine F R) unit) m err :
  (∀ p, total (body p)) →
  (∀ p m, closed (world (body p m).2) = closed (world m)) →
  (forAwait fuel g body m).1 = Throw err →
  source g = FromReadline ∧ closed (world m) = Some err.
Proof.
  intros Htotal Hclosed. revert g m.
  induction fuel as [|fuel IH]; intros g m; [done|].
  cbn [forAwait]. unfold mbind at 1, M_bind at 1.
  pose proof (liftW_next_closed g m) as Hc. unfold liftW in *.
  destruct (next g (world m)) as [[[[p| |] g']|err'] w1] eqn:Hn; simpl in *; try done.
  - unfold mbind, M_bind. pose proof (Htotal p (mkMachine (self m) w1)) as Ht.
    pose proof (Hclosed p (mkMachine (self m) w1)) as Hb.
    destruct (body p _) as [[[]|e] m2]; [|done].
    intros [Hg Herr]%IH. simpl in Hb.
    by rewrite <- Hc, <- (next_source _ _ _ _ _ Hn), <- Hb.
  - intros [= ->]. by destruct (next_throws g (world m) err) as (? & _ & ? & _); [rewrite Hn|].
Qed.

Lemma forAwait_steady fuel g (body : string → M (Machine F R) unit) :
  (∀ p, preserves steady (body p)) → preserves steady (forAwait fuel g body).
Proof.
  intros Hb. revert g. induction fuel as [|fuel IH]; intros g; simpl; solve_preserves.
Qed.

Lemma liftW_next_line g m line rest :
  source g = FromReadline → stdin (world m) = line :: rest →
  liftW (next g) m =
  (Normal (Yielded line, mkGenerator FromReadline true),
   withEvents [Question "> "; Input line] (withInput rest m)).
Proof.
  intros Hg Hin. unfold liftW. by rewrite (next_FromReadline_line g _ line rest Hg Hin).
Qed.

Lemma liftW_next_eof g m :
  source g = FromReadline → stdin (world m) = [] → closed (world m) = None →
  liftW (next g) m =
  (Normal (Pending, mkGenerator FromReadline true), withEvents [Question "> "] m).
Proof.
  intros Hg Hin Hc. unfold liftW. by rewrite (next_FromReadline_eof g _ Hg Hin Hc).
Qed.

Lemma liftW_next_refused g m err :
  source g = FromReadline → stdin (world m) = [] → closed (world m) = Some err →
  liftW (next g) m = (Throw err, m).
Proof.
  intros Hg Hin Hc. unfold liftW. by rewrite (next_FromReadline_closed g _ err Hg Hin Hc).
Qed.

Lemma turn_closed m line : closed (world (turn m line)) = closed (world m).
Proof. unfold turn. by rewrite iteration_closed. Qed.

Lemma foldl_turn_closed m lines : closed (world (foldl turn m lines)) = closed (world m).
Proof.
  revert m. induction lines as [|line lines IH]; intros m; [done|].
  simpl. by rewrite IH, turn_closed.
Qed.

Lemma turn_stdin m line : stdin (world (turn m line)) = tail (stdin (world m)).
Proof. unfold turn. by rewrite (iteration_sameInput line _). Qed.

(** How an interactive run ends on the machine [m], once the lines are
    used up: suspended on a query that is never answered, or, on an
    interface that is closed, by the error of the question. *)
Definition inputEnd (m : Machine F R) : Completion LoopEnd * Machine F R :=
  match closed (world m) with
  | None => (Normal Suspended, withEvents [Question "> "] m)
  | Some err => (Throw err, m)
  end.

Lemma inputEnd_self m : self (inputEnd m).2 = self m.
Proof. unfold inputEnd. by destruct (closed (world m)). Qed.

(** The interactive loop is a left fold of [turn] over the lines of
    standard input, followed by the end of the input. *)
Lemma forAwait_interactive fuel g m :
  source g = FromReadline → length (stdin (world m)) < fuel →
  forAwait fuel g iteration m = inputEnd (foldl turn m (stdin (world m))).
Proof.
  revert g m. induction fuel as [|fuel IH]; intros g m Hg Hlen; [lia|].
  rewrite forAwait_pass.
  destruct (stdin (world m)) as [|line rest] eqn:Hin.
  - unfold inputEnd. simpl. destruct (closed (world m)) as [err|] eqn:Hc.
    + by rewrite (liftW_next_refused g m err Hg Hin Hc).
    + by rewrite (liftW_next_eof g m Hg Hin Hc).
  - rewrite (liftW_next_line g m line rest Hg Hin).
    assert (stdin (world (turn m line)) = rest) as Hrest
      by (by rewrite turn_stdin, Hin).
    unfold turn in *. rewrite Hin in *. simpl in *. rewrite Hin. simpl.
    rewrite IH, Hrest; [done..|]. rewrite Hrest. lia.
Qed.

Lemma forAwait_single_shot fuel m :
  forAwait (S (S fuel)) (newGenerator FromArg) iteration m =
  (Normal Finished, (iteration (argPrompt (argv (world m))) m).2).
Proof.
  simpl. unfold mbind, M_bind, liftW. rewrite next_FromArg_first. simpl.
  by rewrite iteration_run.
Qed.

(** [chat] is the greeting followed by the loop. *)
Lemma chat_unfold fuel m :
  chat fuel m =
  forAwait fuel (newGenerator (_promptSource (self m))) iteration
    (withEvents [ConsoleLog WELCOME] m).
Proof. done. Qed.

(** C26: An error of the remote service that carries a response with a
    non-empty [data.error.message] is reported by the [catch] block of
    [chat] as the single line [Error <status> <statusText>: <message>] on
    standard error, and the block completes normally. *)
Theorem reportError_structured err res d e text m :
  response err = Some res → data res = Some d → data_error d = Some e →
  error_message e = Some text → truthy text = true →
  reportError err m =
  (Normal tt,
   withEvents [ConsoleError ("Error " +:+ numberToString (status res) +:+ " " +:+
                             statusText res +:+ ": " +:+ text)] m).
Proof.
  intros Hres Hd He Hm Ht. unfold reportError, structuredError.
  rewrite Hres. simpl. rewrite Hd. simpl. rewrite He. simpl. rewrite Hm. simpl.
  by rewrite Ht.
Qed.

Lemma chat_throws_source fuel m err :
  (chat fuel m).1 = Throw err →
  _promptSource (self m) = FromReadline ∧ closed (world m) = Some err.
Proof.
  rewrite chat_unfold.
  apply (forAwait_throws fuel (newGenerator _) iteration (withEvents [ConsoleLog WELCOME] m));
    [apply iteration_total|apply iteration_closed].
Qed.

(** C6: No error of a prompt escapes [chat]: whatever the fuel, the
    prompts, the answers of the remote service and the failures of the file
    system, every error raised while a prompt is handled is caught inside
    the loop.  The one error [chat] throws is the error of the prompt
    source: in interactive mode, that of a question on an interface that is
    closed.  In argument mode, and on an interface that stays open, [chat]
    completes normally. *)
Theorem chat_never_throws fuel m :
  (∀ err, (chat fuel m).1 = Throw err →
          _promptSource (self m) = FromReadline ∧ closed (world m) = Some err) ∧
  (_promptSource (self m) = FromArg ∨ closed (world m) = None →
   isNormal (chat fuel m).1 = true).
Proof.
  split; [apply chat_throws_source|].
  destruct (chat fuel m).1 as [e|err] eqn:Hc; [done|].
  apply chat_throws_source in Hc as [Hs Hc]. intros [?| ?]; congruence.
Qed.

(** C24: Across a whole run of [chat] the session keeps its model, prompt
    source, credential and client; platform, environment and arguments stay
    as they were; the trace only grows at its end; and standard input is
    only consumed from its front. *)
Theorem chat_steady fuel m : steady m (chat fuel m).2.
Proof.
  revert m. change (preserves steady (chat (F:=F) (R:=R) fuel)).
  unfold chat. solve_preserves. apply forAwait_steady, iteration_steady.
Qed.

(** C10: In interactive mode, with more fuel than standard input has lines,
    [chat] prints the greeting, then handles the lines one after the other in
    their order, each after its query [> ], no line being read before the
    handling of the previous one is over: the machine is the left fold of
    [turn] over the lines.  Then the run ends suspended on a last query, or,
    on an interface that is closed, throws the error of the question. *)
Theorem chat_interactive fuel m :
  _promptSource (self m) = FromReadline → length (stdin (world m)) < fuel →
  let m' := foldl turn (withEvents [ConsoleLog WELCOME] m) (stdin (world m)) in
  chat fuel m =
  match closed (world m) with
  | None => (Normal Suspended, withEvents [Question "> "] m')
  | Some err => (Throw err, m')
  end.
Proof.
  intros Hs Hlen. rewrite chat_unfold, forAwait_interactive by done.
  unfold inputEnd. by rewrite foldl_turn_closed.
Qed.

(** C11: In argument mode, with at least two units of fuel, [chat] prints
    the greeting, handles exactly one prompt, the arguments joined with
    single spaces and trimmed, and finishes; standard input is not read. *)
Theorem chat_single_shot fuel m :
  _promptSource (self m) = FromArg → 2 ≤ fuel →
  chat fuel m =
  (Normal Finished,
   (iteration (argPrompt (argv (world m))) (withEvents [ConsoleLog WELCOME] m)).2).
Proof.
  intros Hs Hfuel. destruct fuel as [|[|fuel]]; [lia..|].
  by rewrite chat_unfold, Hs, forAwait_single_shot.
Qed.

End loop.

(** ** The theorems at a concrete session

    A session on the in-memory file system and the scripted service, and
    each theorem above that has hypotheses applied to it. *)

(** An initialised session with the given history and prompt source. *)
Definition demoSession (src : PromptSource) (h : list Message) : OpenAiChat :=
  {| _messages := h; _model := CHAT_DEFAULT_MODEL; _promptSource := src;
     _openaiApiKey := "sk-demo";
     _openai := Some {| configuration := {| apiKey := "sk-demo" |} |} |}.

(** That session in a POSIX process with the given arguments, input and
    script of the remote service. *)
Definition demo (src : PromptSource) (h : list Message)
    (args input : list string) (script : Script) : Machine MemFs Script :=
  mkMachine (demoSession src h) (posixWorld (keyEnv "sk-demo") args input script).

Definition greeting : list Message := [userMessage "hello"; assistant "hi"].

Lemma handlePrompt_invalid_prompt_witness :
  (handlePrompt (JsStr "") (demo FromReadline greeting [] [] [])).1 =
    Throw (Error "Invalid prompt .") ∧
  (handlePrompt (JsStr "") (demo FromReadline greeting [] [] [])).2 =
    demo FromReadline greeting [] [] [].
Proof.
  exact (handlePrompt_invalid_prompt (JsStr "") (demo FromReadline greeting [] [] []) eq_refl).
Defined.

Lemma handlePrompt_exchange_witness :
  history (handlePrompt (JsStr "hello")
             (demo FromReadline [] [] [] [reply (assistant "hi")])).2 = greeting.
Proof.
  exact (proj1 (proj2 (handlePrompt_exchange "hello"
    (demo FromReadline [] [] [] [reply (assistant "hi")]) _ _ _ _ []
    eq_refl eq_refl eq_refl eq_refl eq_refl))).
Defined.

Lemma handlePrompt_failure_witness :
  history (handlePrompt (JsStr "hello")
             (demo FromReadline [] [] [] [networkFailure])).2 = [userMessage "hello"].
Proof.
  exact (proj1 (proj2 (handlePrompt_failure "hello"
    (demo FromReadline [] [] [] [networkFailure]) _ _ _
    eq_refl eq_refl eq_refl eq_refl))).
Defined.

Lemma handlePrompt_reset_witness :
  history (handlePrompt (JsStr "reset") (demo FromReadline greeting [] [] [])).2 = [].
Proof.
  exact (proj1 (proj2 (handlePrompt_reset "reset"
    (demo FromReadline greeting [] [] []) eq_refl eq_refl))).
Defined.

Lemma handlePrompt_save_witness :
  self (handlePrompt (JsStr "save to out.txt") (demo FromReadline greeting [] [] [])).2 =
  demoSession FromReadline greeting.
Proof.
  exact (proj1 (handlePrompt_save "save to out.txt"
    (demo FromReadline greeting [] [] []) eq_refl)).
Defined.

Lemma reportError_structured_witness :
  reportError (httpError 429 "Too Many Requests" "rate limited")
    (demo FromReadline [] [] [] []) =
  (Normal tt,
   withEvents [ConsoleError "Error 429 Too Many Requests: rate limited"]
     (demo FromReadline [] [] [] [])).
Proof.
  exact (reportError_structured (httpError 429 "Too Many Requests" "rate limited")
    _ _ _ "rate limited" (demo FromReadline [] [] [] [])
    eq_refl eq_refl eq_refl eq_refl eq_refl).
Defined.

Lemma chat_interactive_witness :
  (chat 3 (demo FromReadline [] [] ["hello"; "reset"]
             [reply (assistant "hi")])).1 = Normal Suspended.
Proof.
  exact (f_equal fst (chat_interactive 3
    (demo FromReadline [] [] ["hello"; "reset"] [reply (assistant "hi")])
    eq_refl ltac:(simpl; lia))).
Defined.

Lemma chat_single_shot_witness :
  (chat 2 (demo FromArg [] ["what"; "is"; "2+2"] [] [reply (assistant "4")])).1 =
  Normal Finished.
Proof.
  exact (f_equal fst (chat_single_shot 2
    (demo FromArg [] ["what"; "is"; "2+2"] [] [reply (assistant "4")])
    eq_refl ltac:(lia))).
Defined.
