(* ===== verification/Main.v ===== *)
(** * The script

    The top level of [src/index.js]: the check of the credential (lines
    11-16), the choice of the prompt source (lines 130-132), the
    construction and initialisation of the session (lines 134-140), and the
    run of [chat] with the two continuations that end the process (lines
    142-148).

    A run of the script ends in one of three ways: [process.exit(code)] is
    called; the script is left waiting for a line that never comes, and the
    process ends because nothing is left to do ([Idle]); or the fuel of the
    model ran out ([Running]), which enough fuel excludes. *)

From S2P Require Import Prelude JsString Message Json Runtime Stubs PromptSource ChatSession.

(** ** Data *)

Inductive ExitStatus :=
| Exited (code : nat)
| Idle
| Running.

(** The exit code of a process that ends with nothing left to do. *)
Definition idleExitCode : nat := 0.

(** The exit code of the process, once it has ended. *)
Definition exitCode (s : ExitStatus) : option nat :=
  match s with
  | Exited code => Some code
  | Idle => Some idleExitCode
  | Running => None
  end.

(** The diagnostic of line 14. *)
Definition MISSING_KEY : string :=
  "Error: OPENAI_API_KEY environment variable is not set.".

Section script.
Context {F R : Type} `{!FileSystem F, !RemoteApi R}.

(** The session of lines 134-140, constructed and initialised, in its
    world. *)
Definition boot (apiKey : string) (w : World F R) : Machine F R :=
  let chat :=
    newOpenAiChat {| opt_promptSource := promptSource (argv w);
                     opt_model := CHAT_OPENAI_MODEL (env w);
                     opt_openaiApiKey := apiKey |} in
  (_initialize (mkMachine chat w)).2.

(** The continuations of lines 143-148, on the completion of [chat]. *)
Definition settle (r : Completion LoopEnd * Machine F R) : ExitStatus * World F R :=
  match r with
  | (Normal Finished, m) => (Exited 0, world m)
  | (Normal Suspended, m) => (Idle, world m)
  | (Normal OutOfFuel, m) => (Running, world m)
  | (Throw err, m) => (Exited 1, (console_error_object err (world m)).2)
  end.

(** The script, from its first line to the end of the process. *)
Definition main (fuel : nat) (w : World F R) : ExitStatus * World F R :=
  match OPENAI_API_KEY (env w) with
  | Some apiKey =>
      if truthy apiKey then settle (chat fuel (boot apiKey w))
      else (Exited 1, (console_error MISSING_KEY w).2)
  | None => (Exited 1, (console_error MISSING_KEY w).2)
  end.

(** A session in its process as the script sets it up: the model is not
    empty, the credential is the one of the environment and is not empty,
    the client exists and holds that credential, and the prompt source is
    the one the arguments select. *)
Record configured (m : Machine F R) : Prop := {
  configured_model :
    _model (self m) = orElse (CHAT_OPENAI_MODEL (env (world m))) CHAT_DEFAULT_MODEL;
  configured_model_truthy : truthy (_model (self m)) = true;
  configured_key : OPENAI_API_KEY (env (world m)) = Some (_openaiApiKey (self m));
  configured_key_truthy : truthy (_openaiApiKey (self m)) = true;
  configured_client :
    _openai (self m) = Some {| configuration := {| apiKey := _openaiApiKey (self m) |} |};
  configured_source : _promptSource (self m) = promptSource (argv (world m))
}.

End script.

(** ** Start-up *)

Section startup.
Context {F R : Type} `{!FileSystem F, !RemoteApi R}.
Implicit Types (w : World F R).

Lemma boot_history apiKey w : history (boot apiKey w) = [].
Proof. done. Qed.

Lemma boot_world apiKey w : world (boot apiKey w) = w.
Proof. done. Qed.

Lemma boot_config apiKey w :
  config (self (boot apiKey w)) =
  (orElse (CHAT_OPENAI_MODEL (env w)) CHAT_DEFAULT_MODEL,
   promptSource (argv w), apiKey,
   Some {| configuration := {| apiKey := apiKey |} |}).
Proof. done. Qed.

(** The model of the session is never empty. *)
Lemma boot_model_truthy apiKey w : truthy (_model (self (boot apiKey w))) = true.
Proof. by apply orElse_truthy. Qed.

Lemma boot_configured apiKey w :
  OPENAI_API_KEY (env w) = Some apiKey → truthy apiKey = true →
  configured (boot apiKey w).
Proof. intros Hk Ht. split; try done. by apply orElse_truthy. Qed.

Lemma handlePrompt_keeps v : preserves steady (handlePrompt (F:=F) (R:=R) v).
Proof. unfold_methods. solve_preserves. Qed.

Lemma chat_keeps fuel : preserves steady (chat (F:=F) (R:=R) fuel).
Proof. unfold chat. solve_preserves. apply forAwait_steady, iteration_steady. Qed.

(** What is steady keeps the set-up. *)
Lemma steady_configured (m m' : Machine F R) :
  steady m m' → configured m → configured m'.
Proof.
  intros [Hc [Hos Henv Hargv _ _ _]] [? ? ? ? ? ?].
  unfold config in Hc. simplify_eq. split; congruence.
Qed.

(** C30: The set-up of the session is an invariant of the script: it holds
    once the session is constructed and initialised with the credential of
    the environment, and every call of [handlePrompt] and every run of
    [chat] keep it, whatever the prompts, the remote service and the file
    system do.  In particular the client exists whenever it is called, and
    the model sent is never empty. *)
Theorem configured_invariant apiKey w fuel v :
  OPENAI_API_KEY (env w) = Some apiKey → truthy apiKey = true →
  configured (boot apiKey w) ∧
  (∀ m : Machine F R, configured m →
     configured (handlePrompt v m).2 ∧ configured (chat fuel m).2 ∧
     branch v m ≠ BUninitialized).
Proof.
  intros Hk Ht. split; [by apply boot_configured|]. intros m Hm.
  split; [|split].
  - exact (steady_configured m _ (handlePrompt_keeps v m) Hm).
  - exact (steady_configured m _ (chat_keeps fuel m) Hm).
  - unfold branch. rewrite (configured_client m Hm). by repeat case_match.
Qed.

(** C28: Without a credential ([OPENAI_API_KEY] unset or empty) the script
    prints its diagnostic on standard error and exits with code 1 before
    anything else happens: no prompt is read, no request is sent, no file is
    written. *)
Theorem main_missing_key fuel w :
  truthyOpt (OPENAI_API_KEY (env w)) = false →
  main fuel w = (Exited 1, set_trace (trace w ++ [ConsoleError MISSING_KEY]) w).
Proof.
  unfold main. destruct (OPENAI_API_KEY (env w)) as [k|]; simpl; [|done].
  by intros ->.
Qed.

(** C27: With a credential and enough fuel the script ends, whatever the
    prompts are and whatever the remote service and the file system do: in
    argument mode with exit code 0, by [process.exit(0)]; in interactive
    mode by running out of work, when the last query stays open; and, when
    the question throws on an interface that is closed, with exit code 1,
    by the rejection branch of line 145, the error being the last thing
    written.  No error of a prompt leads to that branch. *)
Theorem main_exit_code fuel w :
  truthyOpt (OPENAI_API_KEY (env w)) = true →
  length (stdin w) + 1 < fuel →
  (main fuel w).1 =
    (if decide (promptSource (argv w) = FromArg) then Exited 0
     else match closed w with None => Idle | Some _ => Exited 1 end) ∧
  (∀ err, promptSource (argv w) = FromReadline → closed w = Some err →
          last (trace (main fuel w).2) = Some (ConsoleErrorObject err)).
Proof.
  unfold main. destruct (OPENAI_API_KEY (env w)) as [k|]; simpl; [|done].
  intros -> Hfuel. rewrite chat_unfold. simpl. case_decide as Hsrc.
  - rewrite Hsrc. destruct fuel as [|[|fuel]]; [lia..|].
    rewrite forAwait_single_shot. by split.
  - rewrite forAwait_interactive; [| |simpl; lia];
      [|simpl; by destruct (promptSource (argv w))].
    unfold inputEnd. rewrite foldl_turn_closed. simpl.
    destruct (closed w) as [err|]; [|by split]. split; [done|].
    intros ? _ [= <-]. simpl. apply last_snoc.
Qed.

(** C29: Arguments that are white space only select argument mode and
    give the empty prompt, which [handlePrompt] rejects; the loop reports
    the error and ends, and the script exits with code 0.  Nothing is read,
    sent or written: the trace is the greeting followed by the error. *)
Theorem main_blank_arguments fuel w :
  truthyOpt (OPENAI_API_KEY (env w)) = true →
  2 < length (argv w) → argPrompt (argv w) = "" → 2 ≤ fuel →
  main fuel w =
  (Exited 0,
   set_trace (trace w ++ [ConsoleLog WELCOME;
                          ConsoleErrorObject (Error "Invalid prompt .")]) w).
Proof.
  unfold main. destruct (OPENAI_API_KEY (env w)) as [k|]; simpl; [|done].
  intros -> Hargs%promptSource_FromArg Hblank Hfuel. rewrite chat_unfold. simpl.
  rewrite Hargs. destruct fuel as [|[|fuel]]; [lia..|].
  rewrite forAwait_single_shot. simpl. rewrite Hblank.
  unfold iteration, tryCatch. rewrite run_invalid by done. simpl.
  by rewrite <- (assoc_L (++)).
Qed.

End startup.

(** ** The theorems at concrete runs *)

Lemma main_missing_key_witness :
  (main 5 (posixWorld noEnv [] ["hello"] [reply (assistant "hi")])).1 = Exited 1.
Proof.
  exact (f_equal fst (main_missing_key 5
    (posixWorld noEnv [] ["hello"] [reply (assistant "hi")]) eq_refl)).
Defined.

Lemma main_blank_arguments_witness :
  main 2 (posixWorld (keyEnv "sk-demo") [" "; ""] [] [reply (assistant "hi")]) =
  (Exited 0,
   set_trace [ConsoleLog WELCOME; ConsoleErrorObject (Error "Invalid prompt .")]
     (posixWorld (keyEnv "sk-demo") [" "; ""] [] [reply (assistant "hi")])).
Proof.
  exact (main_blank_arguments 2
    (posixWorld (keyEnv "sk-demo") [" "; ""] [] [reply (assistant "hi")])
    eq_refl ltac:(simpl; lia) eq_refl ltac:(lia)).
Defined.

Lemma main_exit_code_witness :
  (main 5 (posixWorld (keyEnv "sk-demo") ["what"; "is"; "2+2"] [] [networkFailure])).1 =
  Exited 0.
Proof.
  exact (proj1 (main_exit_code 5
    (posixWorld (keyEnv "sk-demo") ["what"; "is"; "2+2"] [] [networkFailure])
    eq_refl ltac:(simpl; lia))).
Defined.

Lemma configured_invariant_witness :
  configured (boot "sk-demo" (posixWorld (keyEnv "sk-demo") [] ["hello"] [networkFailure])) ∧
  (∀ m : Machine MemFs Script, configured m →
     configured (handlePrompt (JsStr "hello") m).2 ∧ configured (chat 2 m).2 ∧
     branch (JsStr "hello") m ≠ BUninitialized).
Proof.
  exact (configured_invariant "sk-demo"
    (posixWorld (keyEnv "sk-demo") [] ["hello"] [networkFailure]) 2 (JsStr "hello")
    eq_refl eq_refl).
Defined.
