(* ===== verification/Spec.v ===== *)
(** * An abstract specification of the session, and its refinement

    What the session promises, stated on the conversation alone: a
    conversation is a list of messages, and each prompt performs one
    [Action] on it.  The relation [step] says which actions a prompt can
    perform from which conversation and what they leave: the prompt is the
    input, the action the output, and the only choice left open is what the
    file system and the remote service do.  [steps] is a run.

    The refinement theorems say that [handlePrompt] performs exactly one
    [step], with the completion that the action prescribes, and that a run of
    [chat] performs one [step] per prompt, in the order of the prompts.
    Properties of conversations are then proved on [steps], by induction on
    the run, and transferred to the program. *)

From S2P Require Import Prelude JsString Message Json Runtime Stubs PromptSource ChatSession.

(** ** The abstract machine *)

(** What one prompt does to the conversation. *)
Inductive Action :=
| Rejected (v : JsVal)
| Saved (file : string) (failure : option JsError)
| Cleared
| Exchanged (prompt : string) (answer : Message)
| Unanswered (prompt : string) (err : JsError).

(** The completion an action prescribes. *)
Definition completionOf (a : Action) : Completion unit :=
  match a with
  | Rejected v => Throw (Error ("Invalid prompt " +:+ toString v +:+ "."))
  | Saved _ (Some err) => Throw err
  | Unanswered _ err => Throw err
  | Saved _ None | Cleared | Exchanged _ _ => Normal tt
  end.

(** The steps of the abstract machine: from a conversation, on a prompt,
    an action and the conversation it leaves. *)
Inductive step : list Message → JsVal → Action → list Message → Prop :=
| step_rejected v h :
    toBoolean v = false → step h v (Rejected v) h
| step_saved p failure h :
    startsWith p CHAT_COMMAND_SAVE_TO = true →
    step h (JsStr p) (Saved (substring 8 p) failure) h
| step_cleared p h :
    startsWith p CHAT_COMMAND_SAVE_TO = false →
    startsWith p CHAT_COMMAND_RESET_CHAT = true →
    step h (JsStr p) Cleared []
| step_exchanged p answer h :
    truthy p = true → isCommand p = false →
    step h (JsStr p) (Exchanged p answer) (h ++ [userMessage p; answer])
| step_unanswered p err h :
    truthy p = true → isCommand p = false →
    step h (JsStr p) (Unanswered p err) (h ++ [userMessage p]).

(** A run of the abstract machine: one action per prompt. *)
Inductive steps : list Message → list JsVal → list Action → list Message → Prop :=
| steps_nil h : steps h [] [] h
| steps_cons h v a h' vs acts h'' :
    step h v a h' → steps h' vs acts h'' → steps h (v :: vs) (a :: acts) h''.

(** An exchange in which the answer has the role of the assistant, or an
    action that adds nothing. *)
Definition regular (a : Action) : bool :=
  match a with
  | Exchanged _ answer => bool_decide (role answer = "assistant")
  | Unanswered _ _ => false
  | _ => true
  end.

(** A conversation in which user and assistant alternate, the user first,
    and the assistant has answered last. *)
Definition wellFormed (h : list Message) : Prop :=
  alternates true h = true ∧ Nat.even (length h) = true.

(** The growth of the conversation in one action. *)
Definition growth (a : Action) : nat :=
  match a with
  | Exchanged _ _ => 2
  | Unanswered _ _ => 1
  | _ => 0
  end.

(** ** Runs *)

Lemma steps_app h1 vs1 acts1 h2 vs2 acts2 h3 :
  steps h1 vs1 acts1 h2 → steps h2 vs2 acts2 h3 →
  steps h1 (vs1 ++ vs2) (acts1 ++ acts2) h3.
Proof. induction 1; simpl; [done|]. intros. econstructor; eauto. Qed.

Lemma steps_snoc h1 vs acts h2 v a h3 :
  steps h1 vs acts h2 → step h2 v a h3 → steps h1 (vs ++ [v]) (acts ++ [a]) h3.
Proof. intros H1 H2. eapply steps_app; [done|]. repeat econstructor; done. Qed.

Lemma steps_length h vs acts h' : steps h vs acts h' → length acts = length vs.
Proof. induction 1; simpl; congruence. Qed.

(** ** Properties of the abstract machine *)

Lemma step_deterministic h v a h1 h2 : step h v a h1 → step h v a h2 → h1 = h2.
Proof. by destruct 1; inversion 1. Qed.

Lemma step_length h v a h' :
  step h v a h' → a = Cleared ∧ h' = [] ∨ length h' = length h + growth a.
Proof. destruct 1; simpl; rewrite ?length_app; simpl; auto with lia. Qed.

Lemma step_prefix h v a h' : step h v a h' → a = Cleared ∨ h `prefix_of` h'.
Proof. destruct 1; auto; right; by apply prefix_app_r. Qed.

(** A prompt that clears the conversation. *)
Definition resets (v : JsVal) : bool :=
  match v with
  | JsStr p => startsWith p CHAT_COMMAND_RESET_CHAT
  | _ => false
  end.

Lemma existsb_resets (ps : list string) :
  existsb resets (JsStr <$> ps) = existsb (λ p, startsWith p CHAT_COMMAND_RESET_CHAT) ps.
Proof. induction ps as [|p ps IH]; simpl; [done|f_equal; exact IH]. Qed.

Lemma step_bound h v a h' : step h v a h' → length h' ≤ length h + 2.
Proof.
  intros [[_ ->]|Hl]%step_length; simpl; [lia|]. rewrite Hl. destruct a; simpl; lia.
Qed.

Lemma step_grows h v a h' : step h v a h' → resets v = false → h `prefix_of` h'.
Proof. destruct 1; simpl; intros; try done; try congruence; by apply prefix_app_r. Qed.

Lemma steps_bound h vs acts h' :
  steps h vs acts h' → length h' ≤ length h + 2 * length vs.
Proof.
  induction 1 as [|h v a h1 vs acts h2 Hstep%step_bound _ IH]; simpl; lia.
Qed.

Lemma steps_grow h vs acts h' :
  steps h vs acts h' → existsb resets vs = false → h `prefix_of` h'.
Proof.
  induction 1 as [|h v a h1 vs acts h2 Hstep _ IH]; simpl; [done|].
  intros [Hv Hvs]%orb_false_elim. etrans; [by eapply step_grows|by apply IH].
Qed.

Lemma wellFormed_nil : wellFormed [].
Proof. done. Qed.

Lemma wellFormed_exchange h p answer :
  wellFormed h → role answer = "assistant" →
  wellFormed (h ++ [userMessage p; answer]).
Proof.
  intros [Ha He] Hr. split.
  - rewrite alternates_app, Ha, He. simpl. by rewrite Hr.
  - rewrite length_app. simpl. rewrite Nat.add_comm. simpl. done.
Qed.

Lemma step_wellFormed h v a h' :
  step h v a h' → regular a = true → wellFormed h → wellFormed h'.
Proof.
  destruct 1; simpl; intros Hreg Hwf; try done.
  apply wellFormed_exchange; [done|]. by apply bool_decide_eq_true in Hreg.
Qed.

(** A prompt that is sent stays in the conversation, answered or not. *)
Lemma step_sendable h q a h' :
  step h (JsStr q) a h' → truthy q = true → isCommand q = false →
  (h ++ [userMessage q]) `prefix_of` h'.
Proof.
  inversion 1; subst; simpl in *; intros Ht [Hs Hr]%orb_false_elim; try congruence.
  - exists [answer]. by rewrite <- (assoc_L (++)).
  - done.
Qed.

Lemma wellFormed_two_users h p q :
  wellFormed h → alternates true (h ++ [userMessage p; userMessage q]) = false.
Proof. intros [Ha He]. by rewrite alternates_app, Ha, He. Qed.

(** ** Refinement *)

Section refinement.
Context {F R : Type} `{!FileSystem F, !RemoteApi R}.
Implicit Types (m : Machine F R) (p : string) (v : JsVal).

(** The action on an answer of the remote service. *)
Definition answered (p : string) (r : ApiResult) : Action :=
  match r with
  | inl err => Unanswered p err
  | inr d =>
      match choices d with
      | [] => Unanswered p noChoice
      | c :: _ => Exchanged p (choice_message c)
      end
  end.

(** The action [handlePrompt v] performs from the machine [m]. *)
Definition actionOf (v : JsVal) (m : Machine F R) : Action :=
  match v, branch v m with
  | JsStr p, BSave =>
      let file := substring 8 p in
      Saved file (writeFile file (transcript (os (world m)) (history m)) (fs (world m))).1
  | JsStr p, BReset => Cleared
  | JsStr p, BSend =>
      match _openai (self m) with
      | Some api =>
          answered p (createChatCompletion (apiKey (configuration api))
                        (requestFor m p) (remote (world m))).1
      | None => Unanswered p notInitialized
      end
  | JsStr p, BUninitialized => Unanswered p notInitialized
  | _, _ => Rejected v
  end.

Lemma handlePrompt_actionOf v m :
  step (history m) v (actionOf v m) (history (handlePrompt v m).2) ∧
  (handlePrompt v m).1 = completionOf (actionOf v m).
Proof.
  unfold actionOf, branch, answered.
  handle_cases v m; simpl; repeat case_match; simplify_eq/=; split; try done;
    try (by constructor); unfold push; rewrite <- ?(assoc_L (++)); simpl;
    by constructor; unfold isCommand; rewrite ?orb_false_iff.
Qed.

Lemma reportError_self err m : self (reportError err m).2 = self m.
Proof. unfold reportError. by repeat case_match. Qed.

Lemma iteration_history p m :
  history (iteration p m).2 = history (handlePrompt (JsStr p) m).2.
Proof.
  unfold iteration, tryCatch, history.
  destruct (handlePrompt (JsStr p) m) as [[[]|err] m']; [done|].
  by rewrite reportError_self.
Qed.

Lemma turn_once p m :
  ∃ a, step (history m) (JsStr p) a (history (iteration p m).2).
Proof.
  rewrite iteration_history. eexists. apply (handlePrompt_actionOf (JsStr p) m).
Qed.

Lemma turn_step m line :
  ∃ a, step (history m) (JsStr line) a (history (turn m line)).
Proof.
  apply (turn_once line
    (withEvents [Question "> "; Input line] (withInput (tail (stdin (world m))) m))).
Qed.

Lemma foldl_turn_steps m lines :
  ∃ acts, steps (history m) (JsStr <$> lines) acts (history (foldl turn m lines)).
Proof.
  revert m. induction lines as [|line lines IH]; intros m; simpl.
  - exists []. constructor.
  - destruct (turn_step m line) as [a Ha].
    destruct (IH (turn m line)) as (acts & Hsteps).
    exists (a :: acts). by econstructor.
Qed.

(** C7: [handlePrompt] refines the abstract machine: from every machine
    and for every prompt it performs one step of the abstract machine on the
    history, a step that the machine allows for that prompt, and completes
    as the action of that step prescribes. *)
Theorem handlePrompt_refines v m :
  ∃ a, step (history m) v a (history (handlePrompt v m).2) ∧
       (handlePrompt v m).1 = completionOf a.
Proof. exists (actionOf v m). apply handlePrompt_actionOf. Qed.

(** The prompts of a run: the one of the command line, or the lines of
    standard input. *)
Definition prompts (m : Machine F R) : list string :=
  match _promptSource (self m) with
  | FromArg => [argPrompt (argv (world m))]
  | FromReadline => stdin (world m)
  end.

Lemma chat_steps fuel m :
  length (prompts m) < fuel →
  ∃ acts, steps (history m) (JsStr <$> prompts m) acts (history (chat fuel m).2).
Proof.
  unfold prompts. intros Hfuel. rewrite chat_unfold.
  destruct (_promptSource (self m)) eqn:Hsrc.
  - destruct fuel as [|[|fuel]]; [simpl in Hfuel; lia..|].
    rewrite forAwait_single_shot.
    destruct (turn_once (argPrompt (argv (world m))) (withEvents [ConsoleLog WELCOME] m))
      as [a Ha].
    exists [a]. repeat econstructor. exact Ha.
  - rewrite forAwait_interactive by done. unfold history. rewrite inputEnd_self.
    apply (foldl_turn_steps (withEvents [ConsoleLog WELCOME] m)).
Qed.

(** C8: A run of [chat] refines a run of the abstract machine: with more
    fuel than there are prompts, the history it leaves is reached from the
    initial history by the run of the abstract machine on the prompts (the
    one of the command line, or the lines of standard input), one step per
    prompt, in their order. *)
Theorem chat_refines fuel m :
  length (prompts m) < fuel →
  ∃ acts, steps (history m) (JsStr <$> prompts m) acts (history (chat fuel m).2).
Proof. apply chat_steps. Qed.

(** C31: The history of a run is bounded by its prompts: a run of [chat]
    with more fuel than it has prompts adds at most two messages per
    prompt, and when no prompt starts with [reset] the history it leaves
    extends the history it started from, so the requests of a session only
    grow until the user resets it. *)
Theorem chat_history_bounds fuel m :
  length (prompts m) < fuel →
  length (history (chat fuel m).2) ≤ length (history m) + 2 * length (prompts m) ∧
  (existsb (λ p, startsWith p CHAT_COMMAND_RESET_CHAT) (prompts m) = false →
   history m `prefix_of` history (chat fuel m).2).
Proof.
  intros [acts Hsteps]%chat_steps. split.
  - apply steps_bound in Hsteps. by rewrite length_fmap in Hsteps.
  - intros Hno. eapply steps_grow; [done|]. by rewrite existsb_resets.
Qed.

(** C19: A failed call breaks the alternation of roles, and only a reset
    repairs it.  From a well-formed history, when the call for a prompt [p]
    fails, the user message stays; the request that [handlePrompt] then
    sends for the next prompt [q] carries the two user messages in a row,
    after the history from before; the history that this second call
    leaves, whether it is answered or not, does not alternate; and no run
    of [chat] from that history whose prompts hold no [reset] leaves a
    history that alternates. *)
Theorem unanswered_breaks_alternation m api p err r q :
  wellFormed (history m) →
  truthy p = true → isCommand p = false → _openai (self m) = Some api →
  createChatCompletion (apiKey (configuration api)) (requestFor m p)
    (remote (world m)) = (inl err, r) →
  truthy q = true → isCommand q = false →
  let m1 := (handlePrompt (JsStr p) m).2 in
  let m2 := (handlePrompt (JsStr q) m1).2 in
  req_messages (requestFor m1 q) = history m ++ [userMessage p; userMessage q] ∧
  Request (apiKey (configuration api)) (requestFor m1 q) ∈ trace (world m2) ∧
  alternates true (history m2) = false ∧
  ∀ fuel m3,
    history m3 = history m2 → length (prompts m3) < fuel →
    existsb (λ p, startsWith p CHAT_COMMAND_RESET_CHAT) (prompts m3) = false →
    alternates true (history (chat fuel m3).2) = false.
Proof.
  intros Hwf Hp Hcp Hapi Hcall Hq Hcq m1 m2.
  pose proof (run_send p m api Hp Hcp Hapi) as Hrun. cbv zeta in Hrun.
  rewrite Hcall in Hrun. simpl in Hrun.
  assert (history m1 = history m ++ [userMessage p]) as Hh1
    by (subst m1; by rewrite Hrun).
  assert (_openai (self m1) = Some api) as Hapi1 by (subst m1; by rewrite Hrun).
  assert (alternates true (history m2) = false) as Hbroken.
  { destruct (handlePrompt_actionOf (JsStr q) m1) as [Hstep _].
    eapply alternates_prefix; [|exact (step_sendable _ _ _ _ Hstep Hq Hcq)].
    rewrite Hh1, <- (assoc_L (++)). by apply wellFormed_two_users. }
  split_and!; [| |done|].
  - unfold requestFor, push. simpl. by rewrite Hh1, <- (assoc_L (++)).
  - subst m2. rewrite (run_send q m1 api Hq Hcq Hapi1). cbv zeta.
    destruct (createChatCompletion _ (requestFor m1 q) _) as [[e|[[|c cs]]] r']; simpl;
      rewrite ?elem_of_app, ?elem_of_cons; naive_solver.
  - intros fuel m3 Hh Hlen Hno. destruct (chat_steps fuel m3 Hlen) as [acts Hs].
    eapply alternates_prefix; [|eapply steps_grow; [exact Hs|by rewrite existsb_resets]].
    by rewrite Hh.
Qed.

End refinement.

(** ** Invariants of the abstract machine *)

(** On the abstract machine, a run made of regular actions only
    (rejections, saves, resets, and exchanges answered in the role of the
    assistant) keeps the conversation well formed: user and assistant
    alternate, the user first, the assistant last. *)
Lemma steps_wellFormed h vs acts h' :
  steps h vs acts h' → forallb regular acts = true → wellFormed h → wellFormed h'.
Proof.
  induction 1 as [|h v a h1 vs acts h2 Hstep _ IH]; simpl; [done|].
  intros [Ha Hacts]%andb_prop Hwf. eauto using step_wellFormed.
Qed.

(** ** The theorems at concrete runs *)

Lemma chat_refines_witness :
  ∃ acts,
    steps [] [JsStr "hello"; JsStr "reset"] acts
      (history (chat 3 (demo FromReadline [] [] ["hello"; "reset"]
                          [reply (assistant "hi")])).2).
Proof.
  exact (chat_refines 3
    (demo FromReadline [] [] ["hello"; "reset"] [reply (assistant "hi")])
    ltac:(simpl; lia)).
Defined.

Lemma chat_history_bounds_witness :
  length (history (chat 3 (demo FromReadline greeting [] ["hello"; "again"]
                             [networkFailure; reply (assistant "hi")])).2) ≤
  length greeting + 2 * 2 ∧
  (existsb (λ p, startsWith p CHAT_COMMAND_RESET_CHAT) ["hello"; "again"] = false →
   greeting `prefix_of`
     history (chat 3 (demo FromReadline greeting [] ["hello"; "again"]
                        [networkFailure; reply (assistant "hi")])).2).
Proof.
  exact (chat_history_bounds 3
    (demo FromReadline greeting [] ["hello"; "again"]
       [networkFailure; reply (assistant "hi")])
    ltac:(simpl; lia)).
Defined.

Lemma unanswered_breaks_alternation_witness :
  alternates true
    (history (handlePrompt (JsStr "again")
                (handlePrompt (JsStr "hello")
                   (demo FromReadline [] [] []
                      [networkFailure; reply (assistant "hi")])).2).2) = false.
Proof.
  exact (proj1 (proj2 (proj2 (unanswered_breaks_alternation
    (demo FromReadline [] [] [] [networkFailure; reply (assistant "hi")])
    _ "hello" _ _ "again" wellFormed_nil eq_refl eq_refl eq_refl eq_refl eq_refl eq_refl)))).
Defined.

(** ** From the abstract machine to the program *)

Section transfer.
Context {F R : Type} `{!FileSystem F, !RemoteApi R}.
Implicit Types (m : Machine F R) (p : string) (v : JsVal).

(** A remote service that always answers, in the role of the assistant. *)
Definition reliable : Prop :=
  ∀ key req (r : R), ∃ d c rest,
    (createChatCompletion key req r).1 = inr d ∧ choices d = c :: rest ∧
    role (choice_message c) = "assistant".

Lemma actionOf_regular v m :
  reliable → is_Some (_openai (self m)) → regular (actionOf v m) = true.
Proof.
  intros Hrel [api Hapi]. unfold actionOf, branch. rewrite Hapi.
  destruct v as [| |p]; try done. repeat case_match; try done.
  destruct (Hrel (apiKey (configuration api)) (requestFor m p) (remote (world m)))
    as (d & c & rest & -> & Hc & Hrole).
  simpl. rewrite Hc. by apply bool_decide_eq_true.
Qed.

Lemma turn_wellFormed m line :
  reliable → is_Some (_openai (self m)) → wellFormed (history m) →
  is_Some (_openai (self (turn m line))) ∧ wellFormed (history (turn m line)).
Proof.
  intros Hrel Hinit Hwf. unfold turn.
  set (m1 := withEvents _ _).
  split.
  - pose proof (steady_config _ _ (iteration_steady line m1)) as Hc.
    unfold config in Hc. injection Hc as _ _ _ ->. exact Hinit.
  - rewrite iteration_history.
    eapply step_wellFormed; [apply (handlePrompt_actionOf (JsStr line) m1)| |done].
    by apply actionOf_regular.
Qed.

Lemma foldl_turn_wellFormed lines m :
  reliable → is_Some (_openai (self m)) → wellFormed (history m) →
  wellFormed (history (foldl turn m lines)).
Proof.
  intros Hrel. revert m. induction lines as [|line lines IH]; intros m Hinit Hwf;
    simpl; [done|].
  destruct (turn_wellFormed m line Hrel Hinit Hwf). by apply IH.
Qed.

(** C18: With a remote service that always answers in the role of the
    assistant, an interactive run of [chat] on an initialised session keeps
    the history well formed: whatever the lines typed (messages, commands,
    empty lines), user and assistant alternate in the history it leaves. *)
Theorem chat_wellFormed fuel m :
  reliable →
  _promptSource (self m) = FromReadline → length (stdin (world m)) < fuel →
  is_Some (_openai (self m)) → wellFormed (history m) →
  wellFormed (history (chat fuel m).2).
Proof.
  intros Hrel Hsrc Hfuel Hinit Hwf.
  rewrite chat_unfold, Hsrc, forAwait_interactive by done.
  unfold history. rewrite inputEnd_self.
  by apply (foldl_turn_wellFormed _ (withEvents [ConsoleLog WELCOME] m)).
Qed.

End transfer.

(** An interactive session on a service that answers every request. *)
Definition reliableDemo : Machine MemFs Helpful :=
  mkMachine (demoSession FromReadline [])
    (mkWorld POSIX (keyEnv "sk-demo") ["node"; "index.js"]
       ["hello"; ""; "save to out.txt"] None emptyFs
       (mkHelpful (λ _, "hi")) []).

Lemma chat_wellFormed_witness : wellFormed (history (chat 4 reliableDemo).2).
Proof.
  refine (chat_wellFormed 4 reliableDemo _ eq_refl ltac:(simpl; lia)
            (mk_is_Some _ _ eq_refl) wellFormed_nil).
  intros key req r. by eexists _, _, _.
Defined.
