(* ===== verification/Requests.v ===== *)
(** * What is sent to the remote service

    The requests of a whole run of [chat], whatever the prompts and whatever
    the service and the file system do: each carries the model the session
    was constructed with, and a history that ends with the prompt being
    handled, a prompt that is neither empty nor a command.  The property is
    a preorder on machines, preserved by every step of the loop. *)

From S2P Require Import Prelude JsString Message Json Runtime Stubs PromptSource ChatSession.

(** A request for the given model whose history ends with a user message
    that is neither empty nor a command. *)
Definition validRequest (model : string) (req : CreateChatCompletionRequest) : bool :=
  bool_decide (req_model req = model) &&
  match last (req_messages req) with
  | Some msg =>
      bool_decide (role msg = "user") && truthy (content msg) &&
      negb (isCommand (content msg))
  | None => false
  end.

(** The request that follows the push of a prompt to send is valid. *)
Lemma validRequest_push (model : string) (messages : list Message) (p : string) :
  truthy p = true → isCommand p = false →
  validRequest model
    {| req_model := model; req_messages := push messages (userMessage p) |} = true.
Proof.
  intros Ht Hc. unfold validRequest, push. simpl.
  rewrite last_snoc. simpl. by rewrite Ht, Hc, bool_decide_eq_true_2.
Qed.

(** The requests of a trace given as a concatenation, with the parts that
    hold no request removed. *)
Ltac requests_norm :=
  rewrite <- ?(assoc_L (++)), ?requests_app; simpl;
  repeat match goal with
         | |- context [omap ?f ?t] => progress change (omap f t) with (requests t)
         end;
  rewrite ?requests_debugEvents, ?(right_id_L [] (++)).

Section requests.
Context {F R : Type} `{!FileSystem F, !RemoteApi R}.
Implicit Types (m : Machine F R) (p : string) (v : JsVal).

(** From [m] to [m'] the model is kept and only valid requests are sent. *)
Record sendsValid (m m' : Machine F R) : Prop := {
  sends_model : _model (self m') = _model (self m);
  sends_requests :
    ∃ reqs, requests (trace (world m')) = requests (trace (world m)) ++ reqs ∧
            forallb (validRequest (_model (self m))) reqs = true
}.

#[export] Instance sendsValid_preorder : PreOrder sendsValid.
Proof.
  split.
  - intros m. split; [done|]. exists []. by rewrite (right_id_L [] (++)).
  - intros m1 m2 m3 [Hm12 (r12 & Hr12 & Hv12)] [Hm23 (r23 & Hr23 & Hv23)].
    split; [congruence|]. exists (r12 ++ r23).
    rewrite Hr23, Hr12, (assoc_L (++)), forallb_app, Hv12. by rewrite <- Hm12.
Qed.

(** Events that are no requests keep the property. *)
Lemma sendsValid_quiet m m' :
  _model (self m') = _model (self m) →
  requests (trace (world m')) = requests (trace (world m)) →
  sendsValid m m'.
Proof. intros Hm Hr. split; [done|]. exists []. by rewrite (right_id_L [] (++)). Qed.

Lemma validRequest_requestFor m p :
  truthy p = true → isCommand p = false →
  validRequest (_model (self m)) (requestFor m p) = true.
Proof. apply validRequest_push. Qed.

Lemma handlePrompt_sendsValid v : preserves sendsValid (handlePrompt (F:=F) (R:=R) v).
Proof.
  intros m. handle_cases v m; simpl; repeat case_match; simplify_eq/=;
    unfold withEvents, withFs, withHistory, withRemote; simpl;
    try (apply sendsValid_quiet; simpl; [done|]; by requests_norm);
    (split; [done|]; exists [requestFor m p]; simpl;
     rewrite validRequest_requestFor
       by (done || (unfold isCommand; by apply orb_false_intro));
     requests_norm; by split).
Qed.

Lemma reportError_sendsValid err : preserves sendsValid (reportError (F:=F) (R:=R) err).
Proof.
  intros m. apply sendsValid_quiet; unfold reportError; repeat case_match;
    munfold; simpl; try done; by requests_norm.
Qed.

Lemma iteration_sendsValid p : preserves sendsValid (iteration (F:=F) (R:=R) p).
Proof.
  unfold iteration.
  apply preserves_tryCatch;
    auto using handlePrompt_sendsValid, reportError_sendsValid with typeclass_instances.
Qed.

Lemma next_sendsValid g : preserves sendsValid (liftW (F:=F) (R:=R) (next g)).
Proof.
  intros m. apply sendsValid_quiet; unfold liftW, next, promptFromArg, promptFromReadline;
    munfold; simpl; repeat case_match; simplify_eq/=; try done; by requests_norm.
Qed.

Lemma forAwait_sendsValid fuel g :
  preserves sendsValid (forAwait (F:=F) (R:=R) fuel g iteration).
Proof.
  revert g. induction fuel as [|fuel IH]; intros g; simpl; [apply preserves_ret; apply _|].
  apply preserves_bind; [apply _|apply next_sendsValid|]. intros [[p| |] g'];
    [|apply preserves_ret; apply _..].
  apply preserves_bind; [apply _|apply iteration_sendsValid|done].
Qed.

(** C20: Whatever the prompts, the fuel, the answers of the remote service
    and the failures of the file system, every request that a run of [chat]
    sends carries the model the session was constructed with and a history
    that ends with a user message which is neither empty nor a command, and
    the session keeps that model. *)
Theorem chat_sendsValid fuel m :
  _model (self (chat fuel m).2) = _model (self m) ∧
  ∃ reqs,
    requests (trace (world (chat fuel m).2)) = requests (trace (world m)) ++ reqs ∧
    forallb (validRequest (_model (self m))) reqs = true.
Proof.
  rewrite chat_unfold.
  destruct (forAwait_sendsValid fuel (newGenerator (_promptSource (self m)))
              (withEvents [ConsoleLog WELCOME] m)) as [Hm (reqs & Hr & Hv)].
  split; [done|]. exists reqs. split; [|done].
  rewrite Hr. simpl. by requests_norm.
Qed.

End requests.
