(* ===== verification/Responses.v ===== *)
(** * Every prompt is answered

    The trace of an interactive run, line by line: each line read is
    followed by a response, the events of handling it, which hold at least
    one line of output (the answer, a confirmation or the report of an
    error) and no query; then the next query is asked.  No prompt is left
    without an answer on the terminal, and no query is asked before the
    answer to the previous line is out. *)

From S2P Require Import Prelude JsString Message Json Runtime Stubs PromptSource ChatSession.

(** ** Traces of a conversation *)

(** A line on standard output or standard error. *)
Definition isOutput (e : Event) : bool :=
  match e with
  | ConsoleLog _ | ConsoleError _ | ConsoleErrorObject _ => true
  | _ => false
  end.

(** A query, or the line that answers it. *)
Definition isPrompting (e : Event) : bool :=
  match e with
  | Question _ | Input _ => true
  | _ => false
  end.

(** Events without query. *)
Definition quiet (es : list Event) : bool := forallb (λ e, negb (isPrompting e)) es.

(** The events of handling one prompt: some output, and no query. *)
Definition response (es : list Event) : bool := existsb isOutput es && quiet es.

(** The trace of a conversation over the given lines: for each line the
    query, the line and a response; then the events [final] of the end of
    the input. *)
Inductive conversation (final : list Event) : list string → list Event → Prop :=
| conversation_end : conversation final [] final
| conversation_turn line lines es t :
    response es = true → conversation final lines t →
    conversation final (line :: lines) (Question "> " :: Input line :: es ++ t).

(** ** One prompt *)

Section responses.
Context {F R : Type} `{!FileSystem F, !RemoteApi R}.
Implicit Types (m : Machine F R) (p : string) (v : JsVal).

Lemma quiet_app es1 es2 : quiet (es1 ++ es2) = quiet es1 && quiet es2.
Proof. apply forallb_app. Qed.

Lemma quiet_debugEvents m line : quiet (debugEvents m line) = true.
Proof. unfold debugEvents. by case_match. Qed.

(** What [handlePrompt] adds to the trace holds no query, and holds some
    output when it completes normally. *)
Lemma handlePrompt_events v m :
  ∃ es, trace (world (handlePrompt v m).2) = trace (world m) ++ es ∧
        quiet es = true ∧
        (isNormal (handlePrompt v m).1 = true → existsb isOutput es = true).
Proof.
  handle_cases v m; simpl; repeat case_match; simplify_eq/=;
    unfold withEvents, withFs, withHistory, withRemote; simpl;
    rewrite <- ?(assoc_L (++));
    first [by exists []; rewrite (right_id_L [] (++))
          |eexists; split; [reflexivity|]];
    rewrite ?quiet_app, ?existsb_app, ?quiet_debugEvents; simpl;
    by rewrite ?quiet_debugEvents, ?orb_true_r.
Qed.

Lemma reportError_events err m :
  ∃ e, (reportError err m).2 = withEvents [e] m ∧ isOutput e = true ∧
       isPrompting e = false.
Proof. unfold reportError. repeat case_match; by eexists. Qed.

(** An iteration of the loop answers its prompt. *)
Lemma iteration_response p m :
  ∃ es, trace (world (iteration p m).2) = trace (world m) ++ es ∧ response es = true.
Proof.
  unfold iteration, tryCatch, response.
  destruct (handlePrompt_events (JsStr p) m) as (es & Ht & Hq & Ho).
  destruct (handlePrompt (JsStr p) m) as [[[]|err] m']; simpl in *.
  - exists es. by rewrite Ho, Hq.
  - destruct (reportError_events err m') as (e & -> & He & Hp).
    exists (es ++ [e]). simpl. rewrite Ht, (assoc_L (++)).
    split; [done|]. rewrite existsb_app, quiet_app, Hq. simpl.
    by rewrite He, Hp, orb_true_r.
Qed.

Lemma turn_response m line :
  ∃ es, trace (world (turn m line)) =
        trace (world m) ++ Question "> " :: Input line :: es ∧
        response es = true.
Proof.
  unfold turn.
  destruct (iteration_response line
    (withEvents [Question "> "; Input line] (withInput (tail (stdin (world m))) m)))
    as (es & Ht & Hr).
  exists es. rewrite Ht. simpl. by rewrite <- (assoc_L (++)).
Qed.

Lemma foldl_turn_conversation final lines m :
  ∃ t, trace (world (foldl turn m lines)) ++ final = trace (world m) ++ t ∧
       conversation final lines t.
Proof.
  revert m. induction lines as [|line lines IH]; intros m; simpl.
  - exists final. split; [done|constructor].
  - destruct (turn_response m line) as (es & Ht & Hr).
    destruct (IH (turn m line)) as (t & Hfold & Hconv).
    exists (Question "> " :: Input line :: es ++ t).
    split; [|by constructor].
    rewrite Hfold, Ht, <- (assoc_L (++)). done.
Qed.

(** C17: In an interactive run with more fuel than standard input has
    lines, every line read is answered before the next query: after the
    greeting the trace is, for each line in order, the query, the line, and
    a response holding at least one line of output and no query; the run
    ends on the query that stays open, or, on an interface that is closed,
    without another query. *)
Theorem chat_responsive fuel m :
  _promptSource (self m) = FromReadline → length (stdin (world m)) < fuel →
  ∃ t, trace (world (chat fuel m).2) = trace (world m) ++ ConsoleLog WELCOME :: t ∧
       conversation (openQuery (world m)) (stdin (world m)) t.
Proof.
  intros Hsrc Hfuel. rewrite chat_unfold, Hsrc, forAwait_interactive by done.
  destruct (foldl_turn_conversation (openQuery (world m)) (stdin (world m))
              (withEvents [ConsoleLog WELCOME] m)) as (t & Ht & Hconv).
  exists t. split; [|done]. simpl in *.
  rewrite (assoc_L (++) _ [ConsoleLog WELCOME] t), <- Ht.
  unfold inputEnd, openQuery. rewrite foldl_turn_closed. simpl.
  destruct (closed (world m)); simpl; by rewrite ?(right_id_L [] (++)).
Qed.

End responses.

(** ** The theorem at a concrete run *)

Lemma chat_responsive_witness :
  ∃ t, trace (world (chat 3 (demo FromReadline [] [] [""; "hello"] [networkFailure])).2) =
       [] ++ ConsoleLog WELCOME :: t ∧
       conversation [Question "> "] [""; "hello"] t.
Proof.
  exact (chat_responsive 3 (demo FromReadline [] [] [""; "hello"] [networkFailure])
           eq_refl ltac:(simpl; lia)).
Defined.
