(* ===== verification/Interaction.v ===== *)
(** * The script as an interaction tree

    [ChatSession] runs the script in a world and bounds the loop by fuel.
    Here the same methods of [src/index.js], and its top level, are written
    as interaction trees: the program alone, without a world and without
    fuel.  Each call
    that leaves the program ([console.log], [console.error], [rl.question],
    [fs.writeFile], [createChatCompletion], the reads of [process.env],
    [os.EOL] and [process.argv]) is an event [chatE], and the environment
    answers it; the object [this] is passed from one method to the next;
    the loop [for await] is [ITree.iter], so a run on an input that never
    ends is a tree that never ends.

    [handleWorld] answers the events from a [World], which gives the tree
    the meaning [ChatSession] gives the script. *)

From S2P Require Import Prelude JsString Message Json Runtime Stubs PromptSource ChatSession Main.
From ITree Require Import ITree Events.State.

(** ** Events *)

(** What the script asks of its environment, with the type of the answer.
    A question is answered by a line, or never ([None]), or by an error,
    when the interface is closed; a write and a request are answered by
    their failure or their result. *)
Variant chatE : Type → Type :=
| LogE (line : string) : chatE unit
| ErrorE (line : string) : chatE unit
| ErrorObjectE (err : JsError) : chatE unit
| QuestionE (query : string) : chatE (JsError + option string)
| WriteFileE (file data : string) : chatE (option JsError)
| CompletionE (key : string) (req : CreateChatCompletionRequest) : chatE ApiResult
| DebugE : chatE (option string)
| ApiKeyE : chatE (option string)
| ModelE : chatE (option string)
| PlatformE : chatE Platform
| ArgvE : chatE (list string).

(** Trees are written with the notations of the other computations of the
    development. *)
#[export] Instance itree_mret {E} : MRet (itree E) := λ A a, Ret a.
#[export] Instance itree_mbind {E} : MBind (itree E) := λ A B k t, ITree.bind t k.

(** A tree of the script, and the result of a method: how it completes and
    the object as it leaves it. *)
Local Abbreviation T := (itree chatE).
Local Abbreviation Outcome := (Completion unit * OpenAiChat)%type.

(** ** Methods *)

(** [if (process.env.DEBUG) console.log(line)] (lines 85-87, 94-96). *)
Definition debugLogT (line : string) : T unit :=
  d ← ITree.trigger DebugE;
  if truthyOpt d then ITree.trigger (LogE line) else mret tt.

(** [_transcript()] (lines 39-46). *)
Definition _transcriptT (this : OpenAiChat) : T string :=
  os ← ITree.trigger PlatformE;
  mret (transcript os (_messages this)).

(** [_resetChat()] (lines 48-51). *)
Definition _resetChatT (this : OpenAiChat) : T Outcome :=
  let this := set_messages (splice 0 (length (_messages this)) (_messages this)).2 this in
  ITree.trigger (LogE "Chat history has been reset.");;
  mret (Normal tt, this).

(** [_callOpenaiChatApi()] (lines 53-63). *)
Definition _callOpenaiChatApiT (this : OpenAiChat) : T (Completion Message) :=
  let req := {| req_model := _model this; req_messages := _messages this |} in
  match _openai this with
  | None => mret (Throw notInitialized)
  | Some api =>
      r ← ITree.trigger (CompletionE (apiKey (configuration api)) req);
      mret match r with
           | inl err => Throw err
           | inr data =>
               match choices data with
               | [] => Throw noChoice
               | c :: _ => Normal (choice_message c)
               end
           end
  end.

(** The [save to] branch of [handlePrompt] (lines 72-75). *)
Definition saveToT (prompt : string) (this : OpenAiChat) : T Outcome :=
  let filename := substring (String.length CHAT_COMMAND_SAVE_TO + 1) prompt in
  t ← _transcriptT this;
  r ← ITree.trigger (WriteFileE filename t);
  match r with
  | Some err => mret (Throw err, this)
  | None =>
      ITree.trigger (LogE ("Chat saved to " +:+ filename));;
      mret (Normal tt, this)
  end.

(** The last branch of [handlePrompt] (lines 83-96). *)
Definition sendT (prompt : string) (this : OpenAiChat) : T Outcome :=
  let userMessage := userMessage prompt in
  let this := set_messages (push (_messages this) userMessage) this in
  debugLogT (stringifyMessage userMessage);;
  r ← _callOpenaiChatApiT this;
  match r with
  | Throw err => mret (Throw err, this)
  | Normal answer =>
      let this := set_messages (push (_messages this) answer) this in
      ITree.trigger (LogE (content answer));;
      debugLogT (stringifyMessage answer);;
      mret (Normal tt, this)
  end.

(** [handlePrompt(prompt)] (lines 65-97). *)
Definition handlePromptT (prompt : JsVal) (this : OpenAiChat) : T Outcome :=
  if negb (toBoolean prompt)
  then mret (Throw (Error ("Invalid prompt " +:+ toString prompt +:+ ".")), this)
  else
    match prompt with
    | JsStr p =>
        if startsWith p CHAT_COMMAND_SAVE_TO then saveToT p this
        else if startsWith p CHAT_COMMAND_RESET_CHAT then _resetChatT this
        else sendT p this
    | _ => mret (Throw (TypeError "prompt.startsWith is not a function"), this)
    end.

(** The [catch] block of [chat] (lines 105-114). *)
Definition reportErrorT (err : JsError) : T unit :=
  match structuredError err with
  | Some (res, errMessage) =>
      ITree.trigger (ErrorE
        ("Error " +:+ numberToString (status res) +:+ " " +:+ statusText res +:+
         ": " +:+ errMessage))
  | None => ITree.trigger (ErrorObjectE err)
  end.

(** The body of the loop (lines 103-114). *)
Definition iterationT (prompt : string) (this : OpenAiChat) : T OpenAiChat :=
  '(r, this) ← handlePromptT (JsStr prompt) this;
  match r with
  | Normal _ => mret this
  | Throw err => reportErrorT err;; mret this
  end.

(** ** Prompt sources *)

(** [promptFromArg] (lines 125-127), resumed. *)
Definition promptFromArgT (g : Generator) : T (Completion IteratorResult) :=
  if started g then mret (Normal Done)
  else a ← ITree.trigger ArgvE; mret (Normal (Yielded (argPrompt a))).

(** [promptFromReadline] (lines 119-123), resumed: the error of the
    question is thrown by the generator. *)
Definition promptFromReadlineT (g : Generator) : T (Completion IteratorResult) :=
  r ← ITree.trigger (QuestionE "> ");
  mret (match r with
        | inr (Some line) => Normal (Yielded line)
        | inr None => Normal Pending
        | inl err => Throw err
        end).

(** [await gen.next()]. *)
Definition nextT (g : Generator) : T (Completion IteratorResult * Generator) :=
  r ← match source g with
      | FromArg => promptFromArgT g
      | FromReadline => promptFromReadlineT g
      end;
  mret (r, {| source := source g; started := true |}).

(** ** The loop *)

(** One pass of [for await] (lines 102-115): the generator is resumed; a
    prompt is handled and the loop goes on, or the loop ends: by the return
    of the generator, on a resumption that stays pending, or by the error
    the generator throws, which no [catch] of [chat] encloses. *)
Definition passT (st : Generator * OpenAiChat)
    : T (Generator * OpenAiChat + Completion LoopEnd * OpenAiChat) :=
  '(r, g) ← nextT st.1;
  match r with
  | Normal (Yielded prompt) => this ← iterationT prompt st.2; mret (inl (g, this))
  | Normal Done => mret (inr (Normal Finished, st.2))
  | Normal Pending => mret (inr (Normal Suspended, st.2))
  | Throw err => mret (inr (Throw err, st.2))
  end.

(** [chat()] (lines 99-116). *)
Definition chatT (this : OpenAiChat) : T (Completion LoopEnd * OpenAiChat) :=
  ITree.trigger (LogE WELCOME);;
  ITree.iter passT (newGenerator (_promptSource this), this).

(** ** The script *)

(** [_initialize()] (lines 32-37), on the object. *)
Definition _initializeT (this : OpenAiChat) : OpenAiChat :=
  set_openai (Some {| configuration := {| apiKey := _openaiApiKey this |} |}) this.

(** The set-up of the session (lines 130-140): the prompt source the
    arguments select, the model of the environment, the client. *)
Definition bootT (apiKey : string) : T OpenAiChat :=
  argv ← ITree.trigger ArgvE;
  model ← ITree.trigger ModelE;
  mret (_initializeT
          (newOpenAiChat {| opt_promptSource := promptSource argv;
                            opt_model := model;
                            opt_openaiApiKey := apiKey |})).

(** The continuations of lines 142-148.  The promise of [chat()] is
    fulfilled when the loop finishes, and the process exits with code 0; it
    stays pending when the loop is suspended, and no continuation runs; it
    is rejected when the loop throws, and the error is written before the
    process exits with code 1. *)
Definition settleT (r : Completion LoopEnd) : T ExitStatus :=
  match r with
  | Normal Finished => mret (Exited 0)
  | Normal Suspended => mret Idle
  | Normal OutOfFuel => mret Running
  | Throw err => ITree.trigger (ErrorObjectE err);; mret (Exited 1)
  end.

(** The script (lines 11-16, then the run). *)
Definition mainT : T ExitStatus :=
  apiKey ← ITree.trigger ApiKeyE;
  match apiKey with
  | Some apiKey =>
      if truthy apiKey then
        chat ← bootT apiKey;
        r ← chatT chat;
        settleT r.1
      else ITree.trigger (ErrorE MISSING_KEY);; mret (Exited 1)
  | None => ITree.trigger (ErrorE MISSING_KEY);; mret (Exited 1)
  end.

(** ** The events in a world *)

Section world.
Context {F R : Type} `{!FileSystem F, !RemoteApi R}.

(** The answer of the world [w] to an event, and the world it leaves. *)
Definition answer {X} (e : chatE X) (w : World F R) : World F R * X :=
  match e in chatE X return World F R * X with
  | LogE line => ((console_log line w).2, tt)
  | ErrorE line => ((console_error line w).2, tt)
  | ErrorObjectE err => ((console_error_object err w).2, tt)
  | QuestionE query =>
      let '(r, w) := rl_question query w in
      (w, match r with Normal o => inr o | Throw err => inl err end)
  | WriteFileE file data =>
      let '(r, w) := fs_writeFile file data w in
      (w, match r with Normal _ => None | Throw err => Some err end)
  | CompletionE key req =>
      let '(r, w) := openai_createChatCompletion key req w in
      (w, match r with Normal d => inr d | Throw err => inl err end)
  | DebugE => (w, DEBUG (env w))
  | ApiKeyE => (w, OPENAI_API_KEY (env w))
  | ModelE => (w, CHAT_OPENAI_MODEL (env w))
  | PlatformE => (w, os w)
  | ArgvE => (w, argv w)
  end.

(** The handler of the events: a world answers at once. *)
Definition handleWorld : chatE ~> Monads.stateT (World F R) (itree void1) :=
  λ _ e w, Ret (answer e w).

(** The script in a world. *)
Definition runT {X} (t : T X) (w : World F R) : itree void1 (World F R * X) :=
  interp_state handleWorld t w.

End world.
