(* ===== verification/Endings.v ===== *)
(** * How the loop can end, in every environment

    Properties of the tree of [Interaction] alone, for every way the
    environment may answer its events, an input that never ends included.
    They are postconditions in the program logic of the interaction trees
    library: [has_post t Q] says that [Q] holds of every result [t] can
    return.  The loop is handled by the rule for [ITree.iter], with an
    invariant on the generator and the object. *)

From S2P Require Import Prelude JsString Message Json Runtime Stubs PromptSource ChatSession Interaction.
From ITree Require Import ITree ITreeFacts Props.HasPost.

(** ** Rules *)

Lemma has_post_ret {E X} (x : X) (Q : X → Prop) : Q x → has_post (E:=E) (mret x) Q.
Proof. intros Hx. by apply eqit_Ret. Qed.

(** A postcondition that does not depend on what the environment answers
    is proved along the tree: through each event, and by cases where the
    tree makes a choice. *)
Ltac post_step :=
  lazymatch goal with
  | |- has_post (mret _) _ => apply has_post_ret
  | |- has_post (itree_mret _ _) _ => apply has_post_ret
  | |- has_post (_ ≫= _) _ => apply has_post_bind_weak; intros ?
  | |- has_post (itree_mbind _ _ _ _) _ => apply has_post_bind_weak; intros ?
  | |- has_post (match ?x with _ => _ end) _ => destruct x
  end.
Ltac post_run := cbv beta zeta; repeat (post_step; cbv beta zeta).

(** ** The methods keep the configuration *)

Lemma handlePromptT_post (v : JsVal) (this : OpenAiChat) :
  has_post (handlePromptT v this) (λ r, config r.2 = config this).
Proof.
  unfold handlePromptT, saveToT, _resetChatT, sendT. by post_run.
Qed.

Lemma iterationT_post (p : string) (this : OpenAiChat) :
  has_post (iterationT p this) (λ this', config this' = config this).
Proof.
  unfold iterationT. eapply has_post_bind; [apply handlePromptT_post|].
  intros [r this'] Hc. by post_run.
Qed.

(** ** The generators *)

(** What a resumption gives: the generator keeps its function; only the
    function of the command line returns, and only once it has yielded;
    only the interactive one stays pending or throws. *)
Definition resumed (g : Generator) (rg : Completion IteratorResult * Generator) : Prop :=
  source rg.2 = source g ∧ started rg.2 = true ∧
  match rg.1 with
  | Normal (Yielded _) => source g = FromArg → started g = false
  | Normal Done => source g = FromArg ∧ started g = true
  | Normal Pending | Throw _ => source g = FromReadline
  end.

Lemma promptFromArgT_post (g : Generator) :
  has_post (promptFromArgT g)
    (λ r, if started g then r = Normal Done else ∃ p, r = Normal (Yielded p)).
Proof. unfold promptFromArgT. destruct (started g); post_run; eauto. Qed.

Lemma promptFromReadlineT_post (g : Generator) :
  has_post (promptFromReadlineT g) (λ r, r ≠ Normal Done).
Proof. unfold promptFromReadlineT. post_run. by repeat case_match. Qed.

Lemma nextT_post (g : Generator) : has_post (nextT g) (resumed g).
Proof.
  unfold nextT, resumed. destruct (source g) eqn:Hs.
  - eapply has_post_bind; [apply promptFromArgT_post|].
    intros r Hr. apply has_post_ret. cbn.
    destruct (started g); [by subst r|by destruct Hr as [p ->]].
  - eapply has_post_bind; [apply promptFromReadlineT_post|].
    intros r Hr. apply has_post_ret. by destruct r as [[]|].
Qed.

(** ** The loop *)

(** The ends of the loop for a prompt source: the function of the command
    line returns; the interactive one never does, and the loop is left
    suspended on a query, or by the error of a question. *)
Definition endOf (src : PromptSource) (r : Completion LoopEnd) : Prop :=
  match src with
  | FromArg => r = Normal Finished
  | FromReadline => r = Normal Suspended ∨ ∃ err, r = Throw err
  end.

Lemma passT_post (this : OpenAiChat) (st : Generator * OpenAiChat) :
  source st.1 = _promptSource this ∧ config st.2 = config this →
  has_post (passT st)
    (sum_pred (λ st', source st'.1 = _promptSource this ∧ config st'.2 = config this)
              (λ r, endOf (_promptSource this) r.1 ∧ config r.2 = config this)).
Proof.
  destruct st as [g c]. cbn. intros [Hg Hc]. unfold passT. cbn.
  eapply has_post_bind; [apply nextT_post|].
  intros [[[p| |]|err] g'] (Hs & _ & Hr); cbn in *.
  - eapply has_post_bind; [apply iterationT_post|].
    intros c' Hc'. apply has_post_ret. cbn. split; congruence.
  - apply has_post_ret. cbn. destruct Hr as [Hr _]. by rewrite <- Hg, Hr.
  - apply has_post_ret. cbn. rewrite <- Hg, Hr. cbn. auto.
  - apply has_post_ret. cbn. rewrite <- Hg, Hr. cbn. eauto.
Qed.

(** C14: In every environment, however long the input and whatever the
    file system and the remote service answer, [chat] can end in these
    ways only: in argument mode by the return of the generator, never by
    an error; in interactive mode never by the return of the generator,
    only suspended on a query that stays without answer or by a thrown
    error.  The object it leaves has the configuration it started with. *)
Theorem chatT_ends (this : OpenAiChat) :
  has_post (chatT this)
    (λ r, endOf (_promptSource this) r.1 ∧ config r.2 = config this).
Proof.
  unfold chatT. apply has_post_bind_weak. intros _.
  eapply has_post_iter_strong; [apply passT_post|done].
Qed.
