(* ===== verification/Always.v ===== *)
(** * What the script asks of its environment, on every run

    A safety property of a tree is given by a monitor: a state, the events
    it allows in each state, and the state after an event and its answer.
    [always mon s t Q] says that on every run of [t], for every way the
    environment may answer and for runs of any length, the ones that never
    end included, the monitor started in [s] allows each event, and [Q]
    holds of the state of the monitor and the result when [t] returns.  It
    is the greatest fixed point of one step of observation, with rules for
    the constructions the script is made of, the loop among them.

    The monitor of the script, [watch], follows the credential and the
    model the environment gave and whether a line that was read is still
    owed an answer.  The whole script, in every environment, sends only
    requests with that credential, that model and a history that ends with
    the prompt being handled, and asks for the next line only when the
    last one has been answered on the terminal. *)

From S2P Require Import Prelude JsString Message Json Runtime Stubs PromptSource ChatSession Main Requests Interaction.
From ITree Require Import ITree Eq.Shallow.
From Paco Require Import paco.

(** ** Monitors *)

Record Monitor (E : Type → Type) := {
  mstate : Type;
  allowed : mstate → ∀ X, E X → Prop;
  after : mstate → ∀ X, E X → X → mstate
}.
Arguments mstate {E} _.
Arguments allowed {E} _ _ {X} _.
Arguments after {E} _ _ {X} _ _.

Section always.
Context {E : Type → Type} (mon : Monitor E).
Implicit Types s : mstate mon.

(** One step of observation: a result satisfies [Q] in the state of the
    monitor; a silent step leads to a tree in [rec]; an event is allowed,
    and each answer to it leads to a tree in [rec], in the state after. *)
Definition alwaysF {X} (Q : mstate mon → X → Prop)
    (rec : mstate mon → itree E X → Prop) s (t : itree E X) : Prop :=
  match observe t with
  | RetF x => Q s x
  | TauF t' => rec s t'
  | VisF e k => allowed mon s e ∧ ∀ a, rec (after mon s e a) (k a)
  end.

Lemma alwaysF_mono {X} (Q : mstate mon → X → Prop) : monotone2 (alwaysF Q).
Proof.
  unfold alwaysF. intros s t r r' Ht Hr.
  destruct (observe t); [done|by apply Hr|]. split; [apply Ht|]. intros a. apply Hr, Ht.
Qed.
Hint Resolve alwaysF_mono : paco.

Definition always {X} s (t : itree E X) (Q : mstate mon → X → Prop) : Prop :=
  paco2 (alwaysF Q) bot2 s t.

(** The predicate looks at a tree through [observe] only. *)
Lemma always_observe {X} (Q : mstate mon → X → Prop) r s (t u : itree E X) :
  observe u = observe t → paco2 (alwaysF Q) r s t → paco2 (alwaysF Q) r s u.
Proof. intros Hu Ht. punfold Ht. pfold. unfold alwaysF in *. by rewrite Hu. Qed.

(** The trees an answer leads to, out of a step of observation. *)
Lemma always_answers {X Y} (Q : mstate mon → X → Prop) (e : E Y) (k : Y → itree E X) s :
  (allowed mon s e ∧ ∀ a, upaco2 (alwaysF Q) bot2 (after mon s e a) (k a)) →
  ∀ a, always (after mon s e a) (k a) Q.
Proof. intros [_ Hk] a. specialize (Hk a). by pclearbot. Qed.

(** ** Rules *)

Lemma always_ret {X} (x : X) (Q : mstate mon → X → Prop) s : Q s x → always s (mret x) Q.
Proof. intros Hx. by pfold. Qed.

Lemma always_trigger {X} (e : E X) (Q : mstate mon → X → Prop) s :
  allowed mon s e → (∀ a, Q (after mon s e a) a) → always s (ITree.trigger e) Q.
Proof.
  intros He HQ. pfold. unfold alwaysF. cbn. split; [done|]. intros a. left. pfold. apply HQ.
Qed.

Lemma always_weaken {X} (t : itree E X) (Q Q' : mstate mon → X → Prop) s :
  always s t Q → (∀ s' x, Q s' x → Q' s' x) → always s t Q'.
Proof.
  intros Ht HQ. revert s t Ht. pcofix CIH. intros s t Ht.
  punfold Ht. pfold. unfold alwaysF in *.
  destruct (observe t) as [x|t'|Y e k]; [by apply HQ| |].
  - right. apply CIH. by pclearbot.
  - split; [apply Ht|]. intros a. right. by apply CIH, always_answers.
Qed.

(** A sequence: the first part, and the rest after each of its results, in
    the state the monitor has reached. *)
Lemma always_bind {X Y} (t : itree E X) (k : X → itree E Y) (Q' : mstate mon → Y → Prop) s :
  always s t (λ s' x, always s' (k x) Q') → always s (t ≫= k) Q'.
Proof.
  revert s t. pcofix CIH. intros s t Ht.
  punfold Ht. unfold alwaysF in Ht.
  destruct (observe t) as [x|t'|Z e h] eqn:Hobs.
  - apply (always_observe _ _ _ (k x)); [|by eapply paco2_mon; [apply Ht|]].
    unfold mbind, itree_mbind. by rewrite observe_bind, Hobs.
  - pfold. unfold alwaysF, mbind, itree_mbind. rewrite observe_bind, Hobs. cbn.
    right. apply CIH. by pclearbot.
  - pfold. unfold alwaysF, mbind, itree_mbind. rewrite observe_bind, Hobs. cbn.
    split; [apply Ht|]. intros a. right. by apply CIH, always_answers.
Qed.

(** The rule for a sequence is an equivalence. *)
Lemma always_bind_inv {X Y} (t : itree E X) (k : X → itree E Y) (Q' : mstate mon → Y → Prop) s :
  always s (t ≫= k) Q' → always s t (λ s' x, always s' (k x) Q').
Proof.
  revert s t. pcofix CIH. intros s t Ht.
  punfold Ht. unfold alwaysF, mbind, itree_mbind in Ht. rewrite observe_bind in Ht.
  pfold. unfold alwaysF. destruct (observe t) as [x|t'|Z e h]; cbn in Ht.
  - by pfold.
  - right. apply CIH. by pclearbot.
  - split; [apply Ht|]. intros a. right.
    apply CIH, (always_answers _ e (λ a, ITree.bind (h a) k) _ Ht).
Qed.

Lemma always_trigger_inv {X} (e : E X) (Q : mstate mon → X → Prop) s :
  always s (ITree.trigger e) Q → allowed mon s e ∧ ∀ a, Q (after mon s e a) a.
Proof.
  intros Ht. punfold Ht. unfold alwaysF in Ht. cbn in Ht.
  split; [apply Ht|]. intros a. apply always_answers with (a := a) in Ht. by punfold Ht.
Qed.

Lemma always_ret_inv {X} (x : X) (Q : mstate mon → X → Prop) s : always s (mret x) Q → Q s x.
Proof. intros Hx. by punfold Hx. Qed.

(** A part of a tree that has its own lemma. *)
Lemma always_call {X Y} (t : itree E X) (k : X → itree E Y)
    (Q : mstate mon → X → Prop) (Q' : mstate mon → Y → Prop) s :
  always s t Q → (∀ s' x, Q s' x → always s' (k x) Q') → always s (t ≫= k) Q'.
Proof. intros Ht Hk. by apply always_bind, (always_weaken _ _ _ _ Ht). Qed.

(** The loop, with an invariant of the state of the monitor and the state
    of the loop. *)
Lemma always_iter {I X} (body : I → itree E (I + X))
    (Inv : mstate mon → I → Prop) (Q : mstate mon → X → Prop) s i :
  (∀ s i, Inv s i →
     always s (body i) (λ s' lr, match lr with inl i' => Inv s' i' | inr x => Q s' x end)) →
  Inv s i → always s (ITree.iter body i) Q.
Proof.
  intros Hbody Hi.
  cut (∀ s u t,
         always s t (λ s' lr, match lr with inl i' => Inv s' i' | inr x => Q s' x end) →
         observe u = observe (ITree.bind t (λ lr, ITree.on_left lr l (Tau (ITree.iter body l)))) →
         always s u Q).
  { intros Hcut. by apply (Hcut _ _ (body i)); [apply Hbody|]. }
  clear s i Hi. pcofix CIH. intros s u t Ht Hu. punfold Ht. pfold. unfold alwaysF in *.
  rewrite Hu, observe_bind.
  destruct (observe t) as [[l|x]|t'|Y e k]; cbn; [|done| |].
  - right. by apply (CIH _ _ (body l)); [apply Hbody|].
  - right. apply (CIH _ _ t'); [by pclearbot|done].
  - split; [apply Ht|]. intros a. right. by apply (CIH _ _ (k a)); [apply always_answers|].
Qed.

End always.

#[export] Hint Resolve alwaysF_mono : paco.

(** A tree is followed along its events: through each event and each
    answer to it, and by cases, with their equations, where the tree makes
    a choice.  What is left is what the monitor must allow, and the
    postcondition at each return. *)
Ltac always_step :=
  lazymatch goal with
  | |- always _ _ (mret _) _ => apply always_ret
  | |- always _ _ (itree_mret _ _) _ => apply always_ret
  | |- always _ _ (ITree.trigger _) _ => apply always_trigger; [try by cbn|intros ?]
  | |- always _ _ (_ ≫= _) _ => apply always_bind
  | |- always _ _ (itree_mbind _ _ _ _) _ => apply always_bind
  | |- always _ _ (match ?x with _ => _ end) _ => destruct x eqn:?
  end.
Ltac always_run := cbv beta zeta; repeat (always_step; cbv beta zeta).

(** ** The monitor of the script *)

(** What is known of a run: the credential and the model the environment
    gave, whether a line that was read is still owed an answer, and whether
    a question has been refused. *)
Record Watch := {
  credential : option string;
  model : string;
  owed : bool;
  refused : bool
}.

(** What the script may ask, as long as no question has been refused: a
    completion with the credential of the environment, which is not empty,
    for its model, and with a history that ends with a prompt to send; the
    next line, with the prompt string, when no answer is owed.  The other
    events are free. *)
Definition watch_allowed (s : Watch) {X} (e : chatE X) : Prop :=
  match e with
  | CompletionE key req =>
      refused s = false ∧ credential s = Some key ∧ truthy key = true ∧
      validRequest (model s) req = true
  | QuestionE query => refused s = false ∧ query = "> " ∧ owed s = false
  | _ => True
  end.

(** The state after an event: the reads of the environment are recorded, a
    line that is read is owed an answer, a line of output is one, and the
    error of a question is a refusal. *)
Definition watch_after (s : Watch) {X} (e : chatE X) : X → Watch :=
  match e in chatE X return X → Watch with
  | ApiKeyE =>
      λ a, {| credential := a; model := model s; owed := owed s; refused := refused s |}
  | ModelE =>
      λ a, {| credential := credential s; model := orElse a CHAT_DEFAULT_MODEL;
              owed := owed s; refused := refused s |}
  | QuestionE _ =>
      λ a, {| credential := credential s; model := model s;
              owed := match a with inr (Some _) => true | _ => false end;
              refused := match a with inl _ => true | inr _ => refused s end |}
  | LogE _ | ErrorE _ | ErrorObjectE _ =>
      λ _, {| credential := credential s; model := model s; owed := false;
              refused := refused s |}
  | _ => λ _, s
  end.

Definition watch : Monitor chatE :=
  {| mstate := Watch; allowed := @watch_allowed; after := @watch_after |}.

(** Nothing has been read yet. *)
Definition watch0 : Watch :=
  {| credential := None; model := EmptyString; owed := false; refused := false |}.

(** The monitor knows the session: its model, and the credential of its
    client. *)
Definition knows (s : Watch) (this : OpenAiChat) : Prop :=
  model s = _model this ∧
  ∀ api, _openai this = Some api →
    credential s = Some (apiKey (configuration api)) ∧
    truthy (apiKey (configuration api)) = true.

(** From [s] to [s'] the reads are kept, nothing more is owed and nothing
    is refused that was not. *)
Definition kept (s s' : Watch) : Prop :=
  credential s' = credential s ∧ model s' = model s ∧ refused s' = refused s ∧
  (owed s' = true → owed s = true).

(** The end of the script under the monitor: no answer is owed, and the
    exit code is 1 exactly when the credential is missing or empty or a
    question was refused. *)
Definition settled (s : Watch) (status : ExitStatus) : Prop :=
  owed s = false ∧
  if truthyOpt (credential s) && negb (refused s)
  then status = Exited 0 ∨ status = Idle
  else status = Exited 1.

(** ** The script under the monitor *)

Section script.
Implicit Types (this : OpenAiChat) (p : string) (v : JsVal) (s : Watch).

Lemma knows_kept s s' this this' :
  knows s this → kept s s' → config this' = config this → knows s' this'.
Proof.
  unfold knows, kept, config. intros [Hm Hk] (Hc & Hm' & _) Hcfg. simplify_eq.
  split; [congruence|]. intros api Hapi. rewrite Hc. apply Hk. congruence.
Qed.

(** The leaves of a method: the state of the monitor is computed, and what
    is left is read off it. *)
Ltac watch_leaf :=
  cbn in *; unfold kept; cbn; repeat split; try done; try congruence.

Lemma sendT_always p this s :
  knows s this → refused s = false → truthy p = true → isCommand p = false →
  always watch s (sendT p this)
    (λ s' r, kept s s' ∧ config r.2 = config this ∧ (isNormal r.1 = true → owed s' = false)).
Proof.
  intros [Hm Hk] Hr Ht Hc. unfold sendT, debugLogT, _callOpenaiChatApiT.
  always_run; watch_leaf; try (by apply Hk); rewrite Hm; by apply validRequest_push.
Qed.

Lemma handlePromptT_always v this s :
  knows s this → refused s = false →
  always watch s (handlePromptT v this)
    (λ s' r, kept s s' ∧ config r.2 = config this ∧ (isNormal r.1 = true → owed s' = false)).
Proof.
  intros Hs Hr. unfold handlePromptT.
  destruct (negb (toBoolean v)) eqn:Hv; [apply always_ret; watch_leaf|].
  destruct v as [| |p]; try (apply always_ret; watch_leaf).
  apply negb_false_iff in Hv. cbn in Hv.
  destruct (startsWith p CHAT_COMMAND_SAVE_TO) eqn:Hsave;
    [unfold saveToT, _transcriptT; always_run; watch_leaf|].
  destruct (startsWith p CHAT_COMMAND_RESET_CHAT) eqn:Hreset;
    [unfold _resetChatT; always_run; watch_leaf|].
  apply sendT_always; [done..|]. unfold isCommand. by rewrite Hsave, Hreset.
Qed.

(** Every prompt is answered by a line of output: by its handler when it
    completes, by the [catch] block when it throws. *)
Lemma iterationT_always p this s :
  knows s this → refused s = false →
  always watch s (iterationT p this)
    (λ s' this', kept s s' ∧ owed s' = false ∧ config this' = config this).
Proof.
  intros Hs Hr. unfold iterationT. eapply always_call; [by apply handlePromptT_always|].
  intros s' [[[]|err] this'] (Hk & Hc & Hn); unfold reportErrorT;
    always_run; destruct Hk as (? & ? & ? & ?); watch_leaf; by apply Hn.
Qed.

(** A resumption of the generator: a prompt is yielded, or the loop ends,
    with nothing owed; only an error of the generator is a refusal. *)
Lemma nextT_always (g : Generator) s :
  owed s = false → refused s = false →
  always watch s (nextT g)
    (λ s' r, credential s' = credential s ∧ model s' = model s ∧
             match r.1 with
             | Normal (Yielded _) => refused s' = false
             | Normal _ => refused s' = false ∧ owed s' = false
             | Throw _ => refused s' = true ∧ owed s' = false
             end).
Proof.
  intros Ho Hr. unfold nextT, promptFromArgT, promptFromReadlineT.
  always_run; watch_leaf; by repeat case_match.
Qed.

(** The invariant of the loop: the monitor knows the session, no answer
    is owed, no question has been refused, the credential is the one read
    at the start. *)
Definition attended (c0 : option string) s (st : Generator * OpenAiChat) : Prop :=
  knows s st.2 ∧ owed s = false ∧ refused s = false ∧ credential s = c0.

(** The end of the loop under the monitor: nothing is owed, and a question
    has been refused exactly when the loop throws. *)
Definition attendedEnd (c0 : option string) s (r : Completion LoopEnd * OpenAiChat) : Prop :=
  r.1 ≠ Normal OutOfFuel ∧ owed s = false ∧ credential s = c0 ∧
  refused s = negb (isNormal r.1).

Lemma passT_always c0 (st : Generator * OpenAiChat) s :
  attended c0 s st →
  always watch s (passT st)
    (λ s' lr, match lr with
              | inl st' => attended c0 s' st'
              | inr r => attendedEnd c0 s' r
              end).
Proof.
  destruct st as [g this]. intros (Hs & Ho & Hr & Hc). unfold passT. cbn [fst snd] in *.
  eapply always_call; [by apply nextT_always|].
  intros s1 [[[p| |]|err] g'] (Hc1 & Hm1 & Ho1); cbn in Ho1;
    [|apply always_ret; unfold attendedEnd; cbn; intuition congruence..].
  assert (knows s1 this) as Hs1.
  { destruct Hs as [Hm Hk]. split; [congruence|]. intros api Hapi. rewrite Hc1. by apply Hk. }
  eapply always_call; [by apply iterationT_always|].
  intros s2 this' (Hk & Ho2 & Hcfg). apply always_ret.
  split; [by eapply knows_kept|]. destruct Hk as (? & _ & ? & _). cbn.
  repeat split; congruence.
Qed.

Lemma chatT_always this s :
  knows s this → owed s = false → refused s = false →
  always watch s (chatT this) (attendedEnd (credential s)).
Proof.
  intros [Hm Hk] Ho Hr. unfold chatT. always_run.
  apply (always_iter watch _ (attended (credential s))); [intros ??; apply passT_always|].
  by unfold attended, knows.
Qed.

(** The whole script under its monitor, in every environment and on
    every run, the runs that never end included: [Runs.script_runs] reads
    it off run by run. *)
Lemma mainT_always : always watch watch0 mainT settled.
Proof.
  unfold settled.
  unfold mainT. apply always_bind, always_trigger; [done|]. intros [key|]; cbv beta;
    [destruct (truthy key) eqn:Hkey|]; [|always_run; cbn; by rewrite ?Hkey..].
  unfold bootT. always_run. eapply always_weaken; [apply chatT_always|].
  - split; [done|]. by intros api [= <-].
  - done.
  - done.
  - intros s' [[e|err] this'] (He & Ho & Hc & Hr); unfold settleT;
      cbn [fst snd isNormal negb] in *.
    + destruct e; always_run; try done; cbn; rewrite Hc, Hr; cbn; rewrite Hkey;
        cbn; auto.
    + always_run. cbn. by rewrite Hc, Hr, andb_false_r.
Qed.

(** The guard of [handlePrompt] is what keeps the empty prompt from the
    service: [send] alone would ask a completion for it. *)
Lemma sendT_empty this api s :
  _openai this = Some api → ¬ always watch s (sendT "" this) (λ _ _, True).
Proof.
  intros Hapi Hsend. unfold sendT, debugLogT, _callOpenaiChatApiT in Hsend.
  cbv zeta in Hsend. change (_openai (set_messages _ this)) with (_openai this) in Hsend.
  rewrite Hapi in Hsend.
  apply always_bind_inv, always_bind_inv, always_trigger_inv in Hsend as [_ Hsend].
  specialize (Hsend None). apply always_ret_inv in Hsend.
  apply always_bind_inv, always_bind_inv, always_trigger_inv in Hsend
    as [(_ & _ & _ & Hvalid) _].
  unfold validRequest, push in Hvalid. cbn in Hvalid.
  rewrite last_snoc in Hvalid. cbn in Hvalid. by rewrite andb_false_r in Hvalid.
Qed.

End script.
