(* ===== verification/Runs.v ===== *)
(** * The runs of the script, one event after the other

    The reference reading of [Always]: a run of a tree is a finite list of
    events, each with the answer the environment gave, that ends when the
    tree returns or on an event that is being asked.  A monitor accepts a
    run when it allows every event of it, in the state the events before
    have led it to.  [always] holds of a tree exactly when the monitor
    accepts every run of it and the postcondition holds where a run
    returns: the coinductive predicate says no more and no less than its
    finite observations ([always_iff_runs]).

    Runs do not see silent steps: weakly bisimilar trees have the same runs
    ([run_eutt]), so [run] and [always] can be rewritten with [≈].  A tree
    is run by a function that answers its events ([exec]); what it computes
    is a run, every run that returns with these answers is computed, given
    the fuel it needs, and there is only one ([run_functional]).  Two
    monitors are checked at once by their product ([always_both]).

    For the script this gives the property of [Always] in terms of what can
    be observed of it, in any environment, and the runs of the tree in a
    world are among these runs. *)

From S2P Require Import Prelude JsString Message Json Runtime Stubs PromptSource ChatSession Main Requests Interaction Always.
From ITree Require Import ITree ITreeFacts Eq.Shallow.
From Paco Require Import paco.

(** ** Runs *)

(** An event with the answer it got. *)
Record Answered (E : Type → Type) := answered {
  asked_type : Type;
  asked : E asked_type;
  answer_of : asked_type
}.
Arguments answered {E asked_type} _ _.
Arguments asked_type {E} _.
Arguments asked {E} _.
Arguments answer_of {E} _.

(** How a run ends: the tree returns, or asks and has no answer yet. *)
Variant Ending (E : Type → Type) (X : Type) :=
| Returns (x : X)
| Asks {Y} (e : E Y).
Arguments Returns {E X} _.
Arguments Asks {E X Y} _.

Section runs.
Context {E : Type → Type}.

(** [run t l r]: the tree [t] performs the events of [l], which get the
    answers of [l], and then ends as [r]. *)
Inductive run {X} : itree E X → list (Answered E) → Ending E X → Prop :=
| run_ret t x : observe t = RetF x → run t [] (Returns x)
| run_asks t Y (e : E Y) k : observe t = VisF e k → run t [] (Asks e)
| run_tau t t' l r : observe t = TauF t' → run t' l r → run t l r
| run_vis t Y (e : E Y) k a l r :
    observe t = VisF e k → run (k a) l r → run t (answered e a :: l) r.

(** A run is read off the tree through [observe] only. *)
Lemma run_observe {X} (t u : itree E X) l r : observe u = observe t → run t l r → run u l r.
Proof.
  intros Hu Hrun.
  destruct Hrun; [econstructor 1|econstructor 2|econstructor 3|econstructor 4];
    rewrite ?Hu; eassumption.
Qed.

(** The runs of a sequence: a run of the first part that returns, then a
    run of the rest. *)
Lemma run_bind {X Y} (t : itree E X) (k : X → itree E Y) l x l' r :
  run t l (Returns x) → run (k x) l' r → run (t ≫= k) (l ++ l') r.
Proof.
  unfold mbind, itree_mbind. intros Ht Hk. remember (Returns x) as rx eqn:Hx.
  induction Ht as [t x' Hobs|t Z e h Hobs|t t' l rx Hobs _ IH|t Z e h a l rx Hobs _ IH];
    simplify_eq/=.
  - apply (run_observe (k x)); [|done]. by rewrite observe_bind, Hobs.
  - apply (run_tau _ (ITree.bind t' k)); [|by apply IH]. by rewrite observe_bind, Hobs.
  - apply (run_vis _ _ e (λ a, ITree.bind (h a) k)); [|by apply IH].
    by rewrite observe_bind, Hobs.
Qed.

(** The runs of a loop: a pass that goes on, then a run of the loop from
    the state it leaves; or a pass that ends the loop. *)
Lemma run_iter_more {I X} (body : I → itree E (I + X)) i l j l' r :
  run (body i) l (Returns (inl j)) → run (ITree.iter body j) l' r →
  run (ITree.iter body i) (l ++ l') r.
Proof.
  intros Hi Hj. eapply run_observe; [apply (observing_observe (unfold_aloop_ body i))|].
  apply (run_bind _ _ _ (inl j)); [done|]. by eapply run_tau.
Qed.

Lemma run_iter_done {I X} (body : I → itree E (I + X)) i l x :
  run (body i) l (Returns (inr x)) → run (ITree.iter body i) l (Returns x).
Proof.
  intros Hi. eapply run_observe; [apply (observing_observe (unfold_aloop_ body i))|].
  rewrite <- (right_id_L [] (++) l). apply (run_bind _ _ _ (inr x)); [done|].
  by constructor.
Qed.

(** ** Runs and weak bisimilarity *)

(** A tree that returns, and one that is weakly bisimilar. *)
Lemma eutt_ret_run {X} (t u : itree E X) x :
  t ≈ u → observe t = RetF x → run u [] (Returns x).
Proof.
  intros Heq Hobs. punfold Heq. red in Heq. rewrite Hobs in Heq. clear Hobs t.
  remember (RetF x) as ot eqn:Hot. genobs u ou.
  hinduction Heq before X; intros; try discriminate.
  - inv Hot. by constructor.
  - eapply run_tau; [done|]. by eapply IHHeq.
Qed.

(** A tree that asks, and one that is weakly bisimilar: it asks the same,
    after silent steps, and goes on with bisimilar trees. *)
Lemma eutt_vis_run {X Y} (t u : itree E X) (e : E Y) k :
  t ≈ u → observe t = VisF e k →
  ∃ k', (∀ a, k a ≈ k' a) ∧ run u [] (Asks e) ∧
        ∀ a l r, run (k' a) l r → run u (answered e a :: l) r.
Proof.
  intros Heq Hobs. punfold Heq. red in Heq. rewrite Hobs in Heq. clear Hobs t.
  remember (VisF e k) as ot eqn:Hot. genobs u ou.
  hinduction Heq before X; intros; try discriminate.
  - refine (match Hot in _ = o
            return match o with VisF e0 k0 => _ | RetF _ | TauF _ => False end
            with eq_refl => _ end).
    exists k2. split; [intros a; by destruct (REL a)|].
    split; [by econstructor|]. intros a l r Hrun. by eapply run_vis.
  - destruct (IHHeq _ t2 _ _ Hot eq_refl) as (k' & Hk & Hasks & Hruns).
    exists k'. split; [done|]. split; [by eapply run_tau|].
    intros a l r Hrun. eapply run_tau; [done|]. by apply Hruns.
Qed.

(** Weakly bisimilar trees have the same runs. *)
Lemma run_eutt {X} (t u : itree E X) l r : t ≈ u → run t l r → run u l r.
Proof.
  intros Heq Hrun. revert u Heq.
  induction Hrun as [t x Hobs|t Y e k Hobs|t t' l r Hobs _ IH|t Y e k a l r Hobs _ IH];
    intros u Heq.
  - by eapply eutt_ret_run.
  - by destruct (eutt_vis_run _ _ _ _ Heq Hobs) as (k' & _ & Hasks & _).
  - apply IH, eqit_inv_Tau_l. by rewrite (itree_eta t), Hobs in Heq.
  - destruct (eutt_vis_run _ _ _ _ Heq Hobs) as (k' & Hk & _ & Hruns).
    by apply Hruns, IH.
Qed.

#[export] Instance run_proper {X} : Proper (eutt eq ==> eq ==> eq ==> iff) (@run X).
Proof.
  intros t u Heq l ? <- r ? <-. split; apply run_eutt; [done|by symmetry].
Qed.

(** ** Running a tree *)

(** A tree is run by answering its events: [h] gives the answer to an event
    in a state of the environment [S], and the state after.  One unit of
    fuel per step of the tree; the result is the run so far, the state
    left, and what the tree returned if it did. *)
Fixpoint exec {S X} (fuel : nat) (h : ∀ Y, E Y → S → S * Y) (t : itree E X) (s : S)
    : list (Answered E) * S * option X :=
  match fuel with
  | 0 => ([], s, None)
  | Datatypes.S fuel =>
      match observe t with
      | RetF x => ([], s, Some x)
      | TauF t' => exec fuel h t' s
      | VisF e k =>
          let '(s', a) := h _ e s in
          let '(l, s'', r) := exec fuel h (k a) s' in
          (answered e a :: l, s'', r)
      end
  end.

Section handled.
Context {S : Type} (h : ∀ Y, E Y → S → S * Y).

(** The answers of a run are those of [h], each given in the state of the
    environment that the events before have left. *)
Fixpoint follows (s : S) (l : list (Answered E)) : Prop :=
  match l with
  | [] => True
  | ea :: l => answer_of ea = (h _ (asked ea) s).2 ∧ follows (h _ (asked ea) s).1 l
  end.

(** The state of the environment after a run. *)
Definition envAfter (s : S) (l : list (Answered E)) : S :=
  foldl (λ s ea, (h _ (asked ea) s).1) s l.

Lemma follows_app s l l' : follows s (l ++ l') ↔ follows s l ∧ follows (envAfter s l) l'.
Proof.
  revert s. induction l as [|ea l IH]; intros s; simpl; [tauto|]. rewrite IH. tauto.
Qed.

(** What [exec] computes is a run of the tree with the answers of [h]. *)
Lemma exec_run {X} fuel (t : itree E X) s l s' x :
  exec fuel h t s = (l, s', Some x) → run t l (Returns x).
Proof.
  revert t s l. induction fuel as [|fuel IH]; intros t s l; [done|]. simpl.
  destruct (observe t) as [y|t'|Y e k] eqn:Hobs.
  - intros [= <- _ <-]. by constructor.
  - intros Hexec. eapply run_tau; [exact Hobs|]. exact (IH _ _ _ Hexec).
  - destruct (h Y e s) as [s1 a]. destruct (exec fuel h (k a) s1) as [[l1 s2] r] eqn:Hexec.
    intros [= <- <- ->]. eapply run_vis; [exact Hobs|]. exact (IH _ _ _ Hexec).
Qed.

Lemma exec_follows {X} fuel (t : itree E X) s l s' r :
  exec fuel h t s = (l, s', r) → follows s l ∧ envAfter s l = s'.
Proof.
  revert t s l s' r.
  induction fuel as [|fuel IH]; intros t s l s' r; simpl; [by intros [= <- <- _]|].
  destruct (observe t) as [y|t'|Y e k].
  - by intros [= <- <- _].
  - apply IH.
  - destruct (h Y e s) as [s1 a] eqn:Ha.
    destruct (exec fuel h (k a) s1) as [[l1 s2] r1] eqn:Hexec.
    intros [= <- <- _]. simpl. rewrite Ha. simpl. by destruct (IH _ _ _ _ _ Hexec).
Qed.

(** Every run that returns with the answers of [h] is computed by [exec],
    with the fuel it needs. *)
Lemma exec_complete {X} (t : itree E X) s l x :
  run t l (Returns x) → follows s l → ∃ fuel, exec fuel h t s = (l, envAfter s l, Some x).
Proof.
  intros Hrun. remember (Returns x) as rx eqn:Hx. revert s.
  induction Hrun as [t x' Hobs|t Y e k Hobs|t t' l rx Hobs _ IH|t Y e k a l rx Hobs _ IH];
    intros s Hl; simplify_eq/=.
  - exists 1. simpl. by rewrite Hobs.
  - destruct (IH eq_refl s Hl) as [fuel Hexec]. exists (Datatypes.S fuel). simpl.
    by rewrite Hobs.
  - destruct Hl as [-> Hl]. destruct (IH eq_refl _ Hl) as [fuel Hexec].
    exists (Datatypes.S fuel). simpl. rewrite Hobs.
    destruct (h Y e s) as [s1 a]. simpl in *. by rewrite Hexec.
Qed.

(** More fuel does not change a run that has returned. *)
Lemma exec_mono {X} fuel fuel' (t : itree E X) s l s' x :
  exec fuel h t s = (l, s', Some x) → fuel ≤ fuel' → exec fuel' h t s = (l, s', Some x).
Proof.
  revert fuel' t s l. induction fuel as [|fuel IH]; intros fuel' t s l; [done|].
  destruct fuel' as [|fuel']; [lia|]. simpl. intros Hexec Hle. revert Hexec.
  destruct (observe t) as [y|t'|Y e k]; [done|intros; apply IH; [done|lia]|].
  destruct (h Y e s) as [s1 a]. destruct (exec fuel h (k a) s1) as [[l1 s2] r] eqn:Hexec.
  intros [= <- <- ->]. by rewrite (IH fuel' _ _ _ Hexec); [|lia].
Qed.

(** A tree has one run with the answers of [h]: what it does is a function
    of what the environment answers. *)
Theorem run_functional {X} (t : itree E X) s l l' x y :
  run t l (Returns x) → follows s l → run t l' (Returns y) → follows s l' →
  l = l' ∧ x = y.
Proof.
  intros Hl Hs Hl' Hs'.
  destruct (exec_complete _ _ _ _ Hl Hs) as [fuel Hexec].
  destruct (exec_complete _ _ _ _ Hl' Hs') as [fuel' Hexec'].
  apply (exec_mono _ (fuel `max` fuel')) in Hexec; [|lia].
  apply (exec_mono _ (fuel `max` fuel')) in Hexec'; [|lia].
  rewrite Hexec in Hexec'. by simplify_eq.
Qed.

End handled.

Context (mon : Monitor E).

(** The monitor allows the events of a run, one after the other. *)
Fixpoint accepts (s : mstate mon) (l : list (Answered E)) : Prop :=
  match l with
  | [] => True
  | ea :: l => allowed mon s (asked ea) ∧ accepts (after mon s (asked ea) (answer_of ea)) l
  end.

(** The state of the monitor after a run. *)
Definition stateAfter (s : mstate mon) (l : list (Answered E)) : mstate mon :=
  foldl (λ s ea, after mon s (asked ea) (answer_of ea)) s l.

(** The end of a run is in order: the event asked is allowed, the result
    satisfies the postcondition. *)
Definition endsWell {X} (Q : mstate mon → X → Prop) (s : mstate mon) (r : Ending E X) : Prop :=
  match r with
  | Returns x => Q s x
  | Asks e => allowed mon s e
  end.

(** ** The two readings agree *)

Lemma always_run {X} (t : itree E X) (Q : mstate mon → X → Prop) s l r :
  always mon s t Q → run t l r → accepts s l ∧ endsWell Q (stateAfter s l) r.
Proof.
  intros Ht Hrun. revert s Ht.
  induction Hrun as [t x Hobs|t Y e k Hobs|t t' l r Hobs _ IH|t Y e k a l r Hobs _ IH];
    intros s Ht; punfold Ht; unfold alwaysF in Ht; rewrite Hobs in Ht.
  - done.
  - split; [done|apply Ht].
  - apply IH. by pclearbot.
  - destruct (IH _ (always_answers mon _ _ _ _ Ht a)) as [Hl Hr].
    by repeat split; [apply Ht|..].
Qed.

Lemma run_always {X} (t : itree E X) (Q : mstate mon → X → Prop) s :
  (∀ l r, run t l r → accepts s l ∧ endsWell Q (stateAfter s l) r) → always mon s t Q.
Proof.
  revert s t. pcofix CIH. intros s t Hruns. pfold. unfold alwaysF.
  destruct (observe t) as [x|t'|Y e k] eqn:Hobs.
  - by destruct (Hruns [] (Returns x)); [constructor|].
  - right. apply CIH. intros l e Hrun. apply Hruns. by eapply run_tau.
  - split; [by destruct (Hruns [] (Asks e)); [econstructor|]|].
    intros a. right. apply CIH. intros l e' Hrun.
    destruct (Hruns (answered e a :: l) e') as [[_ Hl] Hr]; [by eapply run_vis|done].
Qed.

(** A tree satisfies a monitor exactly when the monitor accepts each of
    its runs and the postcondition holds where a run returns. *)
Theorem always_iff_runs {X} (t : itree E X) (Q : mstate mon → X → Prop) s :
  always mon s t Q ↔
  ∀ l r, run t l r → accepts s l ∧ endsWell Q (stateAfter s l) r.
Proof. split; [intros Ht l r; by apply always_run|apply run_always]. Qed.

(** Hence a safety property holds of a tree or not whatever its silent
    steps are. *)
#[export] Instance always_proper {X} s :
  Proper (eutt eq ==> eq ==> iff) (@always E mon X s).
Proof. intros t u Heq Q ? <-. rewrite !always_iff_runs. by setoid_rewrite Heq. Qed.

(** A monitor that can be run: what it allows is decidable, and then so is
    whether it accepts a run. *)
Class Checkable := allowed_dec s X (e : E X) :: Decision (allowed mon s e).

#[export] Instance accepts_dec `{!Checkable} s l : Decision (accepts s l).
Proof. revert s. induction l as [|ea l IH]; intros s; simpl; apply _. Defined.

Lemma rejects `{!Checkable} s l : bool_decide (accepts s l) = false → ¬ accepts s l.
Proof. apply bool_decide_eq_false. Qed.

Lemma accepts_app s l l' :
  accepts s (l ++ l') ↔ accepts s l ∧ accepts (stateAfter s l) l'.
Proof.
  revert s. induction l as [|ea l IH]; intros s; simpl; [tauto|].
  rewrite IH. tauto.
Qed.

End runs.

(** ** Two monitors at once *)

Section both.
Context {E : Type → Type} (m1 m2 : Monitor E).

(** The monitor that allows what both allow. *)
Definition both : Monitor E :=
  {| mstate := mstate m1 * mstate m2;
     allowed := λ s X e, allowed m1 s.1 e ∧ allowed m2 s.2 e;
     after := λ s X e a, (after m1 s.1 e a, after m2 s.2 e a) |}.

Lemma stateAfter_both s l :
  stateAfter both s l = (stateAfter m1 s.1 l, stateAfter m2 s.2 l).
Proof. revert s. induction l as [|ea l IH]; intros [s1 s2]; [done|]. apply IH. Qed.

Lemma accepts_both s l : accepts both s l ↔ accepts m1 s.1 l ∧ accepts m2 s.2 l.
Proof.
  revert s. induction l as [|ea l IH]; intros [s1 s2]; simpl; [tauto|].
  rewrite IH. simpl. tauto.
Qed.

(** A tree satisfies both monitors exactly when it satisfies each. *)
Theorem always_both {X} (t : itree E X) s
    (Q1 : mstate m1 → X → Prop) (Q2 : mstate m2 → X → Prop) :
  always both s t (λ s x, Q1 s.1 x ∧ Q2 s.2 x) ↔ always m1 s.1 t Q1 ∧ always m2 s.2 t Q2.
Proof.
  rewrite !always_iff_runs. split.
  - intros Hboth. split; intros l r Hrun; destruct (Hboth l r Hrun) as [Hl Hr];
      apply accepts_both in Hl; rewrite stateAfter_both in Hr;
      (split; [tauto|]); destruct r; simpl in *; tauto.
  - intros [H1 H2] l r Hrun. destruct (H1 l r Hrun), (H2 l r Hrun).
    rewrite accepts_both, stateAfter_both. by destruct r.
Qed.

End both.

(** ** The runs of the script *)

#[export] Instance watch_checkable : Checkable watch.
Proof. intros s X e. destruct e; cbn; apply _. Defined.


(** C15: Every run of the whole script, in every environment, whatever the
    arguments, the lines, the file system and the remote service answer,
    and however long the run: no request is sent unless the environment
    holds a credential that is not empty; every request carries this
    credential, the model of the environment (the default when it has
    none), and a history that ends with a user message which is neither
    empty nor a command; the user is asked for a line with the prompt
    string, and only when every line read so far has been answered by a
    line of output; once a question has been refused the script asks
    nothing more.  When the script ends, no answer is owed, and the exit
    code is 1 exactly when the credential is missing or empty or a
    question was refused. *)
Theorem script_runs (l : list (Answered chatE)) (r : Ending chatE ExitStatus) :
  run mainT l r →
  accepts watch watch0 l ∧ endsWell watch settled (stateAfter watch watch0 l) r.
Proof. apply always_run, mainT_always. Qed.

(** An environment for a run in argument mode, with a service that fails,
    and the run of the script in it. *)
Definition failing : ∀ Y, chatE Y → unit → unit * Y :=
  λ Y e _,
    (tt, match e in chatE Y return Y with
         | LogE _ | ErrorE _ | ErrorObjectE _ => tt
         | QuestionE _ => inr None
         | WriteFileE _ _ => None
         | CompletionE _ _ => networkFailure
         | DebugE | ModelE => None
         | ApiKeyE => Some "sk-demo"
         | PlatformE => POSIX
         | ArgvE => ["node"; "index.js"; "hello"]
         end).

Definition failedRun : list (Answered chatE) :=
  [answered ApiKeyE (Some "sk-demo");
   answered ArgvE ["node"; "index.js"; "hello"];
   answered ModelE None;
   answered (LogE WELCOME) tt;
   answered ArgvE ["node"; "index.js"; "hello"];
   answered DebugE None;
   answered (CompletionE "sk-demo"
               {| req_model := CHAT_DEFAULT_MODEL; req_messages := [userMessage "hello"] |})
            networkFailure;
   answered (ErrorObjectE networkError) tt].

Lemma script_runs_witness :
  accepts watch watch0 failedRun ∧
  endsWell watch settled (stateAfter watch watch0 failedRun) (Returns (Exited 0)).
Proof.
  apply script_runs, (exec_run failing 12 mainT tt failedRun tt). by vm_compute.
Defined.

(** The monitor is checked by computation: it accepts the run above, and
    rejects a run that asks for the next line while the last one is owed
    an answer, and a run that sends the empty prompt. *)
Example failedRun_accepted : bool_decide (accepts watch watch0 failedRun) = true.
Proof. by vm_compute. Qed.

Example unanswered_line_rejected :
  ¬ accepts watch watch0
      [answered ApiKeyE (Some "sk-demo");
       answered (QuestionE "> ") (inr (Some "hello"));
       answered (QuestionE "> ") (inr (Some "anyone?"))].
Proof. apply (rejects watch). by vm_compute. Qed.

Example empty_prompt_rejected :
  ¬ accepts watch watch0
      [answered ApiKeyE (Some "sk-demo");
       answered ModelE None;
       answered (CompletionE "sk-demo"
                   {| req_model := CHAT_DEFAULT_MODEL; req_messages := [userMessage ""] |})
                networkFailure].
Proof. apply (rejects watch). by vm_compute. Qed.
