(* ===== verification/Conformance.v ===== *)
(** * The script keeps the contract, on every run

    The contract of [Spec] is a relation between conversations: each
    prompt performs one action.  Here it is read as a monitor of the events
    of the script.  The monitor keeps a ledger: the conversation as the
    contract has it, the prompt that was read and has not been acted on,
    and the prompts and actions so far.  It allows a request only for the
    prompt at hand, with the conversation of the ledger and this prompt as
    its messages; a write only for a [save to] prompt, to the file the
    prompt names and with the transcript of the conversation of the ledger;
    the next question only when the prompt at hand has been acted on and
    what the action owes the user has been printed: the answer of the
    service, the confirmation of a write, or the report of the failure, in
    the form the error calls for.  Each event that acts on the prompt is
    one [step] of the contract, so the ledger of a run that the monitor
    accepts is a run [steps] of the abstract machine ([contract_sound]).

    The tree of the whole script satisfies the monitor: in every
    environment and on runs of any length the script refines the abstract
    machine, event by event. *)

From S2P Require Import Prelude JsString Message Json Runtime Stubs PromptSource ChatSession Main Spec Interaction Always Runs.
From ITree Require Import ITree.

(** ** The ledger *)

(** What an action owes the user: a line of output, or the report of an
    error. *)
Variant Report :=
| Say (line : string)
| Fail (err : JsError).

Record Ledger := {
  greeted : bool;
  eol : Platform;
  agreed : list Message;
  current : option string;
  due : option Report;
  served : list JsVal;
  actions : list Action
}.

(** The line of [console.log] after a write (line 74). *)
Definition savedLine (file : string) : string := "Chat saved to " +:+ file.

(** The line of [console.error] for a structured error (line 109). *)
Definition errorLine (res : HttpResponse) (errMessage : string) : string :=
  "Error " +:+ numberToString (status res) +:+ " " +:+ statusText res +:+ ": " +:+ errMessage.

(** What is due after an action: the answer, the confirmation of the
    write, the report of the failure.  A reset and a rejection are known by
    their line. *)
Definition reportOf (a : Action) : option Report :=
  match a with
  | Exchanged _ answer => Some (Say (content answer))
  | Saved file None => Some (Say (savedLine file))
  | Saved _ (Some err) | Unanswered _ err => Some (Fail err)
  | Cleared | Rejected _ => None
  end.

(** The prompt [p] has been acted on: the action [a] has left the
    conversation [h]. *)
Definition acted (s : Ledger) (p : string) (a : Action) (h : list Message) : Ledger :=
  {| greeted := greeted s; eol := eol s; agreed := h; current := None; due := reportOf a;
     served := served s ++ [JsStr p]; actions := actions s ++ [a] |}.

(** The prompt [p] has been obtained. *)
Definition obtained (s : Ledger) (p : string) : Ledger :=
  {| greeted := greeted s; eol := eol s; agreed := agreed s; current := Some p;
     due := due s; served := served s; actions := actions s |}.

(** What was due has been printed. *)
Definition reported (s : Ledger) : Ledger :=
  {| greeted := greeted s; eol := eol s; agreed := agreed s; current := current s;
     due := None; served := served s; actions := actions s |}.

(** A prompt that is sent to the service, and one that resets. *)
Definition sendable (p : string) : bool := truthy p && negb (isCommand p).
Definition resetting (p : string) : bool :=
  negb (startsWith p CHAT_COMMAND_SAVE_TO) && startsWith p CHAT_COMMAND_RESET_CHAT.

Definition RESET_DONE : string := "Chat history has been reset.".

(** The error of a prompt that is rejected. *)
Definition invalidPrompt (p : string) : JsError :=
  Error ("Invalid prompt " +:+ toString (JsStr p) +:+ ".").

(** What the contract allows.  Before the greeting, the greeting is the
    only line of output, and the diagnostic of the missing credential the
    only line of error.  With a prompt at hand: the request for it, the
    write it asks for, the line that confirms a reset, the report of its
    rejection; and the debug line of a prompt that is sent.  With no prompt
    at hand: what is due, in its form (a structured error as one line, any
    other error as it is); and when nothing is due, the next question. *)
Definition contract_allowed (s : Ledger) {X} (e : chatE X) : Prop :=
  match e with
  | LogE line =>
      if greeted s then
        match current s, due s with
        | Some p, _ =>
            if resetting p then line = RESET_DONE
            else sendable p = true ∧ line = stringifyMessage (userMessage p)
        | None, Some (Say l) => line = l
        | None, Some (Fail _) => False
        | None, None => True
        end
      else line = WELCOME
  | ErrorE line =>
      current s = None ∧
      match due s with
      | Some (Fail err) =>
          match structuredError err with
          | Some (res, errMessage) => line = errorLine res errMessage
          | None => False
          end
      | Some (Say _) => False
      | None => greeted s = false ∧ line = MISSING_KEY
      end
  | ErrorObjectE err =>
      match current s, due s with
      | Some p, _ => truthy p = false ∧ err = invalidPrompt p
      | None, Some (Fail e) => err = e ∧ structuredError e = None
      | None, Some (Say _) => False
      | None, None => True
      end
  | QuestionE _ => greeted s = true ∧ current s = None ∧ due s = None
  | ArgvE => greeted s = true → current s = None ∧ due s = None
  | WriteFileE file data =>
      match current s with
      | Some p =>
          startsWith p CHAT_COMMAND_SAVE_TO = true ∧
          file = substring 8 p ∧ data = transcript (eol s) (agreed s)
      | None => False
      end
  | CompletionE _ req =>
      match current s with
      | Some p => sendable p = true ∧ req_messages req = agreed s ++ [userMessage p]
      | None => False
      end
  | DebugE | ApiKeyE | ModelE | PlatformE => True
  end.

(** The action of an exchange, by the answer of the service. *)
Definition exchange (p : string) (r : ApiResult) : Action :=
  match r with
  | inl err => Unanswered p err
  | inr data =>
      match choices data with
      | [] => Unanswered p noChoice
      | c :: _ => Exchanged p (choice_message c)
      end
  end.

(** What an action adds to the conversation. *)
Definition outcome (h : list Message) (a : Action) : list Message :=
  match a with
  | Rejected _ | Saved _ _ => h
  | Cleared => []
  | Exchanged p answer => h ++ [userMessage p; answer]
  | Unanswered p _ => h ++ [userMessage p]
  end.

(** The ledger after an event. *)
Definition contract_after (s : Ledger) {X} (e : chatE X) : X → Ledger :=
  match e in chatE X return X → Ledger with
  | LogE _ =>
      λ _, if greeted s then
             match current s with
             | Some p => if resetting p then acted s p Cleared [] else s
             | None => reported s
             end
           else {| greeted := true; eol := eol s; agreed := agreed s; current := current s;
                   due := due s; served := served s; actions := actions s |}
  | ErrorE _ => λ _, reported s
  | ErrorObjectE _ =>
      λ _, match current s with
           | Some p => acted s p (Rejected (JsStr p)) (agreed s)
           | None => reported s
           end
  | QuestionE _ =>
      λ a, match a with inr (Some line) => obtained s line | _ => s end
  | ArgvE => λ a, if greeted s then obtained s (argPrompt a) else s
  | WriteFileE file _ =>
      λ a, match current s with
           | Some p => acted s p (Saved file a) (agreed s)
           | None => s
           end
  | CompletionE _ _ =>
      λ a, match current s with
           | Some p => acted s p (exchange p a) (outcome (agreed s) (exchange p a))
           | None => s
           end
  | PlatformE =>
      λ a, {| greeted := greeted s; eol := a; agreed := agreed s; current := current s;
              due := due s; served := served s; actions := actions s |}
  | _ => λ _, s
  end.

Definition contract : Monitor chatE :=
  {| mstate := Ledger; allowed := @contract_allowed; after := @contract_after |}.

(** Nothing has happened yet. *)
Definition ledger0 : Ledger :=
  {| greeted := false; eol := POSIX; agreed := []; current := None; due := None;
     served := []; actions := [] |}.

(** The contract can be checked on a run. *)
#[export] Instance contract_checkable : Checkable contract.
Proof.
  intros [[] os h [p|] d sv ac] X e; destruct e; cbn; repeat case_match; apply _.
Defined.

(** ** The ledger is a run of the abstract machine *)

(** The prompts served, with the actions on them, lead the abstract
    machine from the empty conversation to the conversation of the
    ledger. *)
Definition balanced (s : Ledger) : Prop := steps [] (served s) (actions s) (agreed s).

Lemma acted_balanced s p a :
  balanced s → step (agreed s) (JsStr p) a (outcome (agreed s) a) →
  balanced (acted s p a (outcome (agreed s) a)).
Proof. intros Hs Hstep. by eapply steps_snoc. Qed.

Lemma exchange_step h p r :
  sendable p = true → step h (JsStr p) (exchange p r) (outcome h (exchange p r)).
Proof.
  unfold sendable, exchange. intros [Ht Hc%negb_true_iff]%andb_true_iff.
  destruct r as [err|[[|c cs]]]; by constructor.
Qed.

(** An event that the contract allows keeps the ledger balanced. *)
Lemma contract_step s {X} (e : chatE X) (a : X) :
  contract_allowed s e → balanced s → balanced (contract_after s e a).
Proof.
  destruct e; cbn; try done.
  - destruct (greeted s); [|done]. destruct (current s) as [p|]; [|done].
    unfold resetting. destruct (startsWith p CHAT_COMMAND_SAVE_TO) eqn:Hsave; [done|].
    destruct (startsWith p CHAT_COMMAND_RESET_CHAT) eqn:Hreset; [|done]. cbn.
    intros _ Hs. apply (acted_balanced s p Cleared Hs). by constructor.
  - destruct (current s) as [p|]; [|done]. intros [Ht _] Hs.
    apply (acted_balanced s p (Rejected (JsStr p)) Hs). by constructor.
  - by destruct a as [|[|]].
  - destruct (current s) as [p|]; [|done]. intros (Hsave & -> & _) Hs.
    apply (acted_balanced s p (Saved (substring 8 p) a) Hs). by constructor.
  - destruct (current s) as [p|]; [|done]. intros [Hp _] Hs.
    by apply acted_balanced, exchange_step.
  - by destruct (greeted s).
Qed.

Theorem contract_sound s l :
  accepts contract s l → balanced s → balanced (stateAfter contract s l).
Proof.
  revert s. induction l as [|[Y e a] l IH]; intros s; cbn; [done|].
  intros [He Hl] Hs. by apply IH, contract_step.
Qed.

(** ** The prompts of the ledger are those of the run *)

(** The prompt an event obtains: the line that answers a question, and
    after the greeting the prompt of the command line. *)
Definition readBy (g : bool) {X} (e : chatE X) : X → list string :=
  match e in chatE X return X → list string with
  | QuestionE _ => λ a, match a with inr (Some line) => [line] | _ => [] end
  | ArgvE => λ a, if g then [argPrompt a] else []
  | _ => λ _, []
  end.

Definition greets {X} (e : chatE X) : bool :=
  match e with LogE _ => true | _ => false end.

(** The prompts a run obtains, in order; [g] says whether the greeting is
    out. *)
Fixpoint promptsRead (g : bool) (l : list (Answered chatE)) : list string :=
  match l with
  | [] => []
  | ea :: l => readBy g (asked ea) (answer_of ea) ++ promptsRead (g || greets (asked ea)) l
  end.

(** The prompts of the ledger: those served, and the one at hand. *)
Definition obtainedSoFar (s : Ledger) : list JsVal :=
  served s ++ match current s with Some p => [JsStr p] | None => [] end.

Lemma contract_read s {X} (e : chatE X) (a : X) :
  contract_allowed s e →
  obtainedSoFar (contract_after s e a) = obtainedSoFar s ++ (JsStr <$> readBy (greeted s) e a) ∧
  greeted (contract_after s e a) = greeted s || greets e.
Proof.
  unfold obtainedSoFar.
  destruct s as [[] os h [p|] d sv ac], e; cbn; repeat case_match; simplify_eq/=;
    rewrite ?(right_id_L [] (++)); try done; intuition congruence.
Qed.

Theorem contract_reads s l :
  accepts contract s l →
  obtainedSoFar (stateAfter contract s l) =
  obtainedSoFar s ++ (JsStr <$> promptsRead (greeted s) l).
Proof.
  revert s. induction l as [|[Y e a] l IH]; intros s Hl; [by cbn; rewrite (right_id_L [] (++))|].
  destruct Hl as [He Hl]. destruct (contract_read s e a He) as [Hread Hg].
  change (obtainedSoFar (stateAfter contract (contract_after s e a) l) =
          obtainedSoFar s ++
          (JsStr <$> readBy (greeted s) e a ++ promptsRead (greeted s || greets e) l)).
  by rewrite (IH (contract_after s e a) Hl), Hread, Hg, fmap_app, (assoc_L (++)).
Qed.

Lemma sendable_not_resetting p : sendable p = true → resetting p = false.
Proof.
  unfold sendable, resetting, isCommand.
  intros [_ [_ ->]%negb_true_iff%orb_false_iff]%andb_true_iff. apply andb_false_r.
Qed.

(** ** The script under the contract *)

Section script.
Implicit Types (this : OpenAiChat) (p : string) (s : Ledger).

(** The ledger tracks the session: the greeting is out, the conversation
    of the ledger is the history of the object, whose client exists. *)
Definition tracks s this : Prop :=
  greeted s = true ∧ agreed s = _messages this ∧ is_Some (_openai this).

(** The ledger when a method starts on the prompt [p]. *)
Definition facing s this p : Prop := tracks s this ∧ current s = Some p ∧ due s = None.

(** The ledger when a method has acted: a method that throws leaves the
    report of its error due, one that completes leaves nothing. *)
Definition settledWith s (r : Completion ()) : Prop :=
  current s = None ∧
  due s = match r with Normal _ => None | Throw err => Some (Fail err) end.

(** The ledger between two prompts. *)
Definition quiet s : Prop := current s = None ∧ due s = None.

(** The leaves of a method: the ledger is computed, and what is left is
    read off it. *)
Ltac ledger_leaf :=
  unfold facing, tracks, settledWith, quiet, acted, obtained, reported in *; cbn in *;
  simplify_eq/=; repeat split; eauto.

Ltac ledger_start s H :=
  let Hg := fresh in let Ha := fresh in let Hc := fresh in let Hd := fresh in
  destruct s as [? ? ? ? ? ? ?]; destruct H as [(Hg & Ha & [? ?]) [Hc Hd]];
  cbn in Hg, Ha, Hc, Hd; subst.

Lemma sendT_conforms p this s :
  facing s this p → sendable p = true →
  always contract s (sendT p this) (λ s' r, tracks s' r.2 ∧ settledWith s' r.1).
Proof.
  intros Hs Hp. pose proof (sendable_not_resetting p Hp) as Hres.
  unfold sendT, debugLogT, _callOpenaiChatApiT. ledger_start s Hs.
  always_run; repeat (progress (cbn; rewrite ?Hres)); ledger_leaf.
  all: unfold push, exchange in *; repeat case_match; simplify_eq/=;
    by rewrite <- ?(assoc_L (++)).
Qed.

Lemma saveToT_conforms p this s :
  facing s this p → startsWith p CHAT_COMMAND_SAVE_TO = true →
  always contract s (saveToT p this) (λ s' r, tracks s' r.2 ∧ settledWith s' r.1).
Proof.
  intros Hs Hsave. unfold saveToT, _transcriptT. ledger_start s Hs.
  always_run; cbn; ledger_leaf.
Qed.

Lemma _resetChatT_conforms p this s :
  facing s this p → resetting p = true →
  always contract s (_resetChatT this) (λ s' r, tracks s' r.2 ∧ settledWith s' r.1).
Proof.
  intros Hs Hres. unfold _resetChatT. ledger_start s Hs.
  always_run; cbn; rewrite ?Hres, ?splice_all; ledger_leaf.
Qed.

(** [handlePrompt] acts on the prompt, or rejects it and leaves the ledger
    as it is: the report of the rejection is the action. *)
Lemma handlePromptT_conforms p this s :
  facing s this p →
  always contract s (handlePromptT (JsStr p) this)
    (λ s' r, tracks s' r.2 ∧
             (settledWith s' r.1 ∨
              s' = s ∧ truthy p = false ∧ r.1 = Throw (invalidPrompt p))).
Proof.
  intros Hs. unfold handlePromptT. cbn [toBoolean].
  destruct (truthy p) eqn:Ht; cbn [negb]; [|apply always_ret; destruct Hs; auto].
  destruct (startsWith p CHAT_COMMAND_SAVE_TO) eqn:Hsave.
  { eapply always_weaken; [by apply saveToT_conforms|]. intros ?? []; auto. }
  destruct (startsWith p CHAT_COMMAND_RESET_CHAT) eqn:Hreset.
  { eapply always_weaken; [apply (_resetChatT_conforms p); [done|]|].
    - unfold resetting. by rewrite Hsave, Hreset.
    - intros ?? []; auto. }
  eapply always_weaken; [apply sendT_conforms; [done|]|].
  - unfold sendable, isCommand. by rewrite Ht, Hsave, Hreset.
  - intros ?? []; auto.
Qed.

(** The [catch] block prints what is due for the error it has caught. *)
Lemma reportErrorT_conforms err s :
  current s = None → due s = Some (Fail err) →
  always contract s (reportErrorT err) (λ s' _, s' = reported s).
Proof.
  intros Hc Hd. unfold reportErrorT.
  always_run; cbn; rewrite ?Hc, ?Hd; try done.
  match goal with H : structuredError _ = _ |- _ => by rewrite H end.
Qed.

(** After a pass of the body the prompt has been acted on and the user has
    been told. *)
Lemma iterationT_conforms p this s :
  facing s this p →
  always contract s (iterationT p this) (λ s' this', tracks s' this' ∧ quiet s').
Proof.
  intros Hs. unfold iterationT. eapply always_call; [by apply handlePromptT_conforms|].
  intros s' [[[]|err] this'] [Ht [[Hc Hd]|(-> & Hp & Herr)]]; cbn [fst snd] in *;
    simplify_eq.
  - by apply always_ret.
  - eapply always_call; [by apply reportErrorT_conforms|].
    intros ? [] ->. apply always_ret. destruct Ht as (? & ? & ?). by ledger_leaf.
  - destruct Hs as (_ & Hc & _), Ht as (? & ? & ?). unfold reportErrorT.
    always_run; cbn; by rewrite ?Hc.
Qed.

(** The loop between two prompts: the ledger tracks the session, no prompt
    is at hand and nothing is due. *)
Definition idle s (st : Generator * OpenAiChat) : Prop := tracks s st.2 ∧ quiet s.

(** A resumption of the generator: the prompt it yields is at hand. *)
Lemma nextT_conforms (g : Generator) this s :
  idle s (g, this) →
  always contract s (nextT g)
    (λ s' r, tracks s' this ∧ due s' = None ∧
             current s' = match r.1 with Normal (Yielded p) => Some p | _ => None end).
Proof.
  intros [(Hg & Ha & Ho) [Hc Hd]]. unfold nextT, promptFromArgT, promptFromReadlineT.
  destruct s. cbn in Hg, Ha, Hc, Hd. subst.
  always_run; cbn; repeat case_match; ledger_leaf.
Qed.

Lemma passT_conforms (st : Generator * OpenAiChat) s :
  idle s st →
  always contract s (passT st)
    (λ s' lr, match lr with inl st' => idle s' st' | inr _ => quiet s' end).
Proof.
  destruct st as [g this]. intros Hs. unfold passT. cbn [fst snd].
  eapply always_call; [by apply nextT_conforms|].
  intros s1 [[[p| |]|err] g'] (Ht & Hd & Hc); cbn in Hc; try by apply always_ret.
  eapply always_call; [by apply iterationT_conforms|].
  intros s2 this' Hs2. by apply always_ret.
Qed.

(** [chat], from a ledger that has not seen the greeting. *)
Lemma chatT_conforms this s :
  greeted s = false → quiet s → agreed s = _messages this → is_Some (_openai this) →
  always contract s (chatT this) (λ s' _, quiet s').
Proof.
  intros Hg [Hc Hd] Ha Ho. unfold chatT. destruct s. cbn in Hg, Hc, Hd, Ha. subst.
  always_run. cbn.
  apply (always_iter contract _ idle); [|by ledger_leaf].
  intros s st Hs. eapply always_weaken; [by apply passT_conforms|].
  by intros s' [st'|r].
Qed.

(** The whole script keeps the contract, in every environment and on every
    run, the runs that never end included. *)
Lemma mainT_conforms : always contract ledger0 mainT (λ s _, quiet s).
Proof.
  unfold mainT, bootT. always_run; try done.
  eapply always_weaken; [by apply chatT_conforms|].
  intros s' [r this] [Hc Hd]. unfold settleT. cbn [fst].
  always_run; cbn; by rewrite ?Hc, ?Hd.
Qed.

End script.

(** The contract and the monitor of [Always] together: one pass over a
    run checks both. *)
Corollary mainT_monitored :
  always (both watch contract) (watch0, ledger0) mainT
    (λ s status, settled s.1 status ∧ quiet s.2).
Proof.
  apply (always_both watch contract mainT (watch0, ledger0) settled (λ s _, quiet s)).
  split; [apply mainT_always|apply mainT_conforms].
Qed.

(** ** The runs of the script *)

(** C9: The script refines the contract of the session event by event, in
    every environment and on every run, however long.  On a run of the
    script: a request is sent only for a prompt that was read, is not empty
    and is no command, and its messages are the conversation of the
    contract followed by this prompt; a file is written only for a prompt
    that starts with [save to], under the name that follows the command,
    with the transcript of the conversation of the contract; the next
    prompt is asked for only when the last one has been acted on.  The
    prompts of the run, in the order they were read, are those the
    contract has served and the one at hand, and the abstract machine
    goes from the empty conversation to the conversation of the ledger by
    one action per prompt served.  What an action owes the user is
    printed before the next prompt is asked for: the answer of the service,
    the confirmation of a write, the report of a failure, as one line for a
    structured error and as the error itself otherwise.  When the script
    ends, every prompt has been acted on and nothing is due. *)
Theorem script_conforms (l : list (Answered chatE)) (r : Ending chatE ExitStatus) :
  run mainT l r →
  let s := stateAfter contract ledger0 l in
  accepts contract ledger0 l ∧
  steps [] (served s) (actions s) (agreed s) ∧
  JsStr <$> promptsRead false l = obtainedSoFar s ∧
  endsWell contract (λ s _, current s = None ∧ due s = None) s r.
Proof.
  intros Hrun. destruct (always_run contract _ _ _ _ _ mainT_conforms Hrun) as [Hl Hr].
  split_and!; [done| |by rewrite (contract_reads _ _ Hl)|done].
  apply (contract_sound _ _ Hl). constructor.
Qed.

(** An environment in which the user types the lines it is given, the
    service answers [hi], and writes succeed. *)
Definition typing : ∀ Y, chatE Y → list string → list string * Y :=
  λ Y e lines,
    match e in chatE Y return list string * Y with
    | QuestionE _ =>
        match lines with
        | [] => ([], inr None)
        | line :: lines => (lines, inr (Some line))
        end
    | LogE _ | ErrorE _ | ErrorObjectE _ => (lines, tt)
    | WriteFileE _ _ => (lines, None)
    | CompletionE _ _ => (lines, reply (assistant "hi"))
    | DebugE | ModelE => (lines, None)
    | ApiKeyE => (lines, Some "sk-demo")
    | PlatformE => (lines, POSIX)
    | ArgvE => (lines, ["node"; "index.js"])
    end.

Definition typed : list string := ["hello"; "save to notes"; "reset"; ""].

Lemma script_conforms_witness :
  let l := (exec 80 typing mainT typed).1.1 in
  let s := stateAfter contract ledger0 l in
  accepts contract ledger0 l ∧
  steps [] (served s) (actions s) (agreed s) ∧
  JsStr <$> promptsRead false l = obtainedSoFar s ∧
  endsWell contract (λ s _, current s = None ∧ due s = None) s (Returns Idle).
Proof.
  apply script_conforms, (exec_run typing 80 mainT typed _ []). by vm_compute.
Defined.

(** The ledger of this run. *)
Example typed_ledger :
  let s := stateAfter contract ledger0 (exec 80 typing mainT typed).1.1 in
  served s = JsStr <$> typed ∧
  actions s = [Exchanged "hello" (assistant "hi"); Saved "notes" None; Cleared;
               Rejected (JsStr "")] ∧
  agreed s = [] ∧ current s = None ∧ due s = None.
Proof. by vm_compute. Qed.

(** ** Runs the contract rejects *)

(** The contract is checked by computation.  It accepts the run above, and
    rejects a run that asks for a completion before any prompt was read,
    and a run whose request after a reset still carries the conversation
    from before. *)
Example typed_accepted :
  bool_decide (accepts contract ledger0 (exec 80 typing mainT typed).1.1) = true.
Proof. by vm_compute. Qed.

Definition request (history : list Message) : chatE ApiResult :=
  CompletionE "sk-demo" {| req_model := CHAT_DEFAULT_MODEL; req_messages := history |}.

Example unprompted_rejected :
  ¬ accepts contract ledger0
      [answered (LogE WELCOME) tt;
       answered (request [userMessage "hello"]) (reply (assistant "hi"))].
Proof. apply (rejects contract). by vm_compute. Qed.

Example stale_history_rejected :
  ¬ accepts contract ledger0
      [answered (LogE WELCOME) tt;
       answered (QuestionE "> ") (inr (Some "hello"));
       answered (request [userMessage "hello"]) (reply (assistant "hi"));
       answered (LogE "hi") tt;
       answered (QuestionE "> ") (inr (Some "reset"));
       answered (LogE RESET_DONE) tt;
       answered (QuestionE "> ") (inr (Some "again"));
       answered (request [userMessage "hello"; assistant "hi"; userMessage "again"])
                (reply (assistant "hi"))].
Proof. apply (rejects contract). by vm_compute. Qed.

(** A line that is read and never acted on: the next question is refused. *)
Example dropped_prompt_rejected :
  ¬ accepts contract ledger0
      [answered (LogE WELCOME) tt;
       answered (QuestionE "> ") (inr (Some "hello"));
       answered (QuestionE "> ") (inr (Some "again"))].
Proof. apply (rejects contract). by vm_compute. Qed.

(** An answer that is not printed, and a structured failure that is
    reported as an object instead of its line. *)
Example silent_answer_rejected :
  ¬ accepts contract ledger0
      [answered (LogE WELCOME) tt;
       answered (QuestionE "> ") (inr (Some "hello"));
       answered (request [userMessage "hello"]) (reply (assistant "hi"));
       answered (QuestionE "> ") (inr (Some "again"))].
Proof. apply (rejects contract). by vm_compute. Qed.

Example unformatted_failure_rejected :
  ¬ accepts contract ledger0
      [answered (LogE WELCOME) tt;
       answered (QuestionE "> ") (inr (Some "hello"));
       answered (request [userMessage "hello"])
                (httpFailure 429 "Too Many Requests" "rate limited");
       answered (ErrorObjectE (httpError 429 "Too Many Requests" "rate limited")) tt].
Proof. apply (rejects contract). by vm_compute. Qed.

Example formatted_failure_accepted :
  accepts contract ledger0
      [answered (LogE WELCOME) tt;
       answered (QuestionE "> ") (inr (Some "hello"));
       answered (request [userMessage "hello"])
                (httpFailure 429 "Too Many Requests" "rate limited");
       answered (ErrorE "Error 429 Too Many Requests: rate limited") tt;
       answered (QuestionE "> ") (inr None)].
Proof. by vm_compute. Qed.
