(* ===== verification/Progress.v ===== *)
(** * The script never spins

    The loop of [chat] has no bound, and in the tree of [Interaction] each
    pass of a loop is one silent step.  A loop whose passes did nothing
    would be a tree of silent steps only: a script that hangs without
    asking anything of anyone.  [progress] rules this out: after finitely
    many silent steps the tree returns or asks, and after every answer the
    same holds again.  The predicate carries a flag that says whether an
    event has happened, which is what the rule for a loop needs: a pass may
    go on to the next only after an event.

    For the script: every pass of [for await] asks for a line or for the
    arguments, or ends the loop.  Hence, in every environment, the script
    run with enough fuel performs as many events as one asks for, or
    ends. *)

From S2P Require Import Prelude JsString Message Json Runtime Stubs PromptSource ChatSession Main Interaction Always Runs.
From ITree Require Import ITree Eq.Shallow.
From Paco Require Import paco.

Section progress.
Context {E : Type → Type}.

(** One step of observation: after finitely many silent steps, a result
    that satisfies [Q] with the flag as it is, or an event, each answer to
    which leads to a tree in [rec] with the flag set. *)
Inductive progressF {X} (Q : bool → X → Prop) (rec : bool → itree E X → Prop) (b : bool)
    : itree' E X → Prop :=
| progress_now x : Q b x → progressF Q rec b (RetF x)
| progress_later t : progressF Q rec b (observe t) → progressF Q rec b (TauF t)
| progress_asks Y (e : E Y) k : (∀ a, rec true (k a)) → progressF Q rec b (VisF e k).

Lemma progressF_mono {X} (Q Q' : bool → X → Prop) (rec rec' : bool → itree E X → Prop) b ot :
  progressF Q rec b ot → (∀ x, Q b x → Q' b x) → (∀ t, rec true t → rec' true t) →
  progressF Q' rec' b ot.
Proof. induction 1; intros HQ Hrec; constructor; auto. Qed.

Definition progress_ {X} (Q : bool → X → Prop) (rec : bool → itree E X → Prop)
    (b : bool) (t : itree E X) : Prop :=
  progressF Q rec b (observe t).

Lemma progress_monotone {X} (Q : bool → X → Prop) : monotone2 (progress_ Q).
Proof. intros b t r r' Ht Hr. eapply progressF_mono; eauto. Qed.
Hint Resolve progress_monotone : paco.

(** [progress b t Q]: the tree [t], started with the flag [b], never takes
    infinitely many silent steps in a row, and [Q] holds of the flag and
    the result when it returns. *)
Definition progress {X} (b : bool) (t : itree E X) (Q : bool → X → Prop) : Prop :=
  paco2 (progress_ Q) bot2 b t.

(** A step of observation of a tree that progresses, for any [rec]. *)
Lemma progress_unfold {X} (Q : bool → X → Prop) rec b (t : itree E X) :
  progress b t Q → progressF Q (upaco2 (progress_ Q) rec) b (observe t).
Proof.
  intros Ht. punfold Ht. eapply progressF_mono; [exact Ht|done|].
  intros u [Hu|[]]. left. eapply paco2_mon; [exact Hu|done].
Qed.

(** ** Rules *)

Lemma progress_ret {X} (x : X) (Q : bool → X → Prop) b : Q b x → progress b (mret x) Q.
Proof. intros Hx. pfold. by constructor. Qed.

Lemma progress_trigger {X} (e : E X) (Q : bool → X → Prop) b :
  (∀ a, Q true a) → progress b (ITree.trigger e) Q.
Proof.
  intros HQ. pfold. constructor. intros a. left. pfold. constructor. apply HQ.
Qed.

Lemma progress_weaken {X} (t : itree E X) (Q Q' : bool → X → Prop) b :
  progress b t Q → (∀ b' x, Q b' x → Q' b' x) → progress b t Q'.
Proof.
  intros Ht HQ. revert b t Ht. pcofix CIH. intros b t Ht.
  punfold Ht. pfold. unfold progress_ in *. revert Ht. generalize (observe t).
  induction 1 as [x Hx|t' _ IH|Y e k Hk]; constructor; auto.
  intros a. right. apply CIH. by destruct (Hk a) as [|[]].
Qed.

(** A sequence: the first part, and the rest with the flag the first part
    leaves. *)
Lemma progress_bind {X Y} (t : itree E X) (k : X → itree E Y) (Q : bool → Y → Prop) b :
  progress b t (λ b' x, progress b' (k x) Q) → progress b (t ≫= k) Q.
Proof.
  revert b t. pcofix CIH. intros b t Ht.
  punfold Ht. pfold. unfold progress_, mbind, itree_mbind in *.
  rewrite observe_bind. revert Ht. generalize (observe t).
  induction 1 as [x Hx|t' _ IH|Z e h Hh]; cbn.
  - by apply progress_unfold.
  - constructor. by rewrite observe_bind.
  - constructor. intros a. right. apply CIH. by destruct (Hh a) as [|[]].
Qed.

Lemma progress_call {X Y} (t : itree E X) (k : X → itree E Y)
    (Q : bool → X → Prop) (Q' : bool → Y → Prop) b :
  progress b t Q → (∀ b' x, Q b' x → progress b' (k x) Q') → progress b (t ≫= k) Q'.
Proof. intros Ht Hk. by apply progress_bind, (progress_weaken _ _ _ _ Ht). Qed.

Section iter.
Context {I X : Type} (body : I → itree E (I + X)) (Q : X → Prop).

(** What a pass owes: it goes on only after an event. *)
Definition pass (b : bool) (lr : I + X) : Prop :=
  match lr with inl _ => b = true | inr x => Q x end.

Local Abbreviation next := (λ lr : I + X, ITree.on_left lr l (Tau (ITree.iter body l))).

(** A pass from its start to its first event or its result: it cannot go
    on to the next pass before. *)
Lemma progress_first rec0 rec b ot :
  progressF pass rec0 false ot →
  (∀ t, rec0 true t → rec true (ITree.bind t next)) →
  progressF (λ _, Q) rec b
    (observe match ot with
             | RetF r => next r
             | TauF t0 => Tau (ITree.bind t0 next)
             | VisF e ke => Vis e (λ x, ITree.bind (ke x) next)
             end).
Proof.
  intros Hot Hrec. induction Hot as [[j|x] Hx|t' _ IH|Y e k Hk]; cbn.
  - done.
  - by constructor.
  - constructor. by rewrite observe_bind.
  - constructor. auto.
Qed.

(** The rest of a pass after an event, and the passes that follow. *)
Lemma progress_rest b u t :
  (∀ i, progress false (body i) pass) →
  progress true t pass → observe u = observe (ITree.bind t next) →
  progress b u (λ _, Q).
Proof.
  intros Hbody. revert b u t. pcofix CIH. intros b u t Ht Hu.
  punfold Ht. pfold. unfold progress_ in *. rewrite Hu, observe_bind.
  revert Ht. generalize (observe t).
  induction 1 as [[j|x] Hx|t' _ IH|Y e k Hk]; cbn.
  - constructor. rewrite (observing_observe (unfold_aloop_ body j)), observe_bind.
    specialize (Hbody j). punfold Hbody. apply (progress_first _ _ _ _ Hbody).
    intros t' Ht'. right. apply (CIH _ _ t'); [by pclearbot|done].
  - by constructor.
  - constructor. by rewrite observe_bind.
  - constructor. intros a. right. apply (CIH _ _ (k a)); [|done].
    by destruct (Hk a) as [|[]].
Qed.

(** The loop: each pass progresses, and goes on only after an event. *)
Lemma progress_iter b i :
  (∀ i, progress false (body i) pass) → progress b (ITree.iter body i) (λ _, Q).
Proof.
  intros Hbody. pfold. unfold progress_.
  rewrite (observing_observe (unfold_aloop_ body i)), observe_bind.
  pose proof (Hbody i) as Hi. punfold Hi. apply (progress_first _ _ _ _ Hi).
  intros t Ht. left. apply (progress_rest _ _ t); [done|by pclearbot|done].
Qed.

End iter.

(** ** Progress of a run *)

(** The tree [t] keeps going in the environment [h]: for every number of
    events there is an amount of fuel with which the run has as many, or
    has returned. *)
Definition keepsGoing {S X} (h : ∀ Y, E Y → S → S * Y) (t : itree E X) (s : S) : Prop :=
  ∀ n, ∃ fuel, n ≤ length (exec fuel h t s).1.1 ∨ is_Some (exec fuel h t s).2.

Lemma progress_keepsGoing {S X} (h : ∀ Y, E Y → S → S * Y) b (t : itree E X) Q s :
  progress b t Q → keepsGoing h t s.
Proof.
  intros Ht n. revert b t s Ht. induction n as [|n IHn]; intros b t s Ht.
  { exists 0. left. simpl. lia. }
  punfold Ht. unfold progress_ in Ht. remember (observe t) as ot eqn:Hot.
  revert t Hot. induction Ht as [x Hx|t' _ IH|Y e k Hk]; intros t Hot.
  - exists 1. right. simpl. by rewrite <- Hot.
  - destruct (IH t' eq_refl) as [fuel Hfuel]. exists (Datatypes.S fuel). simpl.
    by rewrite <- Hot.
  - destruct (h Y e s) as [s1 a] eqn:Ha. destruct (Hk a) as [Ha'|[]].
    destruct (IHn true (k a) s1 Ha') as [fuel Hfuel]. exists (Datatypes.S fuel). simpl.
    rewrite <- Hot, Ha. destruct (exec fuel h (k a) s1) as [[l s2] r]. simpl in *.
    destruct Hfuel; [left; lia|by right].
Qed.

(** A loop whose passes do nothing does not keep going, and so does not
    progress: this is the script that [progress] excludes. *)
Definition idleLoop : itree E () := ITree.iter (λ _ : (), Ret (inl ())) ().

Lemma idleLoop_exec {S} (h : ∀ Y, E Y → S → S * Y) fuel s :
  exec fuel h idleLoop s = ([], s, None).
Proof. induction fuel as [|fuel IH]; [done|]. exact IH. Qed.

Lemma idleLoop_hangs {S} (h : ∀ Y, E Y → S → S * Y) (s : S) b Q :
  ¬ keepsGoing h idleLoop s ∧ ¬ progress b idleLoop Q.
Proof.
  assert (¬ keepsGoing h idleLoop s) as Hhangs.
  { intros Hgoes. destruct (Hgoes 1) as [fuel Hfuel]. rewrite idleLoop_exec in Hfuel.
    destruct Hfuel as [?|[? ?]]; simpl in *; [lia|done]. }
  split; [done|]. intros Ht. by eapply Hhangs, progress_keepsGoing.
Qed.

End progress.

#[export] Hint Resolve progress_monotone : paco.

(** A tree is followed along its events, as in [Always]. *)
Ltac progress_step :=
  lazymatch goal with
  | |- progress _ (mret _) _ => apply progress_ret
  | |- progress _ (itree_mret _ _) _ => apply progress_ret
  | |- progress _ (ITree.trigger _) _ => apply progress_trigger; intros ?
  | |- progress _ (_ ≫= _) _ => apply progress_bind
  | |- progress _ (itree_mbind _ _ _ _) _ => apply progress_bind
  | |- progress _ (match ?x with _ => _ end) _ => destruct x eqn:?
  end.
Ltac progress_run := cbv beta zeta; repeat (progress_step; cbv beta zeta).

(** ** The script *)

Section script.
Implicit Types (this : OpenAiChat) (p : string) (v : JsVal) (b : bool).

(** [handlePrompt] completes normally only after an event. *)
Lemma handlePromptT_progress v this b :
  progress b (handlePromptT v this) (λ b' r, isNormal r.1 = true → b' = true).
Proof.
  unfold handlePromptT, saveToT, _transcriptT, _resetChatT, sendT, debugLogT,
    _callOpenaiChatApiT.
  progress_run; try done.
Qed.

(** Every prompt leads to an event: the handler asks something of the
    environment, or the [catch] block reports. *)
Lemma iterationT_progress p this b :
  progress b (iterationT p this) (λ b' _, b' = true).
Proof.
  unfold iterationT. eapply progress_call; [apply handlePromptT_progress|].
  intros b' [[[]|err] this'] Hb; unfold reportErrorT; progress_run; auto.
Qed.

Lemma nextT_progress (g : Generator) b :
  progress b (nextT g)
    (λ b' r, match r.1 with Normal (Yielded _) => b' = true | _ => True end).
Proof.
  unfold nextT, promptFromArgT, promptFromReadlineT. progress_run; cbn; by repeat case_match.
Qed.

(** A pass of the loop goes on to the next only after an event. *)
Lemma passT_progress (st : Generator * OpenAiChat) :
  progress false (passT st) (pass (λ _, True)).
Proof.
  unfold passT. eapply progress_call; [apply nextT_progress|].
  intros b [[[p| |]|err] g] Hb; try by apply progress_ret.
  eapply progress_call; [apply iterationT_progress|].
  intros b' this' ->. by apply progress_ret.
Qed.

Lemma chatT_progress this b : progress b (chatT this) (λ _ _, True).
Proof.
  unfold chatT. progress_run. apply progress_iter. intros st. apply passT_progress.
Qed.

Lemma mainT_progress : progress false mainT (λ _ _, True).
Proof.
  unfold mainT, bootT. progress_run; try done.
  eapply progress_weaken; [apply chatT_progress|].
  intros b [r this] _. unfold settleT. cbn [fst]. progress_run; done.
Qed.

End script.

(** C16: The script never hangs by itself.  In every environment, whatever
    it answers and for as long as it answers, the script run step by step
    performs as many events as one asks for, or ends: between two events,
    and before it ends, it takes finitely many steps.  Each pass of the
    loop of [chat] asks for a line or for the arguments, or ends the
    loop. *)
Theorem script_progress {S} (h : ∀ Y, chatE Y → S → S * Y) (s : S) :
  keepsGoing h mainT s.
Proof. eapply progress_keepsGoing, mainT_progress. Qed.
