(* ===== verification/Adequacy.v ===== *)
(** * The interaction tree and the fuel model agree

    The tree of [Interaction], run in a world, gives the result the fuel
    model of [ChatSession] computes, whenever the fuel of that model is
    enough: fuel bounds the model, not the program.  A tree finishes in a
    world ([finishes]) when it has a finite run ([Runs.run]) that returns
    and whose answers are those of the world; the interpretation of the
    tree then converges to the same result ([finishes_returns]).  The
    proofs follow the methods: one lemma of agreement per method, composed
    by the rules for [finishes] below, up to the loop, [chat] and the whole
    script.  The run of the model, being a run of the tree, is accepted by
    the monitor of [Always]. *)

From S2P Require Import Prelude JsString Message Json Runtime Stubs PromptSource ChatSession Main Requests Interaction Always Runs.
From ITree Require Import ITree ITreeFacts Events.State Events.StateFacts.

Section agreement.
Context {F R : Type} `{!FileSystem F, !RemoteApi R}.
Implicit Types (m : Machine F R) (w : World F R) (this : OpenAiChat) (p : string) (v : JsVal).

(** ** Runs in a world *)

(** The world as the environment of a run ([Runs.follows]): the answers
    of a run are those of the world [w], each given in the world the events
    before have left. *)
Definition byWorld : ∀ Y, chatE Y → World F R → World F R * Y := λ Y e w, answer e w.

Definition answeredBy w (l : list (Answered chatE)) : Prop := follows byWorld w l.

(** The world after a run. *)
Definition worldAfter w (l : list (Answered chatE)) : World F R := envAfter byWorld w l.

(** The tree [t], with its events answered by the world [w], returns [x]
    after finitely many events and leaves [w']. *)
Definition finishes {X} (t : itree chatE X) w w' (x : X) : Prop :=
  ∃ l, run t l (Returns x) ∧ answeredBy w l ∧ worldAfter w l = w'.

(** The same, as the library states it: the interpretation of the tree in
    the world converges to the result. *)
Definition returns {X} (t : itree chatE X) w w' (x : X) : Prop :=
  runT t w ≈ Ret (w', x).

(** ** Rules *)

Lemma finishes_ret {X} (x : X) w : finishes (mret x) w w x.
Proof. exists []. split; [by constructor|done]. Qed.

Lemma finishes_trigger {X} (e : chatE X) w :
  finishes (ITree.trigger e) w (answer e w).1 (answer e w).2.
Proof.
  exists [answered e (answer e w).2]. split; [|done].
  eapply run_vis; [reflexivity|]. by constructor.
Qed.

Lemma finishes_bind {X Y} (t : itree chatE X) (k : X → itree chatE Y) w w1 x w2 y :
  finishes t w w1 x → finishes (k x) w1 w2 y → finishes (t ≫= k) w w2 y.
Proof.
  intros (l & Hl & Ha & <-) (l' & Hl' & Ha' & <-). exists (l ++ l').
  split; [by eapply run_bind|]. unfold answeredBy, worldAfter, envAfter.
  by rewrite follows_app, foldl_app.
Qed.

Lemma finishes_eq {X} (t : itree chatE X) w w1 x w2 y :
  finishes t w w1 x → w1 = w2 → x = y → finishes t w w2 y.
Proof. by intros ? <- <-. Qed.

(** One pass of the loop of a tree, and what follows it. *)
Lemma finishes_iter {I X} (body : I → itree chatE (I + X)) (i : I) w w1 lr w' (x : X) :
  finishes (body i) w w1 lr →
  match lr with
  | inl j => finishes (ITree.iter body j) w1 w' x
  | inr y => w1 = w' ∧ y = x
  end →
  finishes (ITree.iter body i) w w' x.
Proof.
  intros (l & Hl & Ha & <-). destruct lr as [j|y].
  - intros (l' & Hl' & Ha' & <-). exists (l ++ l').
    split; [by eapply run_iter_more|]. unfold answeredBy, worldAfter, envAfter.
    by rewrite follows_app, foldl_app.
  - intros [<- <-]. exists l. by split; [apply run_iter_done|].
Qed.

(** A run that finishes in a world is the result of the interpretation. *)
Lemma finishes_returns {X} (t : itree chatE X) w w' (x : X) :
  finishes t w w' x → returns t w w' x.
Proof.
  unfold returns, runT. intros (l & Hl & Ha & <-). revert w Ha.
  remember (Returns x) as rx eqn:Hx.
  induction Hl as [t x' Hobs|t Z e h Hobs|t t' l rx Hobs _ IH|t Z e h a l rx Hobs _ IH];
    intros w Ha; simplify_eq/=; rewrite (itree_eta t), Hobs.
  - by rewrite interp_state_ret.
  - by rewrite interp_state_tau, tau_eutt, IH.
  - destruct Ha as [-> Ha]. rewrite interp_state_vis. unfold handleWorld at 1.
    rewrite bind_ret_l, tau_eutt. by apply IH.
Qed.

(** A tree finishes in a world exactly when running it with the answers
    of the world returns, given the fuel the run needs. *)
Lemma finishes_exec {X} (t : itree chatE X) w w' x :
  finishes t w w' x ↔ ∃ fuel l, exec fuel byWorld t w = (l, w', Some x).
Proof.
  split.
  - intros (l & Hl & Ha & <-). destruct (exec_complete byWorld _ _ _ _ Hl Ha) as [fuel Hexec].
    by exists fuel, l.
  - intros (fuel & l & Hexec). exists l. split; [by eapply exec_run|].
    by eapply exec_follows.
Qed.

(** In a world a tree finishes in one way. *)
Lemma finishes_functional {X} (t : itree chatE X) w w1 x w2 y :
  finishes t w w1 x → finishes t w w2 y → w1 = w2 ∧ x = y.
Proof.
  intros (l & Hl & Ha & <-) (l' & Hl' & Ha' & <-).
  by destruct (run_functional byWorld _ _ _ _ _ _ Hl Ha Hl' Ha') as [-> ->].
Qed.

End agreement.

(** A tree without a choice left to make finishes with what its events,
    answered one after the other, lead to.  The choices are made before, by
    case analysis with equations, which the tactic rewrites with. *)
Ltac returns_leaf rule :=
  first [apply rule | eapply finishes_eq; [apply rule|reflexivity..]].

Ltac returns_run :=
  unfold answer; munfold; cbn;
  repeat match goal with H : ?x = _ |- context [?x] => rewrite H; cbn end;
  lazymatch goal with
  | |- finishes (itree_mret _ _) _ _ _ => returns_leaf finishes_ret
  | |- finishes (mret _) _ _ _ => returns_leaf finishes_ret
  | |- finishes (ITree.trigger _) _ _ _ => returns_leaf finishes_trigger
  | |- finishes (itree_mbind _ _ _ _) _ _ _ => eapply finishes_bind; [returns_run|returns_run]
  | |- finishes (_ ≫= _) _ _ _ => eapply finishes_bind; [returns_run|returns_run]
  end.

Section methods.
Context {F R : Type} `{!FileSystem F, !RemoteApi R}.
Implicit Types (m : Machine F R) (w : World F R) (this : OpenAiChat) (p : string) (v : JsVal).

(** The result of a method of the fuel model on the object [this] in the
    world [w], as a tree gives it. *)
Definition agrees {X} (t : itree chatE (Completion X * OpenAiChat))
    (c : M (Machine F R) X) this w : Prop :=
  finishes t w (world (c (mkMachine this w)).2)
    ((c (mkMachine this w)).1, self (c (mkMachine this w)).2).

Lemma _resetChatT_agrees this w : agrees (_resetChatT this) _resetChat this w.
Proof. unfold agrees, _resetChatT. returns_run. Qed.

Lemma saveToT_agrees p this w : agrees (saveToT p this) (saveTo p) this w.
Proof.
  unfold agrees, saveToT, saveTo, _transcriptT. munfold. cbn.
  destruct (writeFile _ _ _) as [[err|] f] eqn:Hw; returns_run.
Qed.

Lemma sendT_agrees p this w : agrees (sendT p this) (send p) this w.
Proof.
  unfold agrees, sendT, send, debugLogT, _callOpenaiChatApiT, _callOpenaiChatApi, debugLog.
  munfold. cbn.
  destruct (truthyOpt (DEBUG (env w))) eqn:Hd; cbn;
    (destruct (_openai this) as [api|] eqn:Hapi; cbn; [|returns_run]);
    (destruct (createChatCompletion _ _ _) as [[err|[[|c cs]]] r] eqn:Hcall; cbn;
     rewrite ?Hd; cbn; returns_run).
Qed.

End methods.

Section loop.
Context {F R : Type} `{!FileSystem F, !RemoteApi R}.
Implicit Types (m : Machine F R) (w : World F R) (this : OpenAiChat) (p : string) (v : JsVal).

Lemma handlePromptT_agrees v this w : agrees (handlePromptT v this) (handlePrompt v) this w.
Proof.
  unfold handlePromptT, handlePrompt.
  destruct (negb (toBoolean v)); [apply finishes_ret|].
  destruct v as [| |p]; try apply finishes_ret.
  repeat case_match; auto using saveToT_agrees, _resetChatT_agrees, sendT_agrees.
Qed.

Lemma reportErrorT_agrees err this w :
  finishes (reportErrorT err) w (world (reportError err (mkMachine this w)).2) tt.
Proof. unfold reportErrorT, reportError. repeat case_match; returns_run. Qed.

Lemma reportError_keeps err m : self (reportError err m).2 = self m.
Proof. unfold reportError. by repeat case_match. Qed.

Lemma iterationT_agrees p this w :
  finishes (iterationT p this) w (world (iteration p (mkMachine this w)).2)
    (self (iteration p (mkMachine this w)).2).
Proof.
  unfold iterationT, iteration, tryCatch.
  eapply finishes_bind; [apply handlePromptT_agrees|].
  destruct (handlePrompt _ _) as [[[]|err] [this' w']]; cbn; [apply finishes_ret|].
  eapply finishes_bind; [apply (reportErrorT_agrees err this')|].
  eapply finishes_eq; [apply finishes_ret|done|].
  by rewrite reportError_keeps.
Qed.

Lemma nextT_agrees g this w :
  finishes (nextT g) w (world (liftW (next g) (mkMachine this w)).2)
    (match (liftW (next g) (mkMachine this w)).1 with
     | Normal r => (Normal r.1, r.2)
     | Throw err => (Throw err, {| source := source g; started := true |})
     end).
Proof.
  unfold nextT, next, promptFromArgT, promptFromArg, promptFromReadlineT,
    promptFromReadline, liftW. munfold. cbn.
  destruct (source g), (started g), (stdin w) as [|line rest] eqn:Hin,
    (closed w) as [err|] eqn:Hc; returns_run.
Qed.

Lemma liftW_next_keeps g m : self (liftW (next g) m).2 = self m.
Proof. unfold liftW. by destruct (next g (world m)). Qed.

Lemma loopT_agrees fuel g this w :
  (forAwait fuel g iteration (mkMachine this w)).1 ≠ Normal OutOfFuel →
  finishes (ITree.iter passT (g, this)) w
    (world (forAwait fuel g iteration (mkMachine this w)).2)
    ((forAwait fuel g iteration (mkMachine this w)).1,
     self (forAwait fuel g iteration (mkMachine this w)).2).
Proof.
  revert g this w. induction fuel as [|fuel IH]; intros g this w Hne; [done|].
  rewrite forAwait_pass in *.
  pose proof (nextT_agrees g this w) as Hn.
  pose proof (liftW_next_keeps g (mkMachine this w)) as Hk.
  destruct (liftW (next g) (mkMachine this w)) as [[[r g']|err] [this1 w1]];
    cbn in Hn, Hk; subst this1; [destruct r as [p| |]|]; cbn in Hne |- *;
    (eapply finishes_iter;
     [unfold passT; eapply finishes_bind; [exact Hn|]; cbn [fst snd]|]);
    try apply finishes_ret; try done.
  - eapply finishes_bind; [apply iterationT_agrees|apply finishes_ret].
  - exact (IH g' (self (iteration p (mkMachine this w1)).2)
             (world (iteration p (mkMachine this w1)).2) Hne).
Qed.

Lemma bootT_finishes key w :
  finishes (bootT key) w (world (boot key w)) (self (boot key w)).
Proof. unfold bootT, boot. returns_run. Qed.

Lemma chatT_finishes fuel m :
  (chat fuel m).1 ≠ Normal OutOfFuel →
  finishes (chatT (self m)) (world m) (world (chat fuel m).2)
    ((chat fuel m).1, self (chat fuel m).2).
Proof.
  rewrite chat_unfold. intros Hne. unfold chatT.
  eapply finishes_bind; [apply finishes_trigger|].
  exact (loopT_agrees fuel _ (self m) _ Hne).
Qed.

Lemma mainT_finishes fuel w :
  (main fuel w).1 ≠ Running → finishes mainT w (main fuel w).2 (main fuel w).1.
Proof.
  intros Hrun. unfold main, mainT in *.
  eapply finishes_bind; [apply finishes_trigger|]. cbn [answer fst snd].
  destruct (OPENAI_API_KEY (env w)) as [key|]; [|returns_run].
  destruct (truthy key); [|returns_run].
  eapply finishes_bind; [apply bootT_finishes|].
  eapply finishes_bind; [apply (chatT_finishes fuel (boot key w))|].
  - intros Hout. by destruct (chat fuel (boot key w)) as [[[]|] ?]; simplify_eq/=.
  - unfold settle, settleT. by destruct (chat fuel (boot key w)) as [[[]|err] m']; returns_run.
Qed.

(** C12: The interaction tree of [chat], run in a world, converges to the
    result of the fuel model: whenever [chat] with some fuel ends without
    running out of it, the tree of [chatT], with its events answered by the
    same world, returns the same completion, the error of the prompt source
    included, and leaves the same object and the same world, trace
    included.  Fuel bounds the model, not the program. *)
Theorem chatT_adequate fuel m :
  (chat fuel m).1 ≠ Normal OutOfFuel →
  runT (chatT (self m)) (world m) ≈
  Ret (world (chat fuel m).2, ((chat fuel m).1, self (chat fuel m).2)).
Proof. intros Hne. by apply finishes_returns, chatT_finishes. Qed.

(** C13: The tree of the whole script, with its events answered by a
    world, gives what the fuel model of the script computes, whenever the
    fuel of the model is enough for the run to end: the interpretation of
    the tree converges to the same exit status and the same world; and the
    run of the model is one of the runs of the tree, the only one that
    returns with the answers of the world, and the monitor of the script
    accepts it. *)
Theorem mainT_adequate fuel w :
  (main fuel w).1 ≠ Running →
  runT mainT w ≈ Ret ((main fuel w).2, (main fuel w).1) ∧
  ∃ l, run mainT l (Returns (main fuel w).1) ∧
       answeredBy w l ∧ worldAfter w l = (main fuel w).2 ∧
       accepts watch watch0 l ∧
       ∀ l' status, run mainT l' (Returns status) → answeredBy w l' →
                    l' = l ∧ status = (main fuel w).1.
Proof.
  intros Hrun. pose proof (mainT_finishes fuel w Hrun) as Hfin.
  split; [by apply finishes_returns|]. destruct Hfin as (l & Hl & Ha & Hw).
  exists l. split_and!; [done..|by apply (always_run _ _ _ _ _ _ mainT_always Hl)|].
  intros l' status Hl' Ha'. exact (run_functional byWorld _ _ _ _ _ _ Hl' Ha' Hl Ha).
Qed.

(** The result of the fuel model does not depend on the fuel: two runs of
    [chat] from the same machine that do not run out of fuel end the same
    way and leave the same machine, since both are the result of the
    tree. *)
Corollary chat_fuel_irrelevant fuel1 fuel2 m :
  (chat fuel1 m).1 ≠ Normal OutOfFuel → (chat fuel2 m).1 ≠ Normal OutOfFuel →
  chat fuel1 m = chat fuel2 m.
Proof.
  intros H1 H2.
  pose proof (finishes_functional _ _ _ _ _ _
                (chatT_finishes fuel1 m H1) (chatT_finishes fuel2 m H2)) as [Hw Hr].
  destruct (chat fuel1 m) as [r1 [c1 w1]], (chat fuel2 m) as [r2 [c2 w2]].
  by simplify_eq/=.
Qed.

(** The same for the whole script. *)
Corollary main_fuel_irrelevant fuel1 fuel2 w :
  (main fuel1 w).1 ≠ Running → (main fuel2 w).1 ≠ Running → main fuel1 w = main fuel2 w.
Proof.
  intros H1 H2.
  pose proof (finishes_functional _ _ _ _ _ _
                (mainT_finishes fuel1 w H1) (mainT_finishes fuel2 w H2)) as [Hw Hr].
  destruct (main fuel1 w), (main fuel2 w). by simplify_eq/=.
Qed.

End loop.

(** ** The theorem at a concrete run *)

Lemma chatT_adequate_witness :
  runT (chatT (demoSession FromReadline []))
    (posixWorld (keyEnv "sk-demo") [] ["hello"; "reset"] [reply (assistant "hi")]) ≈
  Ret (world (chat 3 (demo FromReadline [] [] ["hello"; "reset"]
                        [reply (assistant "hi")])).2,
       ((chat 3 (demo FromReadline [] [] ["hello"; "reset"]
                   [reply (assistant "hi")])).1,
        self (chat 3 (demo FromReadline [] [] ["hello"; "reset"]
                        [reply (assistant "hi")])).2)).
Proof.
  apply (chatT_adequate 3
    (demo FromReadline [] [] ["hello"; "reset"] [reply (assistant "hi")])).
  by vm_compute.
Defined.

Lemma mainT_adequate_witness :
  runT mainT (posixWorld (keyEnv "sk-demo") ["what"; "is"; "2+2"] [] [reply (assistant "4")]) ≈
  Ret ((main 2 (posixWorld (keyEnv "sk-demo") ["what"; "is"; "2+2"] []
                  [reply (assistant "4")])).2,
       (main 2 (posixWorld (keyEnv "sk-demo") ["what"; "is"; "2+2"] []
                  [reply (assistant "4")])).1) ∧
  ∃ l, run mainT l
         (Returns (main 2 (posixWorld (keyEnv "sk-demo") ["what"; "is"; "2+2"] []
                             [reply (assistant "4")])).1) ∧
       answeredBy (posixWorld (keyEnv "sk-demo") ["what"; "is"; "2+2"] []
                     [reply (assistant "4")]) l ∧
       worldAfter (posixWorld (keyEnv "sk-demo") ["what"; "is"; "2+2"] []
                     [reply (assistant "4")]) l =
       (main 2 (posixWorld (keyEnv "sk-demo") ["what"; "is"; "2+2"] []
                  [reply (assistant "4")])).2 ∧
       accepts watch watch0 l ∧
       ∀ l' status,
         run mainT l' (Returns status) →
         answeredBy (posixWorld (keyEnv "sk-demo") ["what"; "is"; "2+2"] []
                       [reply (assistant "4")]) l' →
         l' = l ∧
         status = (main 2 (posixWorld (keyEnv "sk-demo") ["what"; "is"; "2+2"] []
                             [reply (assistant "4")])).1.
Proof.
  apply (mainT_adequate 2
    (posixWorld (keyEnv "sk-demo") ["what"; "is"; "2+2"] [] [reply (assistant "4")])).
  by vm_compute.
Defined.

(** The tree of the script is run as it is, by answering its events from a
    world: on an input that ends after one line the run has eleven events
    and ends as the fuel model says, in the same world. *)
Example mainT_exec :
  let w := pipedWorld (keyEnv "sk-demo") ["hello"] [reply (assistant "hi")] in
  let r := exec 60 byWorld mainT w in
  r.2 = Some (main 3 w).1 ∧ r.1.2 = (main 3 w).2 ∧ length r.1.1 = 11.
Proof. by vm_compute. Qed.
