(* ===== verification/Heap.v ===== *)
(** * The history as an array of the heap

    In [ChatSession] the field [_messages] holds a list, and each use of
    it is a value.  In the source it holds a reference to one array:
    [push] and [splice] change that array in place (lines 49, 84, 91), and
    the request of line 54 holds the array itself, not a copy of it
    (line 56).  This file reads the same methods with the array in a heap:
    the object holds a reference, a request holds a reference, and the
    request objects handed to the client are kept ([handed]), as a client
    may keep them.

    The client is given the request when it is called, and the world is
    asked with what the request holds at that moment.  Under this reading
    the two models agree on everything that can be observed: the script
    with the heap ends as the script without, in the same world
    ([mainH_agrees]).  What the heap adds is what the value model cannot
    say: the session has one array from its construction on, every request
    holds it, and so a request that is looked at later shows the history as
    it is then, after a reset an empty one ([chatH_shares_array]). *)

From stdpp Require Import gmap.
From S2P Require Import Prelude JsString Message Json Runtime Stubs PromptSource ChatSession Main Requests.

(** ** References and the heap *)

(** A reference to an array. *)
Record Ref := mkRef { ref_id : positive }.

#[export] Instance Ref_eq_dec : EqDecision Ref.
Proof. solve_decision. Defined.

#[export] Instance Ref_countable : Countable Ref.
Proof. by apply (inj_countable' ref_id mkRef); intros []. Defined.

#[export] Instance Ref_infinite : Infinite Ref.
Proof. by apply (inj_infinite mkRef (λ l, Some (ref_id l))). Defined.

(** The arrays of messages that exist. *)
Abbreviation Heap := (gmap Ref (list Message)).

(** The elements of the array at [l]. *)
Definition array (h : Heap) (l : Ref) : list Message := default [] (h !! l).

(** [[]]: a new array, at a reference that is not in use. *)
Definition newArray (h : Heap) : Ref * Heap :=
  let l := fresh (dom h) in (l, <[l := []]> h).

(** ** Data *)

(** The fields of an [OpenAiChat] (lines 24-30): [_messages] is a
    reference. *)
Record OpenAiChatH := mkOpenAiChatH {
  _messagesH : Ref;
  _modelH : string;
  _promptSourceH : PromptSource;
  _openaiApiKeyH : string;
  _openaiH : option OpenAIApi
}.

(** The request of lines 54-57: [messages] is the array of the session. *)
Record RequestH := { reqH_model : string; reqH_messages : Ref }.

(** The constructor (lines 24-30), which allocates the array. *)
Definition newOpenAiChatH (o : Options) (h : Heap) : OpenAiChatH * Heap :=
  let '(l, h) := newArray h in
  ({| _messagesH := l;
      _modelH := orElse (opt_model o) CHAT_DEFAULT_MODEL;
      _promptSourceH := opt_promptSource o;
      _openaiApiKeyH := opt_openaiApiKey o;
      _openaiH := None |}, h).

Section session.
Context {F R : Type} `{!FileSystem F, !RemoteApi R}.

(** The object, the heap, the requests handed to the client so far, and
    the world. *)
Record MachineH := mkMachineH {
  selfH : OpenAiChatH;
  heap : Heap;
  handed : list RequestH;
  worldH : World F R
}.

(** What a request holds now. *)
Definition view (m : MachineH) (req : RequestH) : CreateChatCompletionRequest :=
  {| req_model := reqH_model req; req_messages := array (heap m) (reqH_messages req) |}.

(** A computation on the world, run on the machine. *)
Definition liftWH {A} (c : M (World F R) A) : M MachineH A := λ m,
  let '(r, w) := c (worldH m) in (r, mkMachineH (selfH m) (heap m) (handed m) w).

(** [this._messages], read, and changed in place. *)
Definition readMessages : M MachineH (list Message) :=
  gets (λ m, array (heap m) (_messagesH (selfH m))).

Definition changeMessages (f : list Message → list Message) : M MachineH unit :=
  modify (λ m,
    let l := _messagesH (selfH m) in
    mkMachineH (selfH m) (<[l := f (array (heap m) l)]> (heap m)) (handed m) (worldH m)).

(** [createChatCompletion(req)]: the client gets the request object, and
    the service what the request holds at the call. *)
Definition createChatCompletionH (apiKey : string) (req : RequestH)
    : M MachineH CreateChatCompletionResponse := λ m,
  let m := mkMachineH (selfH m) (heap m) (handed m ++ [req]) (worldH m) in
  liftWH (openai_createChatCompletion apiKey (view m req)) m.

Definition debugLogH (line : string) : M MachineH unit :=
  e ← gets (λ m, env (worldH m));
  if truthyOpt (DEBUG e) then liftWH (console_log line) else mret tt.

(** ** Methods *)

(** [_initialize()] (lines 32-37). *)
Definition _initializeH : M MachineH unit :=
  modify (λ m,
    let c := selfH m in
    mkMachineH
      (mkOpenAiChatH (_messagesH c) (_modelH c) (_promptSourceH c) (_openaiApiKeyH c)
         (Some {| configuration := {| apiKey := _openaiApiKeyH c |} |}))
      (heap m) (handed m) (worldH m)).

(** [_transcript()] (lines 39-46). *)
Definition _transcriptH : M MachineH string :=
  messages ← readMessages;
  gets (λ m, transcript (os (worldH m)) messages).

(** [_resetChat()] (lines 48-51): the array is emptied, not replaced. *)
Definition _resetChatH : M MachineH unit :=
  changeMessages (λ a, (splice 0 (length a) a).2);;
  liftWH (console_log "Chat history has been reset.").

(** [_callOpenaiChatApi()] (lines 53-63). *)
Definition _callOpenaiChatApiH : M MachineH Message :=
  this ← gets selfH;
  let req := {| reqH_model := _modelH this; reqH_messages := _messagesH this |} in
  match _openaiH this with
  | None => throw notInitialized
  | Some api =>
      data ← createChatCompletionH (apiKey (configuration api)) req;
      match choices data with
      | [] => throw noChoice
      | c :: _ => mret (choice_message c)
      end
  end.

(** The [save to] branch of [handlePrompt] (lines 72-75). *)
Definition saveToH (prompt : string) : M MachineH unit :=
  let filename := substring (String.length CHAT_COMMAND_SAVE_TO + 1) prompt in
  t ← _transcriptH;
  liftWH (fs_writeFile filename t);;
  liftWH (console_log ("Chat saved to " +:+ filename)).

(** The last branch of [handlePrompt] (lines 83-96). *)
Definition sendH (prompt : string) : M MachineH unit :=
  let userMessage := userMessage prompt in
  changeMessages (λ a, push a userMessage);;
  debugLogH (stringifyMessage userMessage);;
  answer ← _callOpenaiChatApiH;
  changeMessages (λ a, push a answer);;
  liftWH (console_log (content answer));;
  debugLogH (stringifyMessage answer).

(** [handlePrompt(prompt)] (lines 65-97). *)
Definition handlePromptH (prompt : JsVal) : M MachineH unit :=
  if negb (toBoolean prompt)
  then throw (Error ("Invalid prompt " +:+ toString prompt +:+ "."))
  else
    match prompt with
    | JsStr p =>
        if startsWith p CHAT_COMMAND_SAVE_TO then saveToH p
        else if startsWith p CHAT_COMMAND_RESET_CHAT then _resetChatH
        else sendH p
    | _ => throw (TypeError "prompt.startsWith is not a function")
    end.

(** The [catch] block of [chat] (lines 105-114). *)
Definition reportErrorH (err : JsError) : M MachineH unit :=
  match structuredError err with
  | Some (res, errMessage) =>
      liftWH (console_error
        ("Error " +:+ numberToString (status res) +:+ " " +:+ statusText res +:+
         ": " +:+ errMessage))
  | None => liftWH (console_error_object err)
  end.

(** The body of the loop (lines 103-114). *)
Definition iterationH (prompt : string) : M MachineH unit :=
  tryCatch (handlePromptH (JsStr prompt)) reportErrorH.

(** [for await (const prompt of gen) { body }] (lines 102-115). *)
Fixpoint forAwaitH (fuel : nat) (g : Generator) (body : string → M MachineH unit)
    : M MachineH LoopEnd :=
  match fuel with
  | 0 => mret OutOfFuel
  | S fuel' =>
      '(r, g') ← liftWH (next g);
      match r with
      | Yielded prompt => body prompt;; forAwaitH fuel' g' body
      | Done => mret Finished
      | Pending => mret Suspended
      end
  end.

(** [chat()] (lines 99-116). *)
Definition chatH (fuel : nat) : M MachineH LoopEnd :=
  liftWH (console_log WELCOME);;
  this ← gets selfH;
  forAwaitH fuel (newGenerator (_promptSourceH this)) iterationH.

(** ** The script *)

(** The session of lines 134-140, on a heap without arrays. *)
Definition bootH (apiKey : string) (w : World F R) : MachineH :=
  let '(chat, h) :=
    newOpenAiChatH {| opt_promptSource := promptSource (argv w);
                      opt_model := CHAT_OPENAI_MODEL (env w);
                      opt_openaiApiKey := apiKey |} ∅ in
  (_initializeH (mkMachineH chat h [] w)).2.

(** The continuations of lines 143-148. *)
Definition settleH (r : Completion LoopEnd * MachineH) : ExitStatus * World F R :=
  match r with
  | (Normal Finished, m) => (Exited 0, worldH m)
  | (Normal Suspended, m) => (Idle, worldH m)
  | (Normal OutOfFuel, m) => (Running, worldH m)
  | (Throw err, m) => (Exited 1, (console_error_object err (worldH m)).2)
  end.

(** The script (lines 11-16, then the run). *)
Definition mainH (fuel : nat) (w : World F R) : ExitStatus * World F R :=
  match OPENAI_API_KEY (env w) with
  | Some apiKey =>
      if truthy apiKey then settleH (chatH fuel (bootH apiKey w))
      else (Exited 1, (console_error MISSING_KEY w).2)
  | None => (Exited 1, (console_error MISSING_KEY w).2)
  end.

End session.

Arguments MachineH : clear implicits.

(** ** The heap *)

Lemma array_insert (h : Heap) (l : Ref) (a : list Message) : array (<[l := a]> h) l = a.
Proof. unfold array. by rewrite lookup_insert_eq. Qed.

Lemma array_insert_ne (h : Heap) (l l' : Ref) (a : list Message) :
  l ≠ l' → array (<[l := a]> h) l' = array h l'.
Proof. intros Hl. unfold array. by rewrite lookup_insert_ne. Qed.

(** A new array is empty, is not one of the arrays there were, and leaves
    them as they are. *)
Lemma newArray_spec (h : Heap) :
  h !! (newArray h).1 = None ∧
  array (newArray h).2 (newArray h).1 = [] ∧
  ∀ l, l ≠ (newArray h).1 → (newArray h).2 !! l = h !! l.
Proof.
  unfold newArray. simpl. split_and!.
  - apply not_elem_of_dom, is_fresh.
  - apply array_insert.
  - intros l Hl. by rewrite lookup_insert_ne.
Qed.

(** ** One array for the whole session *)

Section sharing.
Context {F R : Type} `{!FileSystem F, !RemoteApi R}.
Implicit Types (m : MachineH F R) (p : string) (v : JsVal) (w : World F R).

(** From [m] to [m'] the session keeps its array, the other arrays are as
    they were, and the requests handed to the client since, which are those
    the service has seen, all hold the array of the session. *)
Record shares (m m' : MachineH F R) : Prop := {
  shares_ref : _messagesH (selfH m') = _messagesH (selfH m);
  shares_frame : ∀ l, l ≠ _messagesH (selfH m) → heap m' !! l = heap m !! l;
  shares_handed :
    ∃ new reqs,
      handed m' = handed m ++ new ∧
      requests (trace (worldH m')) = requests (trace (worldH m)) ++ reqs ∧
      Forall2 (λ req seen,
                 reqH_messages req = _messagesH (selfH m) ∧ reqH_model req = req_model seen)
              new reqs
}.

#[export] Instance shares_preorder : PreOrder shares.
Proof.
  split.
  - intros m. split; [done..|]. exists [], []. by rewrite !(right_id_L [] (++)).
  - intros m1 m2 m3 [Hr12 Hf12 (n12 & r12 & Hn12 & Hq12 & H12)]
      [Hr23 Hf23 (n23 & r23 & Hn23 & Hq23 & H23)].
    split; [congruence| |].
    + intros l Hl. rewrite Hf23, Hf12; [done..|congruence].
    + exists (n12 ++ n23), (r12 ++ r23). rewrite Hn23, Hn12, Hq23, Hq12, !(assoc_L (++)).
      split_and!; [done..|]. apply Forall2_app; [done|]. by rewrite <- Hr12.
Qed.

(** A computation on the world that sends nothing. *)
Definition sendsNothing {A} (c : M (World F R) A) : Prop :=
  ∀ w, requests (trace (c w).2) = requests (trace w).

Lemma liftWH_shares {A} (c : M (World F R) A) : sendsNothing c → preserves shares (liftWH c).
Proof.
  intros Hc m. unfold liftWH. specialize (Hc (worldH m)). destruct (c (worldH m)) as [r w].
  split; [done..|]. exists [], []. by rewrite !(right_id_L [] (++)).
Qed.

Lemma emit_sendsNothing (e : Event) :
  (if e is Request _ _ then False else True) → sendsNothing (emit (F:=F) (R:=R) e).
Proof. intros He w. unfold emit. simpl. rewrite requests_app. destruct e; by requests_norm. Qed.

Lemma fs_writeFile_sendsNothing file data : sendsNothing (fs_writeFile (F:=F) (R:=R) file data).
Proof. intros w. unfold fs_writeFile. repeat case_match; simpl; by requests_norm. Qed.

Lemma next_sendsNothing g : sendsNothing (next (F:=F) (R:=R) g).
Proof.
  intros w. unfold next, promptFromArg, promptFromReadline. munfold. simpl.
  repeat case_match; simplify_eq/=; try done; by requests_norm.
Qed.

Lemma changeMessages_shares f : preserves shares (changeMessages (F:=F) (R:=R) f).
Proof.
  intros m. split; simpl; [done| |].
  - intros l Hl. by rewrite lookup_insert_ne.
  - exists [], []. by rewrite !(right_id_L [] (++)).
Qed.

(** The request of [_callOpenaiChatApi] holds the array of the session. *)
Lemma _callOpenaiChatApiH_shares : preserves shares (_callOpenaiChatApiH (F:=F) (R:=R)).
Proof.
  intros m. unfold _callOpenaiChatApiH, createChatCompletionH, liftWH,
    openai_createChatCompletion, mbind, M_bind, gets. simpl.
  destruct (_openaiH (selfH m)) as [api|]; [|reflexivity]. simpl.
  destruct (createChatCompletion _ _ _) as [[e|[[|c cs]]] r]; simpl;
    (split; simpl; [done..|]; eexists [_], [_]; split_and!; [done|by requests_norm|];
     by repeat constructor).
Qed.

End sharing.

#[export] Hint Resolve liftWH_shares changeMessages_shares _callOpenaiChatApiH_shares
  fs_writeFile_sendsNothing next_sendsNothing : chat.
#[export] Hint Extern 1 (sendsNothing (console_log _)) => by apply emit_sendsNothing : chat.
#[export] Hint Extern 1 (sendsNothing (console_error _)) => by apply emit_sendsNothing : chat.
#[export] Hint Extern 1 (sendsNothing (console_error_object _)) =>
  by apply emit_sendsNothing : chat.

Section run.
Context {F R : Type} `{!FileSystem F, !RemoteApi R}.
Implicit Types (m : MachineH F R) (p : string) (v : JsVal) (w : World F R).

Lemma handlePromptH_shares v : preserves shares (handlePromptH (F:=F) (R:=R) v).
Proof.
  unfold handlePromptH, saveToH, _resetChatH, sendH, _transcriptH, readMessages, debugLogH.
  repeat first [solve [eauto with chat] | preserves_step].
Qed.

Lemma iterationH_shares p : preserves shares (iterationH (F:=F) (R:=R) p).
Proof.
  unfold iterationH, reportErrorH. apply preserves_tryCatch; [apply _|..].
  - apply handlePromptH_shares.
  - solve_preserves.
Qed.

Lemma forAwaitH_shares fuel g :
  preserves shares (forAwaitH (F:=F) (R:=R) fuel g iterationH).
Proof.
  revert g. induction fuel as [|fuel IH]; intros g; simpl; [apply preserves_ret; apply _|].
  apply preserves_bind; [apply _|eauto with chat|]. intros [[p| |] g'];
    [|apply preserves_ret; apply _..].
  apply preserves_bind; [apply _|apply iterationH_shares|done].
Qed.

Lemma chatH_shares fuel : preserves shares (chatH (F:=F) (R:=R) fuel).
Proof.
  unfold chatH. apply preserves_bind; [apply _|eauto with chat|]. intros _.
  apply preserves_bind; [apply _|apply preserves_gets; apply _|]. intros this.
  apply forAwaitH_shares.
Qed.

End run.

(** C21: Through a whole run of [chat] the session keeps the one array
    it was constructed with and touches no other array of the heap; the
    requests handed to the client during the run are, in order, those the
    service has seen, model by model; and each of them holds the array of
    the session, so that read after the run it shows what that array holds
    then, and not the messages it was sent with. *)
Theorem chatH_shares_array {F R : Type} `{!FileSystem F, !RemoteApi R}
    fuel (m : MachineH F R) :
  let m' := (chatH fuel m).2 in
  _messagesH (selfH m') = _messagesH (selfH m) ∧
  (∀ l, l ≠ _messagesH (selfH m) → heap m' !! l = heap m !! l) ∧
  ∃ new reqs,
    handed m' = handed m ++ new ∧
    requests (trace (worldH m')) = requests (trace (worldH m)) ++ reqs ∧
    map reqH_model new = map req_model reqs ∧
    Forall (λ req, req_messages (view m' req) = array (heap m') (_messagesH (selfH m'))) new.
Proof.
  cbv zeta. destruct (chatH_shares fuel m) as [Href Hframe (new & reqs & Hn & Hq & Hs)].
  split_and!; [done..|]. exists new, reqs. split_and!; [done..| |]; clear Hn Hq.
  - induction Hs as [|req seen ?? [_ Hmodel]]; simpl; [done|]. by f_equal.
  - induction Hs as [|req seen ?? [Hr _]]; constructor; [|done].
    unfold view. simpl. by rewrite Hr, Href.
Qed.

(** ** From the heap to the values *)

Section refinement.
Context {F R : Type} `{!FileSystem F, !RemoteApi R}.
Implicit Types (m : MachineH F R) (p : string) (v : JsVal).

(** The object of [ChatSession] that an object of the heap stands for: its
    history is what its array holds. *)
Definition absObj (h : Heap) (c : OpenAiChatH) : OpenAiChat :=
  mkOpenAiChat (array h (_messagesH c)) (_modelH c) (_promptSourceH c) (_openaiApiKeyH c)
    (_openaiH c).

Definition absM m : Machine F R := mkMachine (absObj (heap m) (selfH m)) (worldH m).

(** [cH] does on the heap what [c] does on values: from a machine and
    from what it stands for, the two complete alike and leave machines
    that stand for each other. *)
Definition implements {A} (cH : M (MachineH F R) A) (c : M (Machine F R) A) : Prop :=
  ∀ m, (cH m).1 = (c (absM m)).1 ∧ absM (cH m).2 = (c (absM m)).2.

Lemma implements_ret {A} (a : A) : implements (mret a) (mret a).
Proof. done. Qed.

Lemma implements_throw {A} (e : JsError) : implements (throw (A:=A) e) (throw e).
Proof. done. Qed.

Lemma implements_gets {A} (fH : MachineH F R → A) (f : Machine F R → A) :
  (∀ m, fH m = f (absM m)) → implements (gets fH) (gets f).
Proof. intros Hf m. unfold gets. simpl. by rewrite Hf. Qed.

Lemma implements_modify (fH : MachineH F R → MachineH F R) (f : Machine F R → Machine F R) :
  (∀ m, absM (fH m) = f (absM m)) → implements (modify fH) (modify f).
Proof. intros Hf m. unfold modify. simpl. by rewrite Hf. Qed.

Lemma implements_bind {A B} (cH : M (MachineH F R) A) c (fH : A → M (MachineH F R) B) f :
  implements cH c → (∀ a, implements (fH a) (f a)) → implements (cH ≫= fH) (c ≫= f).
Proof.
  intros Hc Hf m. unfold mbind, M_bind. destruct (Hc m) as [Hr Hm].
  destruct (cH m) as [[a|e] m1], (c (absM m)) as [[a'|e'] m1']; simplify_eq/=; [|done].
  apply Hf.
Qed.

Lemma implements_tryCatch {A} (cH : M (MachineH F R) A) c (hH : JsError → M (MachineH F R) A) h :
  implements cH c → (∀ e, implements (hH e) (h e)) → implements (tryCatch cH hH) (tryCatch c h).
Proof.
  intros Hc Hh m. unfold tryCatch. destruct (Hc m) as [Hr Hm].
  destruct (cH m) as [[a|e] m1], (c (absM m)) as [[a'|e'] m1']; simplify_eq/=; [done|].
  apply Hh.
Qed.

Lemma implements_liftW {A} (c : M (World F R) A) : implements (liftWH c) (liftW c).
Proof. intros m. unfold liftWH, liftW. simpl. by destruct (c (worldH m)). Qed.

(** The array changed in place is the field replaced by the new value. *)
Lemma implements_changeMessages (f : list Message → list Message) :
  implements (changeMessages f) (updateSelf (λ c, set_messages (f (_messages c)) c)).
Proof.
  apply implements_modify. intros m. unfold absM, absObj. simpl. by rewrite array_insert.
Qed.

Lemma implements_readMessages :
  implements readMessages (gets (λ x : Machine F R, _messages (self x))).
Proof. by apply implements_gets. Qed.

End refinement.

#[export] Hint Resolve implements_ret implements_throw implements_bind implements_tryCatch
  implements_liftW implements_changeMessages implements_readMessages : chat.

(** Decompose a goal [implements cH c] along the structure of the two. *)
Ltac implements_step :=
  lazymatch goal with
  | |- ∀ _, _ => intros ?
  | |- implements (match ?x with _ => _ end) (match ?x with _ => _ end) => destruct x
  | |- implements _ _ =>
      first [ apply implements_ret | apply implements_throw | apply implements_bind
            | apply implements_tryCatch | apply implements_liftW
            | apply implements_changeMessages | by apply implements_gets
            | solve [eauto with chat] ]
  end.
Ltac solve_implements := repeat implements_step.

(** ** The methods, one by one *)

Section methods.
Context {F R : Type} `{!FileSystem F, !RemoteApi R}.
Implicit Types (m : MachineH F R) (p : string) (v : JsVal).

Lemma debugLogH_implements line : implements (F:=F) (R:=R) (debugLogH line) (debugLog line).
Proof. unfold debugLogH, debugLog. solve_implements. Qed.

Lemma _transcriptH_implements : implements (F:=F) (R:=R) _transcriptH _transcript.
Proof. by intros m. Qed.

Lemma _resetChatH_implements : implements (F:=F) (R:=R) _resetChatH _resetChat.
Proof. unfold _resetChatH, _resetChat. solve_implements. Qed.

(** The request holds the array; the service is asked with what the array
    holds at the call, which is the history of the value model. *)
Lemma _callOpenaiChatApiH_implements :
  implements (F:=F) (R:=R) _callOpenaiChatApiH _callOpenaiChatApi.
Proof.
  intros m. unfold _callOpenaiChatApiH, _callOpenaiChatApi, createChatCompletionH, liftWH,
    liftW, mbind, M_bind, gets. simpl.
  destruct (_openaiH (selfH m)) as [api|]; [|done]. simpl.
  destruct (openai_createChatCompletion _ _ (worldH m)) as [[[[|c cs]]|e] w]; done.
Qed.

#[local] Hint Resolve debugLogH_implements _transcriptH_implements _resetChatH_implements
  _callOpenaiChatApiH_implements : chat.

Lemma saveToH_implements p : implements (F:=F) (R:=R) (saveToH p) (saveTo p).
Proof. unfold saveToH, saveTo. solve_implements. Qed.

Lemma sendH_implements p : implements (F:=F) (R:=R) (sendH p) (send p).
Proof. unfold sendH, send. solve_implements. Qed.

#[local] Hint Resolve saveToH_implements sendH_implements : chat.

Lemma handlePromptH_implements v :
  implements (F:=F) (R:=R) (handlePromptH v) (handlePrompt v).
Proof. unfold handlePromptH, handlePrompt. solve_implements. Qed.

Lemma reportErrorH_implements err :
  implements (F:=F) (R:=R) (reportErrorH err) (reportError err).
Proof. unfold reportErrorH, reportError. solve_implements. Qed.

#[local] Hint Resolve handlePromptH_implements reportErrorH_implements : chat.

Lemma iterationH_implements p : implements (F:=F) (R:=R) (iterationH p) (iteration p).
Proof. unfold iterationH, iteration. solve_implements. Qed.

Lemma forAwaitH_implements fuel g bodyH (body : string → M (Machine F R) unit) :
  (∀ p, implements (bodyH p) (body p)) →
  implements (forAwaitH fuel g bodyH) (forAwait fuel g body).
Proof.
  intros Hbody. revert g. induction fuel as [|fuel IH]; intros g; simpl; solve_implements.
Qed.

Lemma chatH_implements fuel : implements (F:=F) (R:=R) (chatH fuel) (chat fuel).
Proof.
  unfold chatH, chat. apply implements_bind; [apply implements_liftW|]. intros [] m.
  apply (forAwaitH_implements _ _ _ _ iterationH_implements).
Qed.

End methods.

(** ** The script *)

Section script.
Context {F R : Type} `{!FileSystem F, !RemoteApi R}.
Implicit Types (m : MachineH F R) (w : World F R).

(** The session on the heap stands for the session of [Main.boot]: its
    array is new and empty. *)
Lemma bootH_boot apiKey w : absM (bootH apiKey w) = boot apiKey w.
Proof.
  unfold bootH, boot, newOpenAiChatH, absM, absObj. simpl.
  by rewrite array_insert.
Qed.

Lemma settleH_settle (r : Completion LoopEnd) m : settleH (r, m) = settle (r, absM m).
Proof. by destruct r as [[]|]. Qed.

Lemma mainH_main fuel w : mainH fuel w = main fuel w.
Proof.
  unfold mainH, main. destruct (OPENAI_API_KEY (env w)) as [key|]; [|done].
  destruct (truthy key); [|done].
  destruct (chatH_implements fuel (bootH key w)) as [Hr Hm]. rewrite bootH_boot in Hr, Hm.
  destruct (chatH fuel (bootH key w)) as [r m], (chat fuel (boot key w)) as [r' m'].
  simpl in *. subst. apply settleH_settle.
Qed.

End script.

(** C22: The script run with [this._messages] as an array of the heap,
    changed in place by [push] and [splice] and shared with the requests,
    leaves the world and the exit status that the script run with the
    history as a value leaves, whatever the fuel, the prompts, the service
    and the file system: as long as nothing but the session reads the
    requests it has handed over, the sharing cannot be observed. *)
Theorem mainH_agrees {F R : Type} `{!FileSystem F, !RemoteApi R} fuel (w : World F R) :
  mainH fuel w = main fuel w.
Proof. apply mainH_main. Qed.

(** ** The two readings together *)

Section history.
Context {F R : Type} `{!FileSystem F, !RemoteApi R}.
Implicit Types (m : MachineH F R).

(** The array of the session holds the history of the value model,
    whenever one looks. *)
Lemma chatH_history fuel m :
  array (heap (chatH fuel m).2) (_messagesH (selfH m)) = history (chat fuel (absM m)).2.
Proof.
  destruct (chatH_implements fuel m) as [_ <-]. unfold history. simpl.
  by rewrite (shares_ref _ _ (chatH_shares fuel m)).
Qed.

(** So the requests handed over during a run, read after it, show the
    history as the session has left it. *)
Lemma handed_show_history fuel m :
  ∃ new, handed (chatH fuel m).2 = handed m ++ new ∧
         Forall (λ req, req_messages (view (chatH fuel m).2 req) =
                        history (chat fuel (absM m)).2) new.
Proof.
  destruct (chatH_shares fuel m) as [_ _ (new & reqs & Hn & _ & Hs)].
  exists new. split; [done|]. clear Hn.
  induction Hs as [|req seen ?? [Hr _]]; constructor; [|done].
  unfold view. simpl. by rewrite Hr, chatH_history.
Qed.

End history.

(** ** A request read after the run

    The prompt [hello] is sent as a request for one message.  Read when the
    run is over, the same request holds the answer as well; after a [reset]
    it holds nothing. *)

Definition demoH (input : list string) : MachineH MemFs Script :=
  (chatH 4 (bootH "sk-demo"
              (posixWorld (keyEnv "sk-demo") [] input [reply (assistant "hi")]))).2.

Example request_grows_after_the_call :
  let m := demoH ["hello"] in
  requests (trace (worldH m)) =
    [{| req_model := "gpt-3.5-turbo"; req_messages := [userMessage "hello"] |}] ∧
  map (view m) (handed m) =
    [{| req_model := "gpt-3.5-turbo";
        req_messages := [userMessage "hello"; assistant "hi"] |}].
Proof. by vm_compute. Qed.

Example request_emptied_by_reset :
  let m := demoH ["hello"; "reset"] in
  requests (trace (worldH m)) =
    [{| req_model := "gpt-3.5-turbo"; req_messages := [userMessage "hello"] |}] ∧
  map (view m) (handed m) = [{| req_model := "gpt-3.5-turbo"; req_messages := [] |}].
Proof. by vm_compute. Qed.
