(* ===== verification/Scenarios.v ===== *)
(** * Concrete runs

    Runs of the whole script on the in-memory file system and the scripted
    remote service, evaluated by computation: the scenarios the specification
    lists among its testable properties, and the runs that show where the
    program and its specification part.  They test the model on inputs one
    can read; each is an instance of a theorem of [ChatSession] or [Main],
    which holds for every input. *)

From S2P Require Import Prelude JsString Message Json Runtime Stubs PromptSource ChatSession Main.

(** The world of an interactive run with a credential. *)
Definition interactive (input : list string) (script : Script) : World MemFs Script :=
  posixWorld (keyEnv "sk-demo") [] input script.

(** The world of a run with arguments and a credential. *)
Definition withArgs (args : list string) (script : Script) : World MemFs Script :=
  posixWorld (keyEnv "sk-demo") args [] script.

(** The world of a run with arguments, a credential, a model of the user's
    choice and [DEBUG] set. *)
Definition debugging (model : string) (args : list string) (script : Script) :
    World MemFs Script :=
  posixWorld {| OPENAI_API_KEY := Some "sk-demo"; CHAT_OPENAI_MODEL := Some model;
                DEBUG := Some "1" |} args [] script.

(** The lines written to standard error, in order: the error lines as they
    are, an error object by the tag [<object>]. *)
Definition stderrLines (t : list Event) : list string :=
  omap (λ e, match e with
             | ConsoleError l => Some l
             | ConsoleErrorObject _ => Some "<object>"
             | _ => None
             end) t.

(** The session at the end of an interactive run. *)
Definition sessionAfter (fuel : nat) (w : World MemFs Script) : Machine MemFs Script :=
  (chat fuel (boot "sk-demo" w)).2.

(** The scenario of the specification: the prompts [hello], [reset],
    [save to out.txt], with a service that answers [hi].  The answer is
    printed, the reset empties the history before the save, so the history
    ends empty and [out.txt] is written as the empty string; one request was
    sent, for the single message [hello]. *)
Example scenario_hello_reset_save :
  let m := sessionAfter 4 (interactive ["hello"; "reset"; "save to out.txt"]
                             [reply (assistant "hi")]) in
  history m = [] ∧
  readFile "out.txt" (fs (world m)) = Some "" ∧
  stdoutLines (trace (world m)) =
    [WELCOME; "hi"; "Chat history has been reset."; "Chat saved to out.txt"] ∧
  requests (trace (world m)) =
    [{| req_model := "gpt-3.5-turbo"; req_messages := [userMessage "hello"] |}].
Proof. by vm_compute. Qed.

(** The scenario of the specification for argument mode: invoked with
    the arguments [what], [is], [2+2], the script handles exactly one prompt,
    [what is 2+2], prints the answer and exits with code 0. *)
Example scenario_argument_mode :
  let r := main 2 (withArgs ["what"; "is"; "2+2"] [reply (assistant "4")]) in
  r.1 = Exited 0 ∧
  requests (trace r.2) =
    [{| req_model := "gpt-3.5-turbo"; req_messages := [userMessage "what is 2+2"] |}] ∧
  stdoutLines (trace r.2) = [WELCOME; "4"].
Proof. by vm_compute. Qed.

(** A structured error of the service with status 429, status text
    [Too Many Requests] and message [rate limited] is reported as one line
    holding the three values, and the loop goes on to the next prompt; the
    request for that next prompt carries the unanswered message too. *)
Example scenario_rate_limited :
  let m := sessionAfter 3 (interactive ["hello"; "again"]
                             [httpFailure 429 "Too Many Requests" "rate limited";
                              reply (assistant "hi")]) in
  stderrLines (trace (world m)) = ["Error 429 Too Many Requests: rate limited"] ∧
  history m = [userMessage "hello"; userMessage "again"; assistant "hi"] ∧
  map req_messages (requests (trace (world m))) =
    [[userMessage "hello"]; [userMessage "hello"; userMessage "again"]].
Proof. by vm_compute. Qed.

(** The command test is a test of the prefix only.  [save together]
    is taken as a save to the file [ether] (the ninth code unit on, whatever
    the eighth is), [save to] alone as a save to the file with the empty
    name, and [resetting my router] as a reset: none of the three reaches the
    remote service. *)
Example scenario_command_prefixes :
  let m := sessionAfter 4 (interactive ["save together"; "save to"; "resetting my router"]
                             [reply (assistant "hi")]) in
  omap (λ e, match e with WriteFile f _ => Some f | _ => None end) (trace (world m)) =
    ["ether"; ""] ∧
  stdoutLines (trace (world m)) =
    [WELCOME; "Chat saved to ether"; "Chat history has been reset."] ∧
  requests (trace (world m)) = [].
Proof. by vm_compute. Qed.

(** In argument mode the exit code does not tell whether the prompt
    was answered: with arguments that trim to the empty string the prompt is
    rejected, and with a service that fails the prompt is unanswered; both
    errors are reported and the script still exits with code 0. *)
Example scenario_exit_code_after_errors :
  let blank := main 2 (withArgs [" "] [reply (assistant "hi")]) in
  let failed := main 2 (withArgs ["hello"] [networkFailure]) in
  blank.1 = Exited 0 ∧ requests (trace blank.2) = [] ∧
  stderrLines (trace blank.2) = ["<object>"] ∧
  failed.1 = Exited 0 ∧ stderrLines (trace failed.2) = ["<object>"] ∧
  stdoutLines (trace failed.2) = [WELCOME].
Proof. by vm_compute. Qed.

(** When standard input ends while a prompt is being handled, the
    interface is closed by the time the script asks for the next line: the
    question throws, no [catch] of [chat] encloses it, and the script
    writes the error and exits with code 1, after it has answered the
    lines it read. *)
Example scenario_input_closed :
  let r := main 3 (pipedWorld (keyEnv "sk-demo") ["hello"] [reply (assistant "hi")]) in
  r.1 = Exited 1 ∧
  stdoutLines (trace r.2) = [WELCOME; "hi"] ∧
  last (trace r.2) = Some (ConsoleErrorObject useAfterClose) ∧
  omap (λ e, match e with Question q => Some q | _ => None end) (trace r.2) = ["> "].
Proof. by vm_compute. Qed.

(** With [DEBUG] set, the user message and the answer are also printed
    as JSON, the user message before the request is sent and the answer after
    its content. *)
Example scenario_debug :
  let w := debugging "gpt-4" ["hi"] [reply (assistant "yo")] in
  (main 2 w).1 = Exited 0 ∧
  map req_model (requests (trace (main 2 w).2)) = ["gpt-4"] ∧
  stdoutLines (trace (main 2 w).2) =
    [WELCOME;
     "{" +:+ stringifyString "role" +:+ ":" +:+ stringifyString "user" +:+ "," +:+
       stringifyString "content" +:+ ":" +:+ stringifyString "hi" +:+ "}";
     "yo";
     stringifyMessage (assistant "yo")].
Proof. by vm_compute. Qed.
